(** * BotCriptoFy2: [backend/fix_exchanges_imports.py]

    A shallow embedding of the one-shot import rewriting script and the
    properties of its three routines [fix_file], [fix_special_cases] and
    [main].

    Text is modelled as [string] (a sequence of characters, the file's
    UTF-8 bytes: every pattern of the script is ASCII, so matching bytes
    and matching code points agree).  The file system is a finite map from
    paths to the bytes of the files, and the console is the list of
    printed lines.  A file is read in text mode, which turns every line
    ending into a line feed, so the text read from a file and the bytes it
    holds are kept apart. *)

From Stdlib Require Import String Ascii List Arith Lia Bool.
From Stdlib Require Import DecimalString.
From stdpp Require Import gmap strings.

Open Scope string_scope.

(** The append of texts computes when its first argument is known. *)
Arguments String.append !s1 s2 : simpl nomatch.

(** ** Characters and basic text functions *)

Definition LFc : ascii := ascii_of_nat 10.
Definition LF : string := String LFc "".

Definition CRc : ascii := ascii_of_nat 13.
Definition CR : string := String CRc "".

(** [s.startswith(p)], written structurally on the prefix. *)
Fixpoint starts_with (p s : string) : bool :=
  match p with
  | "" => true
  | String a p' =>
      match s with
      | String b s' => if Ascii.eqb a b then starts_with p' s' else false
      | "" => false
      end
  end.

(** [p in s] for Python strings: [p] occurs at some position of [s]. *)
Fixpoint contains (p s : string) : bool :=
  starts_with p s ||
  match s with
  | String _ s' => contains p s'
  | "" => false
  end.

Fixpoint drop_str (n : nat) (s : string) : string :=
  match n with
  | 0 => s
  | S k => match s with String _ s' => drop_str k s' | "" => "" end
  end.

Fixpoint count_char (c : ascii) (s : string) : nat :=
  match s with
  | "" => 0
  | String a s' => (if Ascii.eqb a c then 1 else 0) + count_char c s'
  end.

Fixpoint mem_char (c : ascii) (s : string) : bool :=
  match s with
  | "" => false
  | String a s' => Ascii.eqb a c || mem_char c s'
  end.

(** [s.split("\n")]: the lines of a text. *)
Fixpoint lines (s : string) : list string :=
  match s with
  | "" => [""]
  | String a s' =>
      if Ascii.eqb a LFc then "" :: lines s'
      else
        match lines s' with
        | l :: ls => String a l :: ls
        | [] => [String a ""]
        end
  end.

(** [os.path.basename]: the text after the last slash. *)
Fixpoint basename_acc (cur : string) (s : string) : string :=
  match s with
  | "" => String.rev cur
  | String a s' =>
      if Ascii.eqb a "/"%char then basename_acc "" s'
      else basename_acc (String a cur) s'
  end.

Definition basename (p : string) : string := basename_acc "" p.

(** ** The scanning loop shared by [re.sub] and [str.replace]

    Both walk the text from left to right; at each position a matcher
    either fails, and the character is copied, or yields a replacement
    and the number of characters it consumed, which are skipped.  An
    empty match emits its replacement and then copies one character, as
    Python does. *)

Definition matcher := string -> option (string * nat).

Fixpoint scan (m : matcher) (skip : nat) (s : string) {struct s} : string :=
  match skip with
  | S k =>
      match s with
      | String _ s' => scan m k s'
      | "" => ""
      end
  | 0 =>
      match m s with
      | Some (r, n) =>
          r ++ match s with
               | String c s' =>
                   match n with
                   | 0 => String c (scan m 0 s')
                   | S k => scan m k s'
                   end
               | "" => ""
               end
      | None =>
          match s with
          | String c s' => String c (scan m 0 s')
          | "" => ""
          end
      end
  end.

(** *** [str.replace(old, new)] *)

Definition lit_matcher (old new : string) : matcher :=
  fun s => if starts_with old s then Some (new, String.length old) else None.

Definition str_replace (old new s : string) : string :=
  scan (lit_matcher old new) 0 s.

(** *** The fragment of [re] the script uses

    A pattern is a sequence of atoms: literal text (escaped
    metacharacters are literal characters), the capturing group
    [([^c]+)], and [.*].  Both repetitions are greedy and backtrack: the
    longest repetition after which the rest of the pattern matches is
    taken.  Without [re.DOTALL] the dot matches every character but the
    line feed; a negated class matches every character but the listed
    one, the line feed included. *)

Module Re.

Inductive atom : Type :=
| Lit (l : string)
| CapNotPlus (c : ascii)
| DotStar.

Definition pattern := list atom.

(** The captured groups and the text left after the match. *)
Definition result : Type := list string * string.

Fixpoint lit (l s : string) : option string :=
  match l with
  | "" => Some s
  | String a l' =>
      match s with
      | String b s' => if Ascii.eqb a b then lit l' s' else None
      | "" => None
      end
  end.

(** Greedy [cls*] followed by the continuation [k]: first try to take one
    more character, fall back to stopping here. *)
Fixpoint star {R : Type} (cls : ascii -> bool) (k : string -> option R)
    (s : string) : option (string * R) :=
  match s with
  | String a s' =>
      if cls a then
        match star cls k s' with
        | Some (x, r) => Some (String a x, r)
        | None => option_map (pair "") (k s)
        end
      else option_map (pair "") (k s)
  | "" => option_map (pair "") (k s)
  end.

(** Greedy [cls+]: one character of the class, then [cls*]. *)
Definition plus {R : Type} (cls : ascii -> bool) (k : string -> option R)
    (s : string) : option (string * R) :=
  match s with
  | String a s' =>
      if cls a then
        match star cls k s' with
        | Some (x, r) => Some (String a x, r)
        | None => None
        end
      else None
  | "" => None
  end.

Definition not_char (c : ascii) : ascii -> bool := fun a => negb (Ascii.eqb a c).

Fixpoint match_here (p : pattern) (s : string) {struct p} : option result :=
  match p with
  | [] => Some ([], s)
  | Lit l :: p' =>
      match lit l s with
      | Some s' => match_here p' s'
      | None => None
      end
  | CapNotPlus c :: p' =>
      match plus (not_char c) (match_here p') s with
      | Some (x, (caps, rest)) => Some (x :: caps, rest)
      | None => None
      end
  | DotStar :: p' =>
      match star (not_char LFc) (match_here p') s with
      | Some (_, r) => Some r
      | None => None
      end
  end.

(** Replacement templates: literal text and group references [\n]. *)
Inductive tpart : Type :=
| TLit (l : string)
| TGroup (n : nat).

Definition template := list tpart.

Fixpoint expand (t : template) (caps : list string) : string :=
  match t with
  | [] => ""
  | TLit l :: t' => l ++ expand t' caps
  | TGroup n :: t' => nth (n - 1) caps "" ++ expand t' caps
  end.

Definition sub_matcher (p : pattern) (t : template) : matcher :=
  fun s =>
    match match_here p s with
    | Some (caps, rest) =>
        Some (expand t caps, String.length s - String.length rest)
    | None => None
    end.

(** [re.sub(p, t, s)] *)
Definition sub (p : pattern) (t : template) (s : string) : string :=
  scan (sub_matcher p t) 0 s.

(** [re.search(p, s) is not None] *)
Fixpoint search (p : pattern) (s : string) : bool :=
  match match_here p s with
  | Some _ => true
  | None =>
      match s with
      | String _ s' => search p s'
      | "" => false
      end
  end.

End Re.

(** ** The four rewrite rules of [fix_file] *)

Definition not_implemented : string := "// Module not yet implemented".

Definition from_exchanges : string := " } from '@/modules/exchanges';".

Definition pattern1 : Re.pattern :=
  [Re.Lit "import { "; Re.CapNotPlus "}"; Re.Lit from_exchanges].

Definition template1 : Re.template :=
  [Re.TLit (not_implemented ++ LF ++ "// import { "); Re.TGroup 1;
   Re.TLit from_exchanges].

Definition pattern2 : Re.pattern :=
  [Re.Lit "import type { "; Re.CapNotPlus "}"; Re.Lit from_exchanges].

Definition template2 : Re.template :=
  [Re.TLit (not_implemented ++ LF ++ "// import type { "); Re.TGroup 1;
   Re.TLit from_exchanges].

Definition service_import : string :=
  "import { ExchangeService } from '../../exchanges/services/exchange.service';".

Definition pattern3 : Re.pattern :=
  [Re.Lit "import { ExchangeService } from '.."; Re.DotStar;
   Re.Lit "exchanges/services/exchange.service';"].

Definition template3 : Re.template :=
  [Re.TLit (not_implemented ++ LF ++ "// " ++ service_import)].

Definition schema_import : string :=
  "import { exchangeConnections } from '../../exchanges/schema/exchanges.schema';".

Definition pattern4 : Re.pattern :=
  [Re.Lit "import { exchangeConnections } from '.."; Re.DotStar;
   Re.Lit "exchanges/schema/exchanges.schema';"].

Definition template4 : Re.template :=
  [Re.TLit (not_implemented ++ LF ++ "// " ++ schema_import)].

Definition sub1 : string -> string := Re.sub pattern1 template1.
Definition sub2 : string -> string := Re.sub pattern2 template2.
Definition sub3 : string -> string := Re.sub pattern3 template3.
Definition sub4 : string -> string := Re.sub pattern4 template4.

(** The text [fix_file] computes from the text it read. *)
Definition fix_content (content : string) : string :=
  sub4 (sub3 (sub2 (sub1 content))).

(** ** The world the script runs in

    [files] maps the paths of the regular files to the bytes they hold,
    [stdout] holds the printed lines and [writes] the files written with
    the text written, both oldest first.  A computation either returns a
    value and the new world or raises ([None]): reading a file that does
    not exist is the one exception the model has; writes always succeed. *)

Record world : Type := World {
  files : gmap string string;
  stdout : list string;
  writes : list (string * string)
}.

Definition M (A : Type) : Type := world -> option (A * world).

Definition ret {A : Type} (a : A) : M A := fun w => Some (a, w).

Definition bind {A B : Type} (c : M A) (k : A -> M B) : M B :=
  fun w =>
    match c w with
    | Some (a, w') => k a w'
    | None => None
    end.

Notation "x <- c ;; k" := (bind c (fun x => k))
  (at level 100, c at next level, right associativity).
Notation "c ;; k" := (bind c (fun _ => k))
  (at level 100, right associativity).

Definition print (line : string) : M unit :=
  fun w => Some (tt, World (files w) (stdout w ++ [line]) (writes w)).

Definition path_exists (p : string) : M bool :=
  fun w => Some (bool_decide (is_Some (files w !! p)), w).

(** What [open(p, 'r', encoding='utf-8')] makes of the bytes of a file:
    with the default [newline=None] the decoder of [io] translates the
    line endings, [output.replace("\r\n", "\n").replace("\r", "\n")]. *)
Definition universal_newlines (data : string) : string :=
  str_replace CR LF (str_replace (CR ++ LF) LF data).

(** [with open(p, 'r', encoding='utf-8') as f: f.read()] *)
Definition read_text (p : string) : M string :=
  fun w =>
    match files w !! p with
    | Some data => Some (universal_newlines data, w)
    | None => None
    end.

(** [with open(p, 'w', encoding='utf-8') as f: f.write(content)]: the
    paths of the script are those of a POSIX system, where a line feed is
    written as a line feed and the file holds the text as it is. *)
Definition write_text (p content : string) : M unit :=
  fun w =>
    Some (tt, World (<[p := content]> (files w)) (stdout w)
                    (writes w ++ [(p, content)])).

(** ** [fix_file] *)

Definition msg_fixing (filepath : string) : string :=
  "Fixing " ++ basename filepath ++ "...".

Definition msg_not_found (filepath : string) : string :=
  "  ⚠️  File not found: " ++ filepath.

Definition msg_fixed (filepath : string) : string :=
  "  ✅ Fixed and backed up to " ++ basename filepath ++ ".bak".

Definition msg_no_changes : string := "  ℹ️  No changes needed".

Definition fix_file (filepath : string) : M bool :=
  print (msg_fixing filepath) ;;
  present <- path_exists filepath ;;
  if negb present then
    print (msg_not_found filepath) ;;
    ret false
  else
    content <- read_text filepath ;;
    let original_content := content in
    let content := fix_content content in
    if negb (String.eqb content original_content) then
      write_text (filepath ++ ".bak") original_content ;;
      write_text filepath content ;;
      print (msg_fixed filepath) ;;
      ret true
    else
      print msg_no_changes ;;
      ret false.

(** ** [fix_special_cases] *)

Definition manager_ts : string :=
  "/Users/myminimac/Desenvolvimento/BotCriptoFy2/backend/src/modules/market-data/websocket/market-data-websocket-manager.ts".

Definition pipeline_ts : string :=
  "/Users/myminimac/Desenvolvimento/BotCriptoFy2/backend/src/modules/market-data/websocket/pipeline.ts".

(** Fix 1: the type import of the manager gains two symbols. *)
Definition types_marker : string := "import type { IExchangeAdapter".
Definition types_added : string := "ConnectionConfig, ExchangeId".
Definition types_old : string :=
  "import type { IExchangeAdapter, SubscriptionRequest, ConnectionStatus, OrderBook, Trade, Ticker, Candle, ExchangeEventName, ExchangeEventListener, ConnectionMetrics } from './types';".
Definition types_new : string :=
  "import type { IExchangeAdapter, SubscriptionRequest, ConnectionStatus, OrderBook, Trade, Ticker, Candle, ExchangeEventName, ExchangeEventListener, ConnectionMetrics, ConnectionConfig, ExchangeId } from './types';".

Definition patchA (content : string) : option string :=
  if contains types_marker content && negb (contains types_added content)
  then Some (str_replace types_old types_new content)
  else None.

(** Fix 2: a stub follows the commented import of the pipeline. *)
Definition stub_marker : string :=
  "// import { getDefaultWebSocketConfig } from '@/modules/exchanges';".
Definition stub_head : string := "function getDefaultWebSocketConfig".
Definition stub_text : string :=
  "// import { getDefaultWebSocketConfig } from '@/modules/exchanges';" ++ LF ++
  LF ++
  "// Temporary stub until exchanges module is implemented" ++ LF ++
  "function getDefaultWebSocketConfig(exchangeId: ExchangeId): ConnectionConfig {" ++ LF ++
  "  throw new Error(`Exchanges module not yet implemented. Cannot get config for ${exchangeId}`);" ++ LF ++
  "}".

Definition patchB (content : string) : option string :=
  if contains stub_marker content && negb (contains stub_head content)
  then Some (str_replace stub_marker stub_text content)
  else None.

(** Fix 3: the delegating call of the manager becomes a thrown error. *)
Definition call_marker : string :=
  "return createWebSocketAdapter(exchangeId, config);".
Definition call_old : string :=
  "  private createAdapter(exchangeId: ExchangeId, config: ConnectionConfig): IExchangeAdapter {" ++ LF ++
  "    // Delegate creation to exchanges module to centralize exchange connectivity" ++ LF ++
  "    return createWebSocketAdapter(exchangeId, config);".
Definition call_new : string :=
  "  private createAdapter(exchangeId: ExchangeId, config: ConnectionConfig): IExchangeAdapter {" ++ LF ++
  "    // Delegate creation to exchanges module to centralize exchange connectivity" ++ LF ++
  "    // Module not yet implemented" ++ LF ++
  "    throw new Error(`Exchanges module not yet implemented. Cannot create adapter for ${exchangeId}`);" ++ LF ++
  "    // return createWebSocketAdapter(exchangeId, config);".

Definition patchC (content : string) : option string :=
  if contains call_marker content
  then Some (str_replace call_old call_new content)
  else None.

Definition msg_patchA : string :=
  "  ✅ Added ConnectionConfig and ExchangeId to " ++ basename manager_ts ++ " types import".
Definition msg_patchB : string :=
  "  ✅ Added stub function to " ++ basename pipeline_ts.
Definition msg_patchC : string :=
  "  ✅ Commented out createWebSocketAdapter usage in " ++ basename manager_ts.

(** The shape the three fixes share: if the file exists, read it, and if
    the guard holds write the patched text back and report. *)
Definition apply_patch (filepath : string) (patch : string -> option string)
    (msg : string) : M unit :=
  present <- path_exists filepath ;;
  if present then
    content <- read_text filepath ;;
    match patch content with
    | Some content' =>
        write_text filepath content' ;;
        print msg
    | None => ret tt
    end
  else ret tt.

Definition fix_special_cases : M unit :=
  apply_patch manager_ts patchA msg_patchA ;;
  apply_patch pipeline_ts patchB msg_patchB ;;
  apply_patch manager_ts patchC msg_patchC.

(** ** [main] *)

Definition FILES_TO_FIX : list string :=
  [ "/Users/myminimac/Desenvolvimento/BotCriptoFy2/backend/src/modules/market-data/websocket/market-data-websocket-manager.ts";
    "/Users/myminimac/Desenvolvimento/BotCriptoFy2/backend/src/modules/market-data/websocket/pipeline.ts";
    "/Users/myminimac/Desenvolvimento/BotCriptoFy2/backend/src/modules/market-data/websocket/websocket-manager.ts";
    "/Users/myminimac/Desenvolvimento/BotCriptoFy2/backend/src/modules/market-data/services/orderbook.service.ts";
    "/Users/myminimac/Desenvolvimento/BotCriptoFy2/backend/src/modules/market-data/services/ohlcv.service.ts";
    "/Users/myminimac/Desenvolvimento/BotCriptoFy2/backend/src/modules/market-data/services/trades.service.ts";
    "/Users/myminimac/Desenvolvimento/BotCriptoFy2/backend/src/modules/market-data/services/ticker.service.ts";
    "/Users/myminimac/Desenvolvimento/BotCriptoFy2/backend/src/modules/order-book/services/order-book-snapshot.service.ts";
    "/Users/myminimac/Desenvolvimento/BotCriptoFy2/backend/src/modules/social-trading/services/copy-trading.service.ts";
    "/Users/myminimac/Desenvolvimento/BotCriptoFy2/backend/src/modules/orders/services/position.service.ts";
    "/Users/myminimac/Desenvolvimento/BotCriptoFy2/backend/src/modules/orders/services/order.service.ts" ].

Fixpoint repeat_str (s : string) (n : nat) : string :=
  match n with
  | 0 => ""
  | S k => s ++ repeat_str s k
  end.

Definition banner : string := repeat_str "=" 60.

(** [str(n)] for a natural number. *)
Definition show_nat (n : nat) : string := NilZero.string_of_uint (Nat.to_uint n).

Definition msg_summary (fixed_count : nat) : string :=
  "✅ Fixed " ++ show_nat fixed_count ++ " files".

(** The [for] loop of [main], threading the counter. *)
Fixpoint fix_all (paths : list string) (fixed_count : nat) : M nat :=
  match paths with
  | [] => ret fixed_count
  | filepath :: rest =>
      changed <- fix_file filepath ;;
      fix_all rest (if changed then fixed_count + 1 else fixed_count)
  end.

Definition main : M unit :=
  print banner ;;
  print "Fixing exchanges module imports" ;;
  print banner ;;
  print "" ;;
  fixed_count <- fix_all FILES_TO_FIX 0 ;;
  print "" ;;
  print "Fixing special cases..." ;;
  fix_special_cases ;;
  print "" ;;
  print banner ;;
  print (msg_summary fixed_count) ;;
  print "Backup files created with .bak extension" ;;
  print banner.

(** * Notions of the specification and of its proof *)

(** Some position of the text is matched. *)
Definition hits (m : matcher) (s : string) : Prop :=
  exists a b, s = a ++ b /\ m b <> None.

(** The pattern opens with a literal character. *)
Definition opens_with_char (p : Re.pattern) : bool :=
  match p with
  | Re.Lit (String _ _) :: _ => true
  | _ => false
  end.

(** The replacement every rule writes: the comment line, then the import
    behind a line comment. *)
Definition commented (import : string) : string :=
  not_implemented ++ LF ++ "// " ++ import.

(** Rules 1 and 2, [import { ... } from '@/modules/exchanges';], for the
    opening literal [head]: ["import { "] or ["import type { "]. *)
Definition named (head : string) : Re.pattern :=
  [Re.Lit head; Re.CapNotPlus "}"; Re.Lit from_exchanges].

(** Their replacement template and their matcher. *)
Definition named_template (head : string) : Re.template :=
  [Re.TLit (not_implemented ++ LF ++ "// " ++ head); Re.TGroup 1;
   Re.TLit from_exchanges].

Definition named_matcher (head : string) : matcher :=
  Re.sub_matcher (named head) (named_template head).

(** Rules 3 and 4, one symbol from a relative path: the literal up to the
    two dots, the literal after [.*], and the import the replacement
    writes. *)
Definition relative (head tail : string) : Re.pattern :=
  [Re.Lit head; Re.DotStar; Re.Lit tail].

(** Their replacement template and their matcher. *)
Definition relative_template (import : string) : Re.template :=
  [Re.TLit (not_implemented ++ LF ++ "// " ++ import)].

Definition relative_matcher (head tail import : string) : matcher :=
  Re.sub_matcher (relative head tail) (relative_template import).

(** The matchers of the four rules: [sub1] is the scan of [m1], and so
    on. *)
Definition m1 : matcher := named_matcher "import { ".

Definition m2 : matcher := named_matcher "import type { ".

Definition m3 : matcher :=
  relative_matcher "import { ExchangeService } from '.."
    "exchanges/services/exchange.service';" service_import.

Definition m4 : matcher :=
  relative_matcher "import { exchangeConnections } from '.."
    "exchanges/schema/exchanges.schema';" schema_import.

(** A matcher consumes at least one character and no more than there are. *)
Definition consumes (m : matcher) : Prop :=
  forall s r n, m s = Some (r, n) ->
    exists t rest, s = t ++ rest /\ t <> "" /\ String.length t = n.

(** Every replacement has one more line feed than the text it replaces. *)
Definition adds_line (m : matcher) : Prop :=
  forall t rest r, m (t ++ rest) = Some (r, String.length t) ->
    count_char LFc r = S (count_char LFc t).

(** [re.search] finds one of the four patterns in the text. *)
Definition matches_any (content : string) : bool :=
  Re.search pattern1 content || Re.search pattern2 content ||
  Re.search pattern3 content || Re.search pattern4 content.

(** The world after [fix_file] met a missing file. *)
Definition after_missing (filepath : string) (w : world) : world :=
  World (files w) (stdout w ++ [msg_fixing filepath; msg_not_found filepath])
        (writes w).

(** The world after [fix_file] found nothing to change. *)
Definition after_unchanged (filepath : string) (w : world) : world :=
  World (files w) (stdout w ++ [msg_fixing filepath; msg_no_changes]) (writes w).

(** The world after [fix_file] read [content] and rewrote it. *)
Definition after_fixed (filepath : string) (w : world) (content : string) : world :=
  World (<[filepath := fix_content content]>
           (<[filepath ++ ".bak" := content]> (files w)))
        (stdout w ++ [msg_fixing filepath; msg_fixed filepath])
        (writes w ++ [(filepath ++ ".bak", content);
                      (filepath, fix_content content)]).

(** [a] and [b] differ at a position both have. *)
Fixpoint clash (a b : string) : bool :=
  match a, b with
  | String x a', String y b' => if Ascii.eqb x y then clash a' b' else true
  | _, _ => false
  end.

(** No occurrence of a text opening with [l] starts inside [w], whatever
    follows [w]. *)
Fixpoint no_start (l w : string) : bool :=
  match w with
  | "" => true
  | String _ w' => clash l w && no_start l w'
  end.

(** The matcher only matches texts that open with [l]. *)
Definition opens_with (m : matcher) (l : string) : Prop :=
  forall s, m s <> None -> starts_with l s = true.

(** A matcher that writes the matched text back behind an insertion. *)
Definition inserting (m : matcher) : Prop :=
  forall t rest r, m (t ++ rest) = Some (r, String.length t) ->
    exists ins, r = ins ++ t.

(** [../] repeated: the relative path climbing [n] directories. *)
Definition up_dirs (n : nat) : string := repeat_str "../" n.

(** The import of [ExchangeService] through the directories [dirs]. *)
Definition service_import_from (dirs : string) : string :=
  "import { ExchangeService } from '" ++ dirs ++
  "exchanges/services/exchange.service';".

(** The text ends inside the braces of an import that opens with [head]:
    [head] occurs in it and no closing brace follows. *)
Fixpoint opened (head s : string) : bool :=
  (starts_with head s && negb (mem_char "}" s)) ||
  match s with
  | String _ s' => opened head s'
  | "" => false
  end.

(** The statement of the symbol list example. *)
Definition foo_bar_import : string :=
  "import { Foo, Bar } from '@/modules/exchanges';".

(** The text a fix leaves: patched when its guard holds, else as it was. *)
Definition patched (patch : string -> option string) (s : string) : string :=
  match patch s with
  | Some s' => s'
  | None => s
  end.

(** What a fix leaves in a file that holds [data]: the patched text when
    the guard holds on the text read, else the file as it is. *)
Definition rewritten (patch : string -> option string) (data : string) : string :=
  match patch (universal_newlines data) with
  | Some s' => s'
  | None => data
  end.

(** What one run makes of the manager and of the pipeline. *)
Definition manager_after (s : string) : string := patched patchC (patched patchA s).

Definition pipeline_after (s : string) : string := patched patchB s.

(** A fix writes no carriage return into a text that has none. *)
Definition writes_text (patch : string -> option string) : Prop :=
  forall s s', patch s = Some s' -> mem_char CRc s = false ->
    mem_char CRc s' = false.

(** What one run leaves in the manager and in the pipeline. *)
Definition manager_file (data : string) : string :=
  rewritten patchC (rewritten patchA data).

Definition pipeline_file (data : string) : string := rewritten patchB data.

(** [call_old] without its first character. *)
Definition call_old' : string :=
  " private createAdapter(exchangeId: ExchangeId, config: ConnectionConfig): IExchangeAdapter {" ++ LF ++
  "    // Delegate creation to exchanges module to centralize exchange connectivity" ++ LF ++
  "    return createWebSocketAdapter(exchangeId, config);".

(** The world one fix leaves. *)
Definition patch_world (filepath : string) (patch : string -> option string)
    (msg : string) (w : world) : world :=
  match files w !! filepath with
  | Some data =>
      match patch (universal_newlines data) with
      | Some s' =>
          World (<[filepath := s']> (files w)) (stdout w ++ [msg])
                (writes w ++ [(filepath, s')])
      | None => w
      end
  | None => w
  end.

(** The world the three fixes leave. *)
Definition special_world (w : world) : world :=
  patch_world manager_ts patchC msg_patchC
    (patch_world pipeline_ts patchB msg_patchB
       (patch_world manager_ts patchA msg_patchA w)).

(** The files the three fixes leave. *)
Definition special_files (fs : gmap string string) : gmap string string :=
  alter (rewritten patchC) manager_ts
    (alter (rewritten patchB) pipeline_ts
       (alter (rewritten patchA) manager_ts fs)).

(** [fix_special_cases] run [n] times in a row. *)
Fixpoint rerun (n : nat) (w : world) : option world :=
  match n with
  | 0 => Some w
  | S k =>
      match fix_special_cases w with
      | Some (_, w') => rerun k w'
      | None => None
      end
  end.

(** What [fix_file] returns and the world it leaves. *)
Definition fix_file_world (filepath : string) (w : world) : bool * world :=
  match files w !! filepath with
  | None => (false, after_missing filepath w)
  | Some data =>
      if String.eqb (fix_content (universal_newlines data)) (universal_newlines data)
      then (false, after_unchanged filepath w)
      else (true, after_fixed filepath w (universal_newlines data))
  end.

(** The file is there and the rules change the text read from it. *)
Definition changed_at (fs : gmap string string) (filepath : string) : bool :=
  match fs !! filepath with
  | Some data =>
      negb (String.eqb (fix_content (universal_newlines data))
                       (universal_newlines data))
  | None => false
  end.

(** The text a read of the file at [p] gives. *)
Definition text_read (fs : gmap string string) (p : string) : option string :=
  universal_newlines <$> fs !! p.

(** What [fix_file] leaves in a file that holds [data]: the text read,
    rewritten, when the rules change it; else the file as it is. *)
Definition fixed (data : string) : string :=
  if String.eqb (fix_content (universal_newlines data)) (universal_newlines data)
  then data
  else fix_content (universal_newlines data).

(** The two lines [fix_file] prints for a file. *)
Definition report (fs : gmap string string) (filepath : string) : list string :=
  [ msg_fixing filepath;
    match fs !! filepath with
    | None => msg_not_found filepath
    | Some data =>
        if String.eqb (fix_content (universal_newlines data))
                      (universal_newlines data)
        then msg_no_changes else msg_fixed filepath
    end ].

(** No path of the list is another path of it or the backup of one. *)
Fixpoint independent (paths : list string) : bool :=
  match paths with
  | [] => true
  | p :: rest =>
      forallb (fun q => negb (String.eqb q p) &&
                        negb (String.eqb q (p ++ ".bak")) &&
                        negb (String.eqb p (q ++ ".bak"))) rest
      && independent rest
  end.

(** The values [fix_file] returns along the loop. *)
Fixpoint loop_returns (paths : list string) (w : world) : list bool :=
  match paths with
  | [] => []
  | p :: rest =>
      fst (fix_file_world p w) :: loop_returns rest (snd (fix_file_world p w))
  end.

(** The number of [True]s in a list. *)
Fixpoint count_true (l : list bool) : nat :=
  match l with
  | [] => 0
  | b :: l' => (if b then 1 else 0) + count_true l'
  end.

(** The first [n] characters of a text. *)
Fixpoint take_str (n : nat) (s : string) : string :=
  match n with
  | 0 => ""
  | S k => match s with String c s' => String c (take_str k s') | "" => "" end
  end.

(** The text after the last line feed. *)
Fixpoint last_line (s : string) : string :=
  match s with
  | "" => ""
  | String c s' =>
      if mem_char LFc s' then last_line s'
      else if Ascii.eqb c LFc then s' else String c s'
  end.

(** The position after [pre] is commented: a [//] precedes it on its
    line. *)
Definition commented_at (pre : string) : bool := contains "//" (last_line pre).

(** Rule [p] matches at some position of [s] that is not commented, [pre]
    being the text before [s]. *)
Fixpoint has_active (p : Re.pattern) (pre s : string) : bool :=
  (negb (commented_at pre) &&
   match Re.match_here p s with Some _ => true | None => false end) ||
  match s with
  | String c s' => has_active p (pre ++ String c "") s'
  | "" => false
  end.

(** The texts a scan replaces, in order: [m.group(0)] for every match. *)
Fixpoint matched (m : matcher) (skip : nat) (s : string) {struct s} : list string :=
  match skip with
  | S k =>
      match s with
      | String _ s' => matched m k s'
      | "" => []
      end
  | 0 =>
      match m s with
      | Some (_, n) =>
          take_str n s ::
          match s with
          | String _ s' =>
              match n with
              | 0 => matched m 0 s'
              | S k => matched m k s'
              end
          | "" => []
          end
      | None =>
          match s with
          | String _ s' => matched m 0 s'
          | "" => []
          end
      end
  end.

(** The text has no line feed. *)
Definition single_line (t : string) : bool := negb (mem_char LFc t).

(** No import that rule 1 replaces in the text, or rule 2 in what rule 1
    leaves, spans several lines. *)
Definition single_line_imports (content : string) : bool :=
  forallb single_line (matched (Re.sub_matcher pattern1 template1) 0 content) &&
  forallb single_line (matched (Re.sub_matcher pattern2 template2) 0 (sub1 content)).

(** Rule [mk] matches at a position of [s] that is not commented and that
    rule [mj] does not match, [pre] being the text before [s]. *)
Definition active (mk mj : matcher) (pre s : string) : Prop :=
  exists a b, s = a ++ b /\ commented_at (pre ++ a) = false /\
              mk b <> None /\ mj b = None.

(** A match of [mk] that runs into a replacement of [mj] was a match of
    [mk] before the replacement. *)
Definition pulled (mk mj : matcher) : Prop :=
  forall u t rest r z,
    mj (t ++ rest) = Some (r, String.length t) ->
    mk (u ++ r ++ z) <> None -> mk (u ++ t ++ rest) <> None.

(** A one-line match is replaced by the comment line and a line behind
    [//]. *)
Definition comments_out (mj : matcher) : Prop :=
  forall t rest r,
    mj (t ++ rest) = Some (r, String.length t) -> mem_char LFc t = false ->
    exists q, r = not_implemented ++ LF ++ "//" ++ q /\ mem_char LFc q = false.

(** The replacement of a match is matched again, whatever follows it. *)
Definition rematches (m : matcher) : Prop :=
  forall t rest r z,
    m (t ++ rest) = Some (r, String.length t) -> hits m (r ++ z).

(** Rule [mk] matches at a position of [t] that is not commented. *)
Definition live (mk : matcher) (t : string) : Prop :=
  exists a b, t = a ++ b /\ commented_at a = false /\ mk b <> None.

(** Some rule matches at a position of the text that is not commented. *)
Definition active_import (s : string) : bool :=
  has_active pattern1 "" s || has_active pattern2 "" s ||
  has_active pattern3 "" s || has_active pattern4 "" s.

(** The world after the opening banner. *)
Definition header (w : world) : world :=
  World (files w)
        (stdout w ++ [banner; "Fixing exchanges module imports"; banner; ""])
        (writes w).

(** The world when the special cases start. *)
Definition before_special (w1 : world) : world :=
  World (files w1) (stdout w1 ++ [""; "Fixing special cases..."]) (writes w1).

(** The world after the closing banner. *)
Definition footer (fixed_count : nat) (w2 : world) : world :=
  World (files w2)
        (stdout w2 ++ [""; banner; msg_summary fixed_count;
                       "Backup files created with .bak extension"; banner])
        (writes w2).

(** The texts the four patterns match: a named import, plain or of
    types, of a symbol list without closing brace from the missing module,
    and the import of the service or of the schema through a relative
    path written on one line. *)
Definition rule_shape (t : string) : Prop :=
  (exists X, X <> "" /\ mem_char "}" X = false /\
     (t = "import { " ++ X ++ " } from '@/modules/exchanges';" \/
      t = "import type { " ++ X ++ " } from '@/modules/exchanges';")) \/
  (exists y, mem_char LFc y = false /\
     (t = "import { ExchangeService } from '.." ++ y ++
          "exchanges/services/exchange.service';" \/
      t = "import { exchangeConnections } from '.." ++ y ++
          "exchanges/schema/exchanges.schema';")).

(** [o] is [s] with copies of [c] inserted, one after the other. *)
Inductive insertions (c : string) : string -> string -> Prop :=
| insertions_refl s : insertions c s s
| insertions_step a b o :
    insertions c (a ++ c ++ b) o -> insertions c (a ++ b) o.

(** The path is neither a path of the list nor the backup of one. *)
Definition not_listed (q : string) : bool :=
  forallb (fun p => negb (String.eqb q p) && negb (String.eqb q (p ++ ".bak")))
          FILES_TO_FIX.

(** The import of [exchangeConnections] through the directories [dirs]. *)
Definition schema_import_from (dirs : string) : string :=
  "import { exchangeConnections } from '" ++ dirs ++
  "exchanges/schema/exchanges.schema';".

(** * Properties *)

(** ** Text *)

Section Text.

Implicit Types a b c d p s : string.

Lemma app_assoc_s a b c : (a ++ b) ++ c = a ++ b ++ c.
Proof. induction a as [|x a IH]; simpl; [reflexivity | now rewrite IH]. Qed.

Lemma app_nil_r_s a : a ++ "" = a.
Proof. induction a as [|x a IH]; simpl; [reflexivity | now rewrite IH]. Qed.

Lemma length_app_s a b :
  String.length (a ++ b) = String.length a + String.length b.
Proof. induction a as [|x a IH]; simpl; [reflexivity | now rewrite IH]. Qed.

Lemma length_zero_s a : String.length a = 0 -> a = "".
Proof. destruct a; simpl; [reflexivity | discriminate]. Qed.

Lemma app_inv_head_s a b c : a ++ b = a ++ c -> b = c.
Proof.
  induction a as [|x a IH]; simpl; intros H; [exact H |].
  injection H as H. now apply IH.
Qed.

Lemma app_eq_nil_s a b : a ++ b = "" -> a = "" /\ b = "".
Proof. destruct a; simpl; [auto | discriminate]. Qed.

(** Two ways of cutting one text: one cut is inside the other's left part
    or inside its right part. *)
Lemma app_split a b c d :
  a ++ b = c ++ d ->
  (exists e, c = a ++ e /\ b = e ++ d) \/
  (exists e, e <> "" /\ a = c ++ e /\ d = e ++ b).
Proof.
  revert c. induction a as [|x a IH]; intros c H; simpl in H.
  - left. exists c. auto.
  - destruct c as [|y c]; simpl in H.
    + right. exists (String x a). subst d. repeat split. discriminate.
    + injection H as -> H. destruct (IH _ H) as [[e [-> ->]]|[e [Hne [-> ->]]]].
      * left. exists e. auto.
      * right. exists e. auto.
Qed.

Lemma starts_with_spec p s :
  starts_with p s = true <-> exists r, s = p ++ r.
Proof.
  revert s. induction p as [|x p IH]; intros s; simpl.
  - split; [intros _; now exists s | reflexivity].
  - destruct s as [|y s].
    + split; [discriminate | intros [r H]; discriminate].
    + destruct (Ascii.eqb_spec x y) as [->|Hne].
      * rewrite IH. split; intros [r H]; exists r; [now rewrite H | now injection H].
      * split; [discriminate | intros [r H]; simpl in H; congruence].
Qed.

Lemma starts_with_app p r : starts_with p (p ++ r) = true.
Proof. apply starts_with_spec. now exists r. Qed.

Lemma contains_spec p s :
  contains p s = true <-> exists a b, s = a ++ p ++ b.
Proof.
  induction s as [|y s IH]; simpl.
  - rewrite orb_false_r, starts_with_spec. split.
    + intros [r H]. exists "", r. exact H.
    + intros [a [b H]]. symmetry in H. apply app_eq_nil_s in H as [-> H].
      simpl in H. now exists b.
  - rewrite orb_true_iff, starts_with_spec, IH. split.
    + intros [[r H]|[a [b H]]].
      * exists "", r. exact H.
      * exists (String y a), b. simpl. now rewrite H.
    + intros [a [b H]]. destruct a as [|x a]; simpl in H.
      * left. now exists b.
      * right. injection H as _ H. now exists a, b.
Qed.

Lemma contains_false p s a b :
  contains p s = false -> s <> a ++ p ++ b.
Proof.
  intros H E. assert (contains p s = true) by (apply contains_spec; eauto).
  congruence.
Qed.

(** [a in b] and [b in s] give [a in s]. *)
Lemma contains_trans a b s :
  contains a b = true -> contains b s = true -> contains a s = true.
Proof.
  rewrite !contains_spec. intros [u [v ->]] [u' [v' ->]].
  exists (u' ++ u), (v ++ v'). now rewrite !app_assoc_s.
Qed.

Lemma drop_str_app a b : drop_str (String.length a) (a ++ b) = b.
Proof. induction a as [|x a IH]; simpl; [now destruct b | exact IH]. Qed.

Lemma count_char_app x a b :
  count_char x (a ++ b) = count_char x a + count_char x b.
Proof. induction a as [|y a IH]; simpl; [reflexivity | rewrite IH; lia]. Qed.

Lemma mem_char_app x a b :
  mem_char x (a ++ b) = mem_char x a || mem_char x b.
Proof.
  induction a as [|y a IH]; simpl; [reflexivity | now rewrite IH, orb_assoc].
Qed.

Lemma mem_char_count x a : mem_char x a = false -> count_char x a = 0.
Proof.
  induction a as [|y a IH]; simpl; [reflexivity |].
  destruct (Ascii.eqb y x); simpl; [discriminate | exact IH].
Qed.

End Text.

(** ** The scanning loop *)

Section Scan.

Variable m : matcher.

(** A matcher consumes at least one character and no more than there are. *)
Hypothesis m_consumes :
  forall s r n, m s = Some (r, n) ->
    exists t rest, s = t ++ rest /\ t <> "" /\ String.length t = n.

Lemma m_nil : m "" = None.
Proof.
  destruct (m "") as [[r n]|] eqn:E; [exfalso | reflexivity].
  destruct (m_consumes _ _ _ E) as [t [rest [H [Hne _]]]].
  symmetry in H. apply app_eq_nil_s in H as [-> _]. now apply Hne.
Qed.

Lemma scan_nil : scan m 0 "" = "".
Proof. simpl. now rewrite m_nil. Qed.

Lemma scan_skip n s : scan m n s = scan m 0 (drop_str n s).
Proof.
  revert n. induction s as [|c s IH]; intros [|n]; try reflexivity.
  - simpl. now rewrite m_nil.
  - simpl. apply IH.
Qed.

Lemma scan_miss c s :
  m (String c s) = None -> scan m 0 (String c s) = String c (scan m 0 s).
Proof. intros H. simpl. now rewrite H. Qed.

Lemma scan_hit t rest r :
  m (t ++ rest) = Some (r, String.length t) ->
  scan m 0 (t ++ rest) = r ++ scan m 0 rest.
Proof.
  intros H. destruct (m_consumes _ _ _ H) as [t' [rest' [_ [Hne Hlen]]]].
  destruct t as [|c t]; [destruct t'; [now elim Hne | discriminate] |].
  change (scan m 0 (String c t ++ rest))
    with (match m (String c t ++ rest) with
          | Some (r, n) =>
              r ++ match n with
                   | 0 => String c (scan m 0 (t ++ rest))
                   | S k => scan m k (t ++ rest)
                   end
          | None => String c (scan m 0 (t ++ rest))
          end).
  rewrite H. change (String.length (String c t)) with (S (String.length t)).
  cbv iota. rewrite scan_skip, drop_str_app. reflexivity.
Qed.

(** Every scan is a copied character or a replaced match followed by the
    scan of what is left, which gives the induction all later proofs use. *)
Lemma scan_ind (P : string -> string -> Prop) :
  P "" "" ->
  (forall c s, m (String c s) = None ->
     P s (scan m 0 s) -> P (String c s) (String c (scan m 0 s))) ->
  (forall t rest r, t <> "" -> m (t ++ rest) = Some (r, String.length t) ->
     P rest (scan m 0 rest) -> P (t ++ rest) (r ++ scan m 0 rest)) ->
  forall s, P s (scan m 0 s).
Proof.
  intros Hnil Hmiss Hhit s.
  remember (String.length s) as k eqn:Hk.
  revert s Hk. induction k as [k IH] using lt_wf_ind. intros s Hk.
  destruct s as [|c s]; [rewrite scan_nil; exact Hnil |].
  destruct (m (String c s)) as [[r n]|] eqn:E.
  - destruct (m_consumes _ _ _ E) as [t [rest [Hs [Hne Hlen]]]].
    subst n. rewrite Hs in E |- *. rewrite (scan_hit _ _ _ E).
    apply Hhit; [exact Hne | exact E |].
    apply (IH (String.length rest)); [| reflexivity].
    subst k. rewrite Hs, length_app_s. destruct t; [now elim Hne | simpl; lia].
  - rewrite (scan_miss _ _ E). apply Hmiss; [exact E |].
    apply (IH (String.length s)); [subst k; simpl; lia | reflexivity].
Qed.

Lemma hits_cons c s : hits m (String c s) <-> m (String c s) <> None \/ hits m s.
Proof.
  split.
  - intros [a [b [H Hm]]]. destruct a as [|x a]; simpl in H.
    + left. now rewrite H.
    + right. injection H as _ H. now exists a, b.
  - intros [H|[a [b [H Hm]]]].
    + now exists "", (String c s).
    + exists (String c a), b. simpl. now rewrite H.
Qed.

Lemma hits_app_r t rest : hits m rest -> hits m (t ++ rest).
Proof.
  intros [a [b [H Hm]]]. exists (t ++ a), b. now rewrite H, app_assoc_s.
Qed.

(** Where nothing matches the text is copied. *)
Lemma scan_no_hits s : ~ hits m s -> scan m 0 s = s.
Proof.
  induction s as [|c s IH]; intros H; [apply scan_nil |].
  rewrite hits_cons in H.
  destruct (m (String c s)) eqn:E; [elim H; left; congruence |].
  rewrite (scan_miss _ _ E), IH; [reflexivity | tauto].
Qed.

(** When every replacement has one more line feed than the text it
    replaces, the scan counts the matches in the line feeds it adds. *)
Hypothesis m_adds_line :
  forall t rest r, m (t ++ rest) = Some (r, String.length t) ->
    count_char LFc r = S (count_char LFc t).

Lemma scan_count_ge s : count_char LFc s <= count_char LFc (scan m 0 s).
Proof.
  apply scan_ind with (P := fun s o => count_char LFc s <= count_char LFc o).
  - lia.
  - intros c s' _ IH. simpl. lia.
  - intros t rest r _ Hm IH. rewrite !count_char_app, (m_adds_line _ _ _ Hm). lia.
Qed.

Lemma scan_count_gt s :
  hits m s -> count_char LFc s < count_char LFc (scan m 0 s).
Proof.
  apply scan_ind
    with (P := fun s o => hits m s -> count_char LFc s < count_char LFc o).
  - intros [a [b [H Hm]]]. symmetry in H. apply app_eq_nil_s in H as [_ ->].
    now rewrite m_nil in Hm.
  - intros c s' Hc IH H. apply hits_cons in H as [H|H]; [congruence |].
    simpl. specialize (IH H). lia.
  - intros t rest r _ Hm _ _.
    rewrite !count_char_app, (m_adds_line _ _ _ Hm).
    pose proof (scan_count_ge rest). lia.
Qed.

End Scan.

(** ** The matcher of [re] *)

Section ReFacts.

Import Re.

Lemma lit_spec l s r : lit l s = Some r <-> s = l ++ r.
Proof.
  revert s. induction l as [|a l IH]; intros s; simpl.
  - split; congruence.
  - destruct s as [|b s]; [split; discriminate |].
    destruct (Ascii.eqb_spec a b) as [->|Hne].
    + rewrite IH. split; congruence.
    + split; [discriminate | congruence].
Qed.

Lemma lit_app l r : lit l (l ++ r) = Some r.
Proof. now apply lit_spec. Qed.

(** One step of [match_here], for each kind of atom. *)
Lemma match_here_Lit l p s :
  match_here (Lit l :: p) s =
    match lit l s with Some s' => match_here p s' | None => None end.
Proof. reflexivity. Qed.

Lemma match_here_Cap c p s :
  match_here (CapNotPlus c :: p) s =
    match plus (not_char c) (match_here p) s with
    | Some (x, (caps, rest)) => Some (x :: caps, rest)
    | None => None
    end.
Proof. reflexivity. Qed.

Lemma match_here_Dot p s :
  match_here (DotStar :: p) s =
    match star (not_char LFc) (match_here p) s with
    | Some (_, r) => Some r
    | None => None
    end.
Proof. reflexivity. Qed.

Lemma match_here_lit l s caps rest :
  match_here [Lit l] s = Some (caps, rest) <-> caps = [] /\ s = l ++ rest.
Proof.
  cbn [match_here]. destruct (lit l s) as [s'|] eqn:E.
  - apply lit_spec in E as ->. split.
    + intros H. injection H as <- <-. auto.
    + intros [-> H]. apply app_inv_head_s in H as ->. reflexivity.
  - split; [discriminate |]. intros [_ ->]. now rewrite lit_app in E.
Qed.

Section Star.

Context {R : Type}.
Variable c : ascii.
Variable k : string -> option R.

(** What [star] returns is a run of the class followed by a text on which
    the rest of the pattern matches. *)
Lemma star_sound s x r :
  star (not_char c) k s = Some (x, r) ->
  exists s', s = x ++ s' /\ mem_char c x = false /\ k s' = Some r.
Proof.
  revert x r. induction s as [|a s IH]; intros x r; simpl.
  - destruct (k "") as [r'|] eqn:E; simpl; [| discriminate].
    intros H. injection H as <- <-. now exists "".
  - assert (Hstop : option_map (pair "") (k (String a s)) = Some (x, r) ->
      exists s', String a s = x ++ s' /\ mem_char c x = false /\ k s' = Some r).
    { destruct (k (String a s)) as [r'|] eqn:E; simpl; [| discriminate].
      intros H. injection H as <- <-. now exists (String a s). }
    unfold not_char at 1. destruct (Ascii.eqb a c) eqn:Ea; simpl; [exact Hstop |].
    destruct (star (not_char c) k s) as [[x' r']|] eqn:E; [| exact Hstop].
    intros H. injection H as <- <-.
    destruct (IH _ _ eq_refl) as [s' [-> [Hx Hk]]].
    exists s'. simpl. now rewrite Ea.
Qed.

(** It finds a match whenever some run of the class is followed by one. *)
Lemma star_complete x s' :
  mem_char c x = false -> k s' <> None ->
  star (not_char c) k (x ++ s') <> None.
Proof.
  induction x as [|a x IH]; simpl; intros Hx Hk.
  - destruct s' as [|b s']; simpl.
    + destruct (k ""); [discriminate | congruence].
    + destruct (not_char c b).
      * destruct (star (not_char c) k s') as [[? ?]|]; [discriminate |].
        destruct (k (String b s')); [discriminate | congruence].
      * destruct (k (String b s')); [discriminate | congruence].
  - apply orb_false_iff in Hx as [Ha Hx]. unfold not_char at 1. rewrite Ha. simpl.
    specialize (IH Hx Hk).
    destruct (star (not_char c) k (x ++ s')) as [[? ?]|]; [discriminate | congruence].
Qed.

(** The greedy choice: a run that cannot be extended to a longer match is
    the one returned. *)
Lemma star_longest x s' r :
  mem_char c x = false -> k s' = Some r ->
  star (not_char c) k s' = Some ("", r) ->
  star (not_char c) k (x ++ s') = Some (x, r).
Proof.
  intros Hx Hk Hs. induction x as [|a x IH]; simpl; [exact Hs |].
  simpl in Hx. apply orb_false_iff in Hx as [Ha Hx].
  unfold not_char at 1. rewrite Ha. simpl. now rewrite (IH Hx).
Qed.

End Star.

(** Every match is a prefix of the text; it is not empty when the pattern
    opens with a literal character. *)
Lemma match_here_prefix p s caps rest :
  match_here p s = Some (caps, rest) -> exists t, s = t ++ rest.
Proof.
  revert s caps rest. induction p as [|[l|c|] p IH]; intros s caps rest; simpl.
  - intros H. injection H as _ <-. now exists "".
  - destruct (lit l s) as [s'|] eqn:E; [| discriminate].
    apply lit_spec in E as ->. intros H. destruct (IH _ _ _ H) as [t ->].
    exists (l ++ t). now rewrite app_assoc_s.
  - destruct (plus (not_char c) (match_here p) s) as [[x [caps' rest']]|] eqn:E;
      [| discriminate].
    intros H. injection H as _ <-. unfold plus in E.
    destruct s as [|a s]; [discriminate |].
    destruct (not_char c a); [| discriminate].
    destruct (star (not_char c) (match_here p) s) as [[x' r']|] eqn:E'; [| discriminate].
    injection E as <- ->. apply star_sound in E' as [s' [-> [_ Hk]]].
    destruct (IH _ _ _ Hk) as [t ->].
    exists (String a x' ++ t). simpl. now rewrite app_assoc_s.
  - destruct (star (not_char LFc) (match_here p) s) as [[x [caps' rest']]|] eqn:E;
      [| discriminate].
    intros H. injection H as <- <-.
    apply star_sound in E as [s' [-> [_ Hk]]].
    destruct (IH _ _ _ Hk) as [t ->].
    exists (x ++ t). now rewrite app_assoc_s.
Qed.

Lemma sub_matcher_consumes p t :
  opens_with_char p = true ->
  forall s r n, sub_matcher p t s = Some (r, n) ->
    exists u rest, s = u ++ rest /\ u <> "" /\ String.length u = n.
Proof.
  intros Hp s r n. unfold sub_matcher.
  destruct (match_here p s) as [[caps rest]|] eqn:E; [| discriminate].
  intros H. injection H as _ <-.
  destruct (match_here_prefix _ _ _ _ E) as [u ->].
  exists u, rest. split; [reflexivity |]. split.
  - intros ->. destruct p as [|[[|a l]|?|] p]; try discriminate.
    simpl in E. destruct rest as [|b rest]; [discriminate |].
    destruct (Ascii.eqb a b); [| discriminate].
    destruct (lit l rest) as [s'|] eqn:El; [| discriminate].
    apply lit_spec in El. destruct (match_here_prefix _ _ _ _ E) as [u Hu].
    assert (Hlen : String.length rest = String.length (String b rest) + String.length (l ++ u))
      by (rewrite El at 1; rewrite Hu at 1; now rewrite <- app_assoc_s, length_app_s, Nat.add_comm).
    simpl in Hlen. lia.
  - rewrite length_app_s. lia.
Qed.

Lemma sub_matcher_prefix_length p t s r n :
  sub_matcher p t s = Some (r, n) ->
  exists u rest, s = u ++ rest /\ String.length u = n.
Proof.
  unfold sub_matcher.
  destruct (match_here p s) as [[caps rest]|] eqn:E; [| discriminate].
  intros H. injection H as _ <-.
  destruct (match_here_prefix _ _ _ _ E) as [u ->].
  exists u, rest. split; [reflexivity |]. rewrite length_app_s. lia.
Qed.

Lemma sub_matcher_none p t s :
  sub_matcher p t s = None <-> match_here p s = None.
Proof.
  unfold sub_matcher. destruct (match_here p s) as [[? ?]|]; split; congruence.
Qed.

(** [re.search] finds a match exactly when some position is matched. *)
Lemma search_hits p t s :
  search p s = true <-> hits (sub_matcher p t) s.
Proof.
  induction s as [|c s IH].
  - simpl. split.
    + destruct (match_here p "") eqn:E; [| discriminate].
      intros _. exists "", "". split; [reflexivity |].
      now rewrite sub_matcher_none, E.
    + intros [a [b [H Hm]]]. symmetry in H. apply app_eq_nil_s in H as [_ ->].
      rewrite sub_matcher_none in Hm. now destruct (match_here p "").
  - rewrite hits_cons, sub_matcher_none, <- IH. simpl.
    destruct (match_here p (String c s)); split; try tauto; try congruence.
    intros _. left. discriminate.
Qed.

End ReFacts.

(** ** The four patterns *)

Section Patterns.

Import Re.

Lemma app_same_length a b c d :
  a ++ b = c ++ d -> String.length a = String.length c -> a = c /\ b = d.
Proof.
  revert c. induction a as [|x a IH]; intros [|y c]; simpl; try discriminate.
  - auto.
  - intros H Hl. injection H as -> H. injection Hl as Hl.
    destruct (IH _ H Hl) as [-> ->]. auto.
Qed.

Lemma app_inv_tail_s a b c : a ++ c = b ++ c -> a = b.
Proof.
  intros H. apply (app_same_length _ _ _ _ H).
  apply (f_equal String.length) in H. rewrite !length_app_s in H. lia.
Qed.

Lemma sub_matcher_view p t u rest r :
  sub_matcher p t (u ++ rest) = Some (r, String.length u) ->
  exists caps, match_here p (u ++ rest) = Some (caps, rest) /\ r = expand t caps.
Proof.
  unfold sub_matcher.
  destruct (match_here p (u ++ rest)) as [[caps rest']|] eqn:E; [| discriminate].
  intros H. injection H as <- Hlen.
  destruct (match_here_prefix _ _ _ _ E) as [u' Hu].
  assert (String.length u' = String.length u).
  { rewrite Hu, !length_app_s in Hlen. lia. }
  symmetry in Hu. destruct (app_same_length _ _ _ _ Hu H) as [-> ->].
  now exists caps.
Qed.

Lemma sub_matcher_intro p t u rest caps :
  match_here p (u ++ rest) = Some (caps, rest) ->
  sub_matcher p t (u ++ rest) = Some (expand t caps, String.length u).
Proof.
  intros E. unfold sub_matcher. rewrite E, length_app_s.
  do 2 f_equal. lia.
Qed.

(** *** Rules 1 and 2: [import { ... } from '@/modules/exchanges';] *)

Section Named.

(** The opening literal: ["import { "] or ["import type { "]. *)
Variable head : string.

Lemma named_sound s caps rest :
  match_here (named head) s = Some (caps, rest) ->
  exists X, caps = [X] /\ s = head ++ X ++ from_exchanges ++ rest /\
            X <> "" /\ mem_char "}" X = false.
Proof.
  unfold named. rewrite match_here_Lit.
  destruct (lit head s) as [s1|] eqn:E1; [| discriminate].
  rewrite match_here_Cap.
  apply lit_spec in E1 as ->.
  destruct (plus (not_char "}") _ s1) as [[X [caps' rest']]|] eqn:E2; [| discriminate].
  intros H. injection H as <- <-. unfold plus in E2.
  destruct s1 as [|a s1]; [discriminate |].
  destruct (not_char "}" a) eqn:Ea; [| discriminate].
  destruct (star (not_char "}") _ s1) as [[x r]|] eqn:E3; [| discriminate].
  injection E2 as <- ->. apply star_sound in E3 as [s' [-> [Hx Hk]]].
  apply match_here_lit in Hk as [-> ->].
  exists (String a x). repeat split.
  - discriminate.
  - simpl. unfold not_char in Ea. apply negb_true_iff in Ea. now rewrite Ea.
Qed.

Lemma named_complete X rest :
  X <> "" -> mem_char "}" X = false ->
  match_here (named head) (head ++ X ++ from_exchanges ++ rest) = Some ([X], rest).
Proof.
  intros Hne Hx. unfold named. rewrite match_here_Lit, lit_app, match_here_Cap.
  destruct X as [|a X]; [now elim Hne |].
  cbn [mem_char] in Hx. apply orb_false_iff in Hx as [Ha Hx].
  cbn [String.append plus]. unfold not_char at 1. rewrite Ha. cbn [negb].
  rewrite (star_longest "}" (match_here [Lit from_exchanges]) X
             (from_exchanges ++ rest) ([], rest) Hx).
  - reflexivity.
  - now apply match_here_lit.
  - reflexivity.
Qed.

Lemma named_expand X :
  expand (named_template head) [X] = commented (head ++ X ++ from_exchanges).
Proof.
  unfold named_template, commented. cbn [expand nth Nat.sub].
  now rewrite app_nil_r_s, !app_assoc_s.
Qed.

(** A match of the rule: the matched text and what replaces it. *)
Lemma named_matcher_view u rest r :
  named_matcher head (u ++ rest) = Some (r, String.length u) ->
  exists X, u = head ++ X ++ from_exchanges /\ X <> "" /\
            mem_char "}" X = false /\ r = commented u.
Proof.
  intros H. apply sub_matcher_view in H as [caps [E ->]].
  apply named_sound in E as [X [-> [Hs [Hne Hx]]]].
  assert (u = head ++ X ++ from_exchanges) as ->.
  { apply (app_inv_tail_s _ _ rest). now rewrite Hs, !app_assoc_s. }
  exists X. split; [reflexivity |]. split; [exact Hne |]. split; [exact Hx |].
  apply named_expand.
Qed.

Lemma named_matcher_intro X rest :
  X <> "" -> mem_char "}" X = false ->
  named_matcher head ((head ++ X ++ from_exchanges) ++ rest) =
    Some (commented (head ++ X ++ from_exchanges),
          String.length (head ++ X ++ from_exchanges)).
Proof.
  intros Hne Hx. unfold named_matcher. rewrite <- named_expand.
  apply sub_matcher_intro. rewrite !app_assoc_s. now apply named_complete.
Qed.

End Named.

(** *** Rules 3 and 4: one symbol from a relative path *)

Section Relative.

(** The literal up to the two dots, the literal after [.*], and the import
    the replacement writes. *)
Variables head tail import : string.

Lemma relative_sound s caps rest :
  match_here (relative head tail) s = Some (caps, rest) ->
  caps = [] /\
  exists y, s = head ++ y ++ tail ++ rest /\ mem_char LFc y = false.
Proof.
  unfold relative. rewrite match_here_Lit.
  destruct (lit head s) as [s1|] eqn:E1; [| discriminate].
  apply lit_spec in E1 as ->. rewrite match_here_Dot.
  destruct (star (not_char LFc) _ s1) as [[y [caps' rest']]|] eqn:E2; [| discriminate].
  intros H. injection H as <- <-.
  apply star_sound in E2 as [s' [-> [Hy Hk]]].
  apply match_here_lit in Hk as [-> ->]. split; [reflexivity |]. now exists y.
Qed.

Lemma relative_complete y rest :
  mem_char LFc y = false ->
  match_here (relative head tail) (head ++ y ++ tail ++ rest) <> None.
Proof.
  intros Hy. unfold relative. rewrite match_here_Lit, lit_app, match_here_Dot.
  pose proof (star_complete LFc (match_here [Lit tail]) y (tail ++ rest) Hy) as H.
  destruct (star (not_char LFc) (match_here [Lit tail]) (y ++ tail ++ rest))
    as [[? ?]|]; [discriminate |].
  elim H; [| reflexivity].
  assert (E : match_here [Lit tail] (tail ++ rest) = Some ([], rest))
    by now apply match_here_lit.
  congruence.
Qed.

Lemma relative_matcher_view u rest r :
  relative_matcher head tail import (u ++ rest) = Some (r, String.length u) ->
  exists y, u = head ++ y ++ tail /\ mem_char LFc y = false /\
            r = commented import.
Proof.
  intros H. apply sub_matcher_view in H as [caps [E ->]].
  apply relative_sound in E as [-> [y [Hs Hy]]].
  exists y. split; [| split; [exact Hy |]].
  - apply (app_inv_tail_s _ _ rest). now rewrite Hs, !app_assoc_s.
  - unfold relative_template, commented. cbn [expand]. now rewrite app_nil_r_s.
Qed.

Lemma relative_matcher_hits y rest :
  mem_char LFc y = false ->
  relative_matcher head tail import (head ++ y ++ tail ++ rest) <> None.
Proof.
  intros Hy. unfold relative_matcher. rewrite sub_matcher_none.
  now apply relative_complete.
Qed.

End Relative.

(** *** The rules of the script are instances *)

Lemma sub1_scan s : sub1 s = scan m1 0 s.
Proof. reflexivity. Qed.
Lemma sub2_scan s : sub2 s = scan m2 0 s.
Proof. reflexivity. Qed.
Lemma sub3_scan s : sub3 s = scan m3 0 s.
Proof. reflexivity. Qed.
Lemma sub4_scan s : sub4 s = scan m4 0 s.
Proof. reflexivity. Qed.

Lemma m1_consumes : consumes m1.
Proof. unfold consumes, m1. now apply sub_matcher_consumes. Qed.
Lemma m2_consumes : consumes m2.
Proof. unfold consumes, m2. now apply sub_matcher_consumes. Qed.
Lemma m3_consumes : consumes m3.
Proof. unfold consumes, m3. now apply sub_matcher_consumes. Qed.
Lemma m4_consumes : consumes m4.
Proof. unfold consumes, m4. now apply sub_matcher_consumes. Qed.

Lemma commented_count u :
  count_char LFc (commented u) = S (count_char LFc u).
Proof. unfold commented. rewrite !count_char_app. reflexivity. Qed.

Lemma named_adds_line head : adds_line (named_matcher head).
Proof.
  intros t rest r H. apply named_matcher_view in H as [X [_ [_ [_ ->]]]].
  apply commented_count.
Qed.

Lemma relative_adds_line head tail import :
  mem_char LFc head = false -> mem_char LFc tail = false ->
  mem_char LFc import = false ->
  adds_line (relative_matcher head tail import).
Proof.
  intros Hh Ht Hi t rest r H.
  apply relative_matcher_view in H as [y [-> [Hy ->]]].
  rewrite commented_count, !count_char_app, !mem_char_count; auto.
Qed.

Lemma m1_adds_line : adds_line m1.
Proof. apply named_adds_line. Qed.
Lemma m2_adds_line : adds_line m2.
Proof. apply named_adds_line. Qed.
Lemma m3_adds_line : adds_line m3.
Proof. now apply relative_adds_line. Qed.
Lemma m4_adds_line : adds_line m4.
Proof. now apply relative_adds_line. Qed.

End Patterns.

(** ** [fix_content] changes a text exactly when a rule matches *)

Section Changed.

Let lf (s : string) : nat := count_char LFc s.

Lemma search1_hits s : Re.search pattern1 s = true <-> hits m1 s.
Proof. apply search_hits. Qed.
Lemma search2_hits s : Re.search pattern2 s = true <-> hits m2 s.
Proof. apply search_hits. Qed.
Lemma search3_hits s : Re.search pattern3 s = true <-> hits m3 s.
Proof. apply search_hits. Qed.
Lemma search4_hits s : Re.search pattern4 s = true <-> hits m4 s.
Proof. apply search_hits. Qed.

Lemma not_true_hits (b : bool) (P : Prop) : (b = true <-> P) -> b = false -> ~ P.
Proof. intros [_ H] -> HP. now apply H in HP. Qed.

Lemma sub1_id s : Re.search pattern1 s = false -> sub1 s = s.
Proof.
  intros H. apply (scan_no_hits m1 m1_consumes).
  exact (not_true_hits _ _ (search1_hits s) H).
Qed.
Lemma sub2_id s : Re.search pattern2 s = false -> sub2 s = s.
Proof.
  intros H. apply (scan_no_hits m2 m2_consumes).
  exact (not_true_hits _ _ (search2_hits s) H).
Qed.
Lemma sub3_id s : Re.search pattern3 s = false -> sub3 s = s.
Proof.
  intros H. apply (scan_no_hits m3 m3_consumes).
  exact (not_true_hits _ _ (search3_hits s) H).
Qed.
Lemma sub4_id s : Re.search pattern4 s = false -> sub4 s = s.
Proof.
  intros H. apply (scan_no_hits m4 m4_consumes).
  exact (not_true_hits _ _ (search4_hits s) H).
Qed.

Lemma fix_content_unchanged s : matches_any s = false -> fix_content s = s.
Proof.
  unfold matches_any, fix_content. rewrite !orb_false_iff.
  intros [[[H1 H2] H3] H4].
  now rewrite (sub1_id _ H1), (sub2_id _ H2), (sub3_id _ H3), (sub4_id _ H4).
Qed.

Lemma sub1_ge s : lf s <= lf (sub1 s).
Proof. apply (scan_count_ge m1 m1_consumes m1_adds_line). Qed.
Lemma sub2_ge s : lf s <= lf (sub2 s).
Proof. apply (scan_count_ge m2 m2_consumes m2_adds_line). Qed.
Lemma sub3_ge s : lf s <= lf (sub3 s).
Proof. apply (scan_count_ge m3 m3_consumes m3_adds_line). Qed.
Lemma sub4_ge s : lf s <= lf (sub4 s).
Proof. apply (scan_count_ge m4 m4_consumes m4_adds_line). Qed.

Lemma sub1_gt s : Re.search pattern1 s = true -> lf s < lf (sub1 s).
Proof.
  intros H. apply (scan_count_gt m1 m1_consumes m1_adds_line).
  now apply search1_hits.
Qed.
Lemma sub2_gt s : Re.search pattern2 s = true -> lf s < lf (sub2 s).
Proof.
  intros H. apply (scan_count_gt m2 m2_consumes m2_adds_line).
  now apply search2_hits.
Qed.
Lemma sub3_gt s : Re.search pattern3 s = true -> lf s < lf (sub3 s).
Proof.
  intros H. apply (scan_count_gt m3 m3_consumes m3_adds_line).
  now apply search3_hits.
Qed.
Lemma sub4_gt s : Re.search pattern4 s = true -> lf s < lf (sub4 s).
Proof.
  intros H. apply (scan_count_gt m4 m4_consumes m4_adds_line).
  now apply search4_hits.
Qed.

(** Every replacement adds a line, so a text in which a rule matches comes
    out with more lines than it had. *)
Lemma fix_content_more_lines s :
  matches_any s = true -> lf s < lf (fix_content s).
Proof.
  unfold matches_any, fix_content. intros H.
  pose proof (sub1_ge s). pose proof (sub2_ge (sub1 s)).
  pose proof (sub3_ge (sub2 (sub1 s))). pose proof (sub4_ge (sub3 (sub2 (sub1 s)))).
  destruct (Re.search pattern1 s) eqn:E1.
  { pose proof (sub1_gt _ E1). lia. }
  rewrite (sub1_id _ E1) in *.
  destruct (Re.search pattern2 s) eqn:E2.
  { pose proof (sub2_gt _ E2). lia. }
  rewrite (sub2_id _ E2) in *.
  destruct (Re.search pattern3 s) eqn:E3.
  { pose proof (sub3_gt _ E3). lia. }
  rewrite (sub3_id _ E3) in *.
  simpl in H. pose proof (sub4_gt _ H). lia.
Qed.

Lemma fix_content_changed s : matches_any s = true -> fix_content s <> s.
Proof.
  intros H E. apply fix_content_more_lines in H. rewrite E in H. lia.
Qed.

End Changed.

(** ** [fix_file] on the file system *)

Section FixFile.

Variable filepath : string.
Variable w : world.

Lemma bak_neq : filepath ++ ".bak" <> filepath.
Proof.
  intros E. apply (f_equal String.length) in E.
  rewrite length_app_s in E. simpl in E. lia.
Qed.

Lemma fix_file_missing :
  files w !! filepath = None ->
  fix_file filepath w = Some (false, after_missing filepath w).
Proof.
  intros H. unfold fix_file, bind, print, path_exists, ret, after_missing.
  cbn [files stdout writes]. rewrite H.
  rewrite bool_decide_eq_false_2 by (intros [? ?]; discriminate).
  cbn [negb files stdout writes]. now rewrite <- app_assoc.
Qed.

Lemma fix_file_present data :
  files w !! filepath = Some data ->
  fix_file filepath w =
    if String.eqb (fix_content (universal_newlines data)) (universal_newlines data)
    then Some (false, after_unchanged filepath w)
    else Some (true, after_fixed filepath w (universal_newlines data)).
Proof.
  intros H.
  unfold fix_file, bind, print, path_exists, read_text, write_text, ret,
    after_unchanged, after_fixed.
  cbn [files stdout writes]. rewrite H.
  rewrite bool_decide_eq_true_2 by eauto.
  cbn [negb files stdout writes]. rewrite H.
  destruct (String.eqb (fix_content (universal_newlines data))
                       (universal_newlines data));
    cbn [negb files stdout writes]; now rewrite <- !app_assoc.
Qed.

End FixFile.

(** ** Lines *)





(** ** Overlaps of texts

    Whether a replacement can destroy or create an occurrence of a text is
    decided by how the two texts can overlap, which is a computation on
    the texts alone. *)

Section Overlaps.

Lemma clash_sound a b u v : clash a b = true -> a ++ u <> b ++ v.
Proof.
  revert b. induction a as [|x a IH]; intros [|y b]; simpl; try discriminate.
  destruct (Ascii.eqb_spec x y) as [->|Hne]; intros H E; injection E.
  - now apply IH.
  - intros _ Hxy. contradiction.
Qed.

Lemma clash_starts l w post :
  clash l w = true -> starts_with l (w ++ post) = false.
Proof.
  intros H. destruct (starts_with l (w ++ post)) eqn:E; [| reflexivity].
  apply starts_with_spec in E as [r E]. symmetry in E.
  now apply clash_sound in E.
Qed.

Lemma no_start_sound l w :
  no_start l w = true ->
  forall w1 w2 post, w = w1 ++ w2 -> w2 <> "" ->
    starts_with l (w2 ++ post) = false.
Proof.
  induction w as [|x w IH]; intros H w1 w2 post E Hne.
  - symmetry in E. apply app_eq_nil_s in E as [_ ->]. now elim Hne.
  - cbn [no_start] in H. apply andb_true_iff in H as [Hc Hn].
    destruct w1 as [|y w1]; simpl in E.
    + subst w2. now apply clash_starts.
    + injection E as _ E. now apply (IH Hn w1).
Qed.

Lemma no_start_app l u v :
  no_start l u = true -> no_start l v = true -> no_start l (u ++ v) = true.
Proof.
  intros Hu Hv. induction u as [|x u IH]; [exact Hv |].
  cbn [no_start] in Hu. apply andb_true_iff in Hu as [Hc Hu].
  cbn [String.append no_start]. rewrite (IH Hu), andb_true_r.
  clear -Hc. change (String x (u ++ v)) with (String x u ++ v).
  revert Hc. generalize (String x u). clear.
  induction l as [|a l IH]; intros [|b s]; simpl; try discriminate.
  destruct (Ascii.eqb a b); [apply IH | reflexivity].
Qed.

Lemma no_start_tail l x w : no_start l (String x w) = true -> no_start l w = true.
Proof. cbn [no_start]. intros H. now apply andb_true_iff in H. Qed.

Lemma opens_with_none m l s :
  opens_with m l -> starts_with l s = false -> m s = None.
Proof.
  intros Ho Hs. destruct (m s) eqn:E; [| reflexivity].
  rewrite Ho in Hs; [discriminate | congruence].
Qed.

Lemma sub_matcher_opens l p t : opens_with (Re.sub_matcher (Re.Lit l :: p) t) l.
Proof.
  intros s H. rewrite sub_matcher_none, match_here_Lit in H.
  destruct (Re.lit l s) as [s'|] eqn:E; [| congruence].
  apply lit_spec in E as ->. apply starts_with_app.
Qed.

Lemma lit_matcher_opens old new : opens_with (lit_matcher old new) old.
Proof.
  intros s H. unfold lit_matcher in H. now destruct (starts_with old s).
Qed.

End Overlaps.

(** ** What a scan keeps *)

Section Keeps.

Variable m : matcher.
Hypothesis m_consumes : consumes m.

Let sc := scan m 0.

(** A text inside which no match starts is copied. *)
Lemma scan_through w post :
  (forall w1 w2, w = w1 ++ w2 -> w2 <> "" -> m (w2 ++ post) = None) ->
  sc (w ++ post) = w ++ sc post.
Proof.
  induction w as [|c w IH]; intros H; [reflexivity |].
  unfold sc. cbn [String.append]. rewrite scan_miss.
  - fold sc. rewrite IH; [reflexivity |].
    intros w1 w2 E Hne. apply (H (String c w1)); [now rewrite E | exact Hne].
  - apply (H "" (String c w)); [reflexivity | discriminate].
Qed.

(** An occurrence that no match reaches into, and inside which no match
    starts, is still there after the scan. *)
Lemma scan_keeps pre w post :
  (forall p1 p2 r n, pre = p1 ++ p2 -> p2 <> "" ->
     m (p2 ++ w ++ post) = Some (r, n) -> n <= String.length p2) ->
  (forall w1 w2, w = w1 ++ w2 -> w2 <> "" -> m (w2 ++ post) = None) ->
  exists a, sc (pre ++ w ++ post) = a ++ w ++ sc post.
Proof.
  intros HA HB. remember (String.length pre) as k eqn:Hk.
  revert pre Hk HA. induction k as [k IH] using lt_wf_ind. intros pre Hk HA.
  destruct pre as [|c pre].
  - exists "". cbn [String.append]. now apply scan_through.
  - destruct (m (String c pre ++ w ++ post)) as [[r n]|] eqn:E.
    + pose proof (HA "" (String c pre) r n eq_refl ltac:(discriminate) E) as Hn.
      destruct (m_consumes _ _ _ E) as [t [rest [Hs [Hne Hlen]]]]. subst n.
      rewrite Hs in E. unfold sc. rewrite Hs, (scan_hit m m_consumes _ _ _ E).
      fold sc.
      destruct (app_split _ _ _ _ Hs) as [[e [Ht He]]|[e [Hne' [Ht He]]]].
      * assert (e = "") as ->.
        { apply length_zero_s. rewrite Ht, length_app_s in Hn. lia. }
        cbn [String.append] in He. rewrite <- He.
        exists r. now rewrite scan_through.
      * subst rest.
        destruct (IH (String.length e)) with (pre := e) as [a Ha].
        -- subst k. rewrite Ht, length_app_s. destruct t; [now elim Hne | simpl; lia].
        -- reflexivity.
        -- intros p1 p2 r' n' Hp. apply (HA (t ++ p1)).
           now rewrite Ht, Hp, app_assoc_s.
        -- exists (r ++ a). now rewrite Ha, app_assoc_s.
    + unfold sc. cbn [String.append]. rewrite scan_miss by exact E. fold sc.
      destruct (IH (String.length pre)) with (pre := pre) as [a Ha].
      * subst k. simpl. lia.
      * reflexivity.
      * intros p1 p2 r' n' Hp. apply (HA (String c p1)). now rewrite Hp.
      * exists (String c a). now rewrite Ha.
Qed.

(** Under such a matcher an occurrence survives unless a match starts
    strictly inside it. *)
Lemma scan_keeps_inserting pre w post :
  inserting m ->
  (forall w1 w2, w = w1 ++ w2 -> w1 <> "" -> w2 <> "" -> m (w2 ++ post) = None) ->
  exists a b, sc (pre ++ w ++ post) = a ++ w ++ b.
Proof.
  intros Hins HB. remember (String.length pre) as k eqn:Hk.
  revert pre Hk. induction k as [k IH] using lt_wf_ind. intros pre Hk.
  assert (Htail : forall e e', w = e ++ e' -> e <> "" ->
            sc (e' ++ post) = e' ++ sc post).
  { intros e e' Hw He. apply scan_through. intros w1 w2 E Hne.
    apply (HB (e ++ w1)); [now rewrite Hw, E, app_assoc_s | | exact Hne].
    destruct e; [now elim He | discriminate]. }
  destruct (m (pre ++ w ++ post)) as [[r n]|] eqn:E.
  - destruct (m_consumes _ _ _ E) as [t [rest [Hs [Hne Hlen]]]]. subst n.
    rewrite Hs in E. unfold sc. rewrite Hs, (scan_hit m m_consumes _ _ _ E).
    fold sc. destruct (Hins _ _ _ E) as [ins ->].
    destruct (app_split _ _ _ _ Hs) as [[e [Ht He]]|[e [Hne' [Ht He]]]].
    + (* the match covers [pre] and [e] of what follows *)
      destruct (app_split _ _ _ _ He) as [[e1 [He1 Hp]]|[e1 [Hne1 [Hw Hr]]]].
      * (* all of the occurrence *)
        exists (ins ++ pre), (e1 ++ sc rest).
        now rewrite Ht, He1, !app_assoc_s.
      * (* a part of it, possibly empty *)
        subst rest. destruct e as [|x e].
        -- cbn [String.append] in Hw. subst e1. rewrite app_nil_r_s in Ht. subst t.
           destruct (IH 0) with (pre := "") as [a [b Hab]].
           ++ subst k. destruct pre; [now elim Hne | simpl; lia].
           ++ reflexivity.
           ++ cbn [String.append] in Hab. exists (ins ++ pre ++ a), b.
              now rewrite Hab, !app_assoc_s.
        -- rewrite (Htail (String x e) e1 Hw) by discriminate.
           exists (ins ++ pre), (sc post). now rewrite Ht, Hw, !app_assoc_s.
    + subst rest.
      destruct (IH (String.length e)) with (pre := e) as [a [b Hab]].
      * subst k. rewrite Ht, length_app_s. destruct t; [now elim Hne | simpl; lia].
      * reflexivity.
      * exists (ins ++ t ++ a), b. now rewrite Hab, !app_assoc_s.
  - destruct pre as [|c pre].
    + destruct w as [|c w].
      * exists "", (sc post). reflexivity.
      * cbn [String.append] in E |- *. unfold sc. rewrite scan_miss by exact E.
        fold sc. rewrite (Htail (String c "") w) by (reflexivity || discriminate).
        exists "", (sc post). reflexivity.
    + cbn [String.append] in E |- *. unfold sc. rewrite scan_miss by exact E.
      fold sc. destruct (IH (String.length pre)) with (pre := pre) as [a [b Hab]].
      * subst k. simpl. lia.
      * reflexivity.
      * exists (String c a), b. now rewrite Hab.
Qed.

(** A matcher whose replacement is always [R]: where something matches,
    the scan writes [R]. *)
Lemma scan_writes R s :
  (forall s' r n, m s' = Some (r, n) -> r = R) ->
  hits m s -> exists a b, sc s = a ++ R ++ b.
Proof.
  intros HR. unfold sc.
  apply (scan_ind m m_consumes)
    with (P := fun s o => hits m s -> exists a b, o = a ++ R ++ b).
  - intros [a [b [H Hm]]]. symmetry in H. apply app_eq_nil_s in H as [_ ->].
    now rewrite (m_nil m m_consumes) in Hm.
  - intros c s' Hc IH H. apply hits_cons in H as [H|H]; [congruence |].
    destruct (IH H) as [a [b ->]]. now exists (String c a), b.
  - intros t rest r _ Hm _ _. rewrite (HR _ _ _ Hm). now exists "", (scan m 0 rest).
Qed.

End Keeps.

(** ** The rules against commented text *)

Section RulesKeep.

Lemma prefix_before_LF e rest u z :
  e ++ rest = u ++ LF ++ z -> mem_char LFc e = false -> exists e', u = e ++ e'.
Proof.
  intros H He. destruct (app_split _ _ _ _ H) as [[e' [Hu _]]|[e' [Hne [Hu Hz]]]].
  - now exists e'.
  - exfalso. destruct e' as [|x e']; [now elim Hne |].
    injection Hz as <- _. rewrite Hu, mem_char_app in He.
    apply orb_false_iff in He as [_ He]. discriminate.
Qed.

Lemma mem_char_suffix c p e x :
  p ++ e = x ++ String c "" -> e <> "" -> mem_char c e = true.
Proof.
  revert p. induction x as [|y x IH]; intros p H Hne.
  - destruct p as [|a p]; simpl in H.
    + subst e. simpl. now rewrite Ascii.eqb_refl.
    + injection H as _ H. apply app_eq_nil_s in H as [_ ->]. now elim Hne.
  - destruct p as [|a p]; simpl in H.
    + subst e. cbn [mem_char]. apply orb_true_iff. right.
      rewrite mem_char_app. apply orb_true_iff. right.
      cbn [mem_char]. now rewrite Ascii.eqb_refl.
    + injection H as _ H. now apply (IH p).
Qed.

(** A match of rule 3 or 4 lies on one line and ends with a semicolon, so
    it does not reach into a text whose first line has none. *)
Lemma relative_stops_before head tail' import u z p2 post r n :
  mem_char ";" u = false ->
  relative_matcher head (tail' ++ ";") import (p2 ++ (u ++ LF ++ z) ++ post)
    = Some (r, n) ->
  mem_char LFc head = false -> mem_char LFc tail' = false ->
  n <= String.length p2.
Proof.
  intros Hu E Hh Ht.
  destruct (sub_matcher_prefix_length _ _ _ _ _ E) as [t [rest [Hs Hlen]]].
  subst n. rewrite Hs in E. apply relative_matcher_view in E as [y [Hy [Hlf _]]].
  destruct (le_lt_dec (String.length t) (String.length p2)) as [Hle|Hgt]; [exact Hle |].
  exfalso.
  destruct (app_split _ _ _ _ Hs) as [[e [Hte He]]|[e [Hne [Hp _]]]].
  - assert (e <> "") as Hne.
    { intros ->. rewrite Hte, app_nil_r_s in Hgt. lia. }
    assert (mem_char LFc t = false) as Htl.
    { rewrite Hy, !mem_char_app, Hh, Hlf, Ht. reflexivity. }
    rewrite Hte, mem_char_app in Htl. apply orb_false_iff in Htl as [_ Hel].
    rewrite app_assoc_s in He. symmetry in He.
    destruct (prefix_before_LF _ _ _ _ He Hel) as [e' Hu'].
    assert (mem_char ";" e = true) as Hsemi.
    { apply (mem_char_suffix ";" p2 e (head ++ y ++ tail')); [| exact Hne].
      now rewrite <- Hte, Hy, !app_assoc_s. }
    rewrite Hu', mem_char_app, Hsemi in Hu. discriminate.
  - rewrite Hp, length_app_s in Hgt. lia.
Qed.

(** Hence rules 3 and 4 leave alone a text that opens with a line without
    semicolon and inside which their opening literal does not start. *)
Lemma relative_keeps head tail' import u z pre post :
  head <> "" ->
  mem_char LFc head = false -> mem_char LFc tail' = false ->
  mem_char ";" u = false ->
  no_start head (u ++ LF ++ z) = true ->
  exists a,
    scan (relative_matcher head (tail' ++ ";") import) 0
         (pre ++ (u ++ LF ++ z) ++ post) =
    a ++ (u ++ LF ++ z) ++
      scan (relative_matcher head (tail' ++ ";") import) 0 post.
Proof.
  intros Hne Hh Ht Hu Hns. apply scan_keeps.
  - unfold consumes, relative_matcher. apply sub_matcher_consumes.
    destruct head; [now elim Hne | reflexivity].
  - intros p1 p2 r n _ _ E. now apply (relative_stops_before _ _ _ _ _ _ _ _ _ Hu E).
  - intros w1 w2 Hw Hw2.
    apply (opens_with_none _ head); [apply sub_matcher_opens |].
    now apply (no_start_sound _ _ Hns w1).
Qed.

Lemma sub3_keeps_commented x pre post :
  no_start "import { ExchangeService } from '.." (commented x) = true ->
  exists a, sub3 (pre ++ commented x ++ post) = a ++ commented x ++ sub3 post.
Proof.
  intros H.
  apply (relative_keeps "import { ExchangeService } from '.."
           "exchanges/services/exchange.service'" service_import
           not_implemented ("// " ++ x) pre post); auto; discriminate.
Qed.

Lemma sub4_keeps_commented x pre post :
  no_start "import { exchangeConnections } from '.." (commented x) = true ->
  exists a, sub4 (pre ++ commented x ++ post) = a ++ commented x ++ sub4 post.
Proof.
  intros H.
  apply (relative_keeps "import { exchangeConnections } from '.."
           "exchanges/schema/exchanges.schema'" schema_import
           not_implemented ("// " ++ x) pre post); auto; discriminate.
Qed.

(** Rules 1 and 2 write the matched text back, so they keep every text
    strictly inside which their opening literal does not start. *)
Lemma named_inserting head : inserting (named_matcher head).
Proof.
  intros t rest r H. apply named_matcher_view in H as [X [_ [_ [_ ->]]]].
  now exists (not_implemented ++ LF ++ "// ").
Qed.

Lemma named_keeps head x w pre post :
  head <> "" -> no_start head w = true ->
  exists a b,
    scan (named_matcher head) 0 (pre ++ String x w ++ post) = a ++ String x w ++ b.
Proof.
  intros Hne Hns. apply scan_keeps_inserting.
  - unfold consumes, named_matcher. apply sub_matcher_consumes.
    destruct head; [now elim Hne | reflexivity].
  - apply named_inserting.
  - intros w1 w2 Hw Hw1 Hw2.
    apply (opens_with_none _ head); [apply sub_matcher_opens |].
    destruct w1 as [|y w1]; [now elim Hw1 |]. injection Hw as _ Hw.
    now apply (no_start_sound _ _ Hns w1).
Qed.

End RulesKeep.

(** ** Rule 3 on imports from any depth *)

Section ServiceRule.

Lemma up_dirs_no_start l n :
  no_start l "../" = true -> no_start l (up_dirs n) = true.
Proof.
  intros H. induction n as [|n IH]; [reflexivity |].
  unfold up_dirs. cbn [repeat_str]. now apply no_start_app.
Qed.

Lemma up_dirs_no_LF n : mem_char LFc (up_dirs n) = false.
Proof.
  induction n as [|n IH]; [reflexivity |].
  unfold up_dirs. cbn [repeat_str]. rewrite mem_char_app.
  fold (up_dirs n). now rewrite IH.
Qed.

(** Rules 1 and 2 do not touch the import. *)
Lemma named_keeps_service head n pre post :
  head <> "" ->
  no_start head "mport { ExchangeService } from '" = true ->
  no_start head "../" = true ->
  no_start head "exchanges/services/exchange.service';" = true ->
  exists a b,
    scan (named_matcher head) 0 (pre ++ service_import_from (up_dirs n) ++ post) =
      a ++ service_import_from (up_dirs n) ++ b.
Proof.
  intros Hne H1 H2 H3.
  apply (named_keeps head "i"
    ("mport { ExchangeService } from '" ++ up_dirs n ++
     "exchanges/services/exchange.service';") pre post Hne).
  apply no_start_app; [exact H1 |].
  apply no_start_app; [now apply up_dirs_no_start | exact H3].
Qed.

(** Rule 3 matches it whatever the depth. *)
Lemma m3_matches_service n post :
  1 <= n -> m3 (service_import_from (up_dirs n) ++ post) <> None.
Proof.
  intros Hn. destruct n as [|n]; [lia |].
  replace (service_import_from (up_dirs (S n)) ++ post)
    with ("import { ExchangeService } from '.." ++ ("/" ++ up_dirs n) ++
          "exchanges/services/exchange.service';" ++ post).
  - apply relative_matcher_hits. rewrite mem_char_app, up_dirs_no_LF. reflexivity.
  - unfold service_import_from, up_dirs. cbn [repeat_str].
    now rewrite !app_assoc_s.
Qed.

Lemma m3_replacement s r n : m3 s = Some (r, n) -> r = commented service_import.
Proof.
  intros H. destruct (sub_matcher_prefix_length _ _ _ _ _ H) as [t [rest [-> <-]]].
  now apply relative_matcher_view in H as [y [_ [_ ->]]].
Qed.

Lemma fix_content_service n pre post :
  1 <= n ->
  exists a b,
    fix_content (pre ++ service_import_from (up_dirs n) ++ post) =
      a ++ commented service_import ++ b.
Proof.
  intros Hn. unfold fix_content.
  destruct (named_keeps_service "import { " n pre post) as [a1 [b1 E1]];
    [discriminate | reflexivity | reflexivity | reflexivity |].
  rewrite sub1_scan. fold m1 in E1. rewrite E1. clear E1.
  destruct (named_keeps_service "import type { " n a1 b1) as [a2 [b2 E2]];
    [discriminate | reflexivity | reflexivity | reflexivity |].
  rewrite sub2_scan. fold m2 in E2. rewrite E2. clear E2.
  destruct (scan_writes m3 m3_consumes (commented service_import)
              (a2 ++ service_import_from (up_dirs n) ++ b2) m3_replacement)
    as [a3 [b3 E3]].
  { exists a2, (service_import_from (up_dirs n) ++ b2). split; [reflexivity |].
    now apply m3_matches_service. }
  rewrite sub3_scan, E3. clear E3.
  destruct (sub4_keeps_commented service_import a3 b3) as [a4 E4]; [reflexivity |].
  rewrite E4. now exists a4, (sub4 b3).
Qed.

End ServiceRule.

(** ** Rules 1 and 2 on a statement in context *)

Section NamedInContext.

Variable x : ascii.
Variable head' : string.
Let head : string := String x head'.

Hypothesis head_no_brace : mem_char "}" head = false.
Hypothesis head_no_border : no_start head head' = true.
Hypothesis head_not_in_from : no_start head " from '@/modules/exchanges';" = true.

Lemma opened_false pre u v :
  opened head pre = false -> pre = u ++ head ++ v -> mem_char "}" v = true.
Proof.
  revert pre. induction u as [|c u IH]; intros pre H E.
  - cbn [String.append] in E. subst pre.
    assert (starts_with head (head ++ v) && negb (mem_char "}" (head ++ v)) = false)
      as H' by (destruct (head ++ v); cbn [opened] in H;
                now apply orb_false_iff in H as [H _]).
    rewrite starts_with_app, mem_char_app, head_no_brace in H'.
    now apply negb_false_iff in H'.
  - subst pre. cbn [String.append opened] in H.
    apply orb_false_iff in H as [_ H]. now apply (IH _ H).
Qed.

(** A match that starts before the statement ends before it. *)
Lemma named_stops_before pre X post p1 p2 r n :
  opened head pre = false -> pre = p1 ++ p2 -> p2 <> "" ->
  named_matcher head (p2 ++ (head ++ X ++ from_exchanges) ++ post) = Some (r, n) ->
  n <= String.length p2.
Proof.
  intros Hop Hpre Hp2 E.
  destruct (sub_matcher_prefix_length _ _ _ _ _ E) as [t [rest [Hs Hlen]]].
  subst n. rewrite Hs in E.
  apply named_matcher_view in E as [X' [Ht [_ [HX' _]]]].
  destruct (le_lt_dec (String.length t) (String.length p2)) as [Hle|Hgt]; [exact Hle |].
  exfalso.
  destruct (app_split _ _ _ _ Hs) as [[e [Hte He]]|[e [_ [Hp _]]]];
    [| rewrite Hp, length_app_s in Hgt; lia].
  assert (e <> "") as Hne.
  { intros ->. rewrite Hte, app_nil_r_s in Hgt. lia. }
  assert (Hstart : starts_with head (e ++ rest) = true).
  { rewrite <- He, !app_assoc_s. apply starts_with_app. }
  rewrite Ht in Hte.
  destruct (app_split _ _ _ _ Hte) as [[e0 [Hp He0]]|[e0 [Hne0 [Hh He0]]]].
  - (* [p2] holds the opening literal *)
    assert (mem_char "}" e0 = true) as Hb.
    { apply (opened_false pre p1 e0 Hop). now rewrite Hpre, Hp. }
    destruct (app_split _ _ _ _ He0) as [[e1 [He1 Hf]]|[e1 [_ [HX _]]]].
    + rewrite He1, mem_char_app, HX' in Hb. cbn [orb] in Hb.
      unfold from_exchanges in Hf.
      destruct e1 as [|c1 [|c2 e1]]; try discriminate.
      * cbn [String.append] in Hf. injection Hf as <- _. discriminate.
      * cbn [String.append] in Hf. injection Hf as _ _ Hf.
        now rewrite (no_start_sound _ _ head_not_in_from e1 e) in Hstart.
    + rewrite HX, mem_char_app in HX'. apply orb_false_iff in HX' as [HX' _].
      congruence.
  - (* the opening literal straddles the end of [p2] *)
    destruct p2 as [|c p2]; [now elim Hp2 |].
    unfold head in Hh. injection Hh as _ Hh.
    rewrite He0, app_assoc_s in Hstart.
    now rewrite (no_start_sound _ _ head_no_border p2 e0) in Hstart.
Qed.

(** The statement is replaced by its commented form when it is not inside
    the braces of an import before it. *)
Lemma named_scan_statement pre X post :
  opened head pre = false -> X <> "" -> mem_char "}" X = false ->
  exists a,
    scan (named_matcher head) 0 (pre ++ (head ++ X ++ from_exchanges) ++ post) =
      a ++ commented (head ++ X ++ from_exchanges) ++
        scan (named_matcher head) 0 post.
Proof.
  intros Hop Hne HX.
  assert (Hc : consumes (named_matcher head)).
  { unfold consumes, named_matcher. now apply sub_matcher_consumes. }
  destruct (scan_keeps (named_matcher head) Hc pre ""
              ((head ++ X ++ from_exchanges) ++ post)) as [a Ha].
  - intros p1 p2 r n Hpre Hp2 E. cbn [String.append] in E.
    exact (named_stops_before pre X post p1 p2 r n Hop Hpre Hp2 E).
  - intros w1 w2 Hw Hw2. symmetry in Hw. apply app_eq_nil_s in Hw as [_ ->].
    now elim Hw2.
  - cbn [String.append] in Ha. exists a. rewrite Ha. f_equal.
    apply (scan_hit _ Hc). now apply named_matcher_intro.
Qed.

End NamedInContext.

Lemma sub1_statement_in_context pre X post :
  opened "import { " pre = false -> X <> "" -> mem_char "}" X = false ->
  exists a,
    sub1 (pre ++ ("import { " ++ X ++ from_exchanges) ++ post) =
      a ++ commented ("import { " ++ X ++ from_exchanges) ++ sub1 post.
Proof. now apply (named_scan_statement "i" "mport { "). Qed.

Lemma sub2_statement_in_context pre X post :
  opened "import type { " pre = false -> X <> "" -> mem_char "}" X = false ->
  exists a,
    sub2 (pre ++ ("import type { " ++ X ++ from_exchanges) ++ post) =
      a ++ commented ("import type { " ++ X ++ from_exchanges) ++ sub2 post.
Proof. now apply (named_scan_statement "i" "mport type { "). Qed.

Lemma fix_content_foo_bar pre post :
  opened "import { " pre = false ->
  exists a b,
    fix_content (pre ++ foo_bar_import ++ post) =
      a ++ commented foo_bar_import ++ b.
Proof.
  intros Hop. unfold fix_content.
  destruct (sub1_statement_in_context pre "Foo, Bar" post Hop) as [a1 E1];
    [discriminate | reflexivity |].
  change ("import { " ++ "Foo, Bar" ++ from_exchanges) with foo_bar_import in E1.
  rewrite E1. clear E1.
  destruct (named_keeps "import type { " "/"
              ("/ Module not yet implemented" ++ LF ++ "// " ++ foo_bar_import)
              a1 (sub1 post)) as [a2 [b2 E2]]; [discriminate | reflexivity |].
  change (String "/" ("/ Module not yet implemented" ++ LF ++ "// " ++ foo_bar_import))
    with (commented foo_bar_import) in E2.
  rewrite sub2_scan. fold m2 in E2. rewrite E2. clear E2.
  destruct (sub3_keeps_commented foo_bar_import a2 b2) as [a3 E3]; [reflexivity |].
  rewrite E3. clear E3.
  destruct (sub4_keeps_commented foo_bar_import a3 (sub3 b2)) as [a4 E4];
    [reflexivity |].
  rewrite E4. now exists a4, (sub4 (sub3 b2)).
Qed.

(** ** [str.replace] *)

Section Replace.

Variable x : ascii.
Variable old' : string.
Variable new : string.
Let old : string := String x old'.
Let m : matcher := lit_matcher old new.

Lemma lit_matcher_consumes : consumes m.
Proof.
  intros s r n H. unfold m, lit_matcher in H.
  destruct (starts_with old s) eqn:E; [| discriminate].
  injection H as _ <-. apply starts_with_spec in E as [rest ->].
  exists old, rest. repeat split. discriminate.
Qed.

Lemma lit_matcher_some s :
  starts_with old s = true -> m s = Some (new, String.length old).
Proof. intros H. unfold m, lit_matcher. now rewrite H. Qed.

Lemma lit_matcher_new s r n : m s = Some (r, n) -> r = new.
Proof.
  unfold m, lit_matcher. destruct (starts_with old s); [| discriminate].
  now intros [= <- _].
Qed.

Lemma lit_matcher_hits s : hits m s <-> contains old s = true.
Proof.
  rewrite contains_spec. split.
  - intros [a [b [-> Hm]]]. pose proof (lit_matcher_opens old new b Hm) as H.
    apply starts_with_spec in H as [r ->]. now exists a, r.
  - intros [a [b ->]]. exists a, (old ++ b). split; [reflexivity |].
    now rewrite lit_matcher_some by apply starts_with_app.
Qed.

(** Nothing to replace: the text is returned as it is. *)
Lemma replace_none s : contains old s = false -> str_replace old new s = s.
Proof.
  intros H. apply (scan_no_hits m lit_matcher_consumes).
  rewrite lit_matcher_hits. congruence.
Qed.

(** Something to replace: the new text is in the result. *)
Lemma replace_writes s :
  contains old s = true -> contains new (str_replace old new s) = true.
Proof.
  intros H. apply contains_spec.
  apply (scan_writes m lit_matcher_consumes new s lit_matcher_new).
  now apply lit_matcher_hits.
Qed.

(** A text that cannot overlap [old] is kept. *)
Lemma replace_keeps w s :
  no_start w old' = true -> no_start old w = true ->
  contains w s = true -> contains w (str_replace old new s) = true.
Proof.
  intros H1 H2 H. apply contains_spec in H as [pre [post ->]].
  apply contains_spec.
  destruct (scan_keeps m lit_matcher_consumes pre w post) as [a Ha].
  - intros p1 p2 r n _ Hp2 E.
    assert (Hs : starts_with old (p2 ++ w ++ post) = true)
      by (apply (lit_matcher_opens old new); fold m; rewrite E; discriminate).
    rewrite (lit_matcher_some _ Hs) in E. injection E as _ <-.
    change (String.length old <= String.length p2).
    apply starts_with_spec in Hs as [rest Hs].
    destruct (app_split _ _ _ _ Hs) as [[e [Ho He]]|[e [_ [Hp _]]]];
      [| rewrite Hp, length_app_s; apply Nat.le_add_r].
    destruct e as [|c e]; [rewrite Ho, app_nil_r_s; apply Nat.le_refl |].
    exfalso. destruct p2 as [|c2 p2]; [now elim Hp2 |].
    unfold old in Ho. injection Ho as _ Ho.
    pose proof (no_start_sound _ _ H1 p2 (String c e) rest Ho ltac:(discriminate)) as Hf.
    rewrite <- He, starts_with_app in Hf. discriminate.
  - intros w1 w2 Hw Hw2. apply (opens_with_none _ old); [apply lit_matcher_opens |].
    now apply (no_start_sound _ _ H2 w1).
  - exists a, (scan m 0 post). exact Ha.
Qed.

(** A prefix of the result that cannot overlap [new] is a prefix of the
    text. *)
Lemma replace_prefix_back s :
  forall p b, no_start new p = true ->
    str_replace old new s = p ++ b -> exists b', s = p ++ b'.
Proof.
  unfold str_replace. fold m.
  apply (scan_ind m lit_matcher_consumes)
    with (P := fun s o => forall p b, no_start new p = true ->
                 o = p ++ b -> exists b', s = p ++ b').
  - intros p b _ H. symmetry in H. apply app_eq_nil_s in H as [-> _]. now exists "".
  - intros c s' _ IH p b Hp H. destruct p as [|y p]; [now exists (String c s') |].
    cbn [String.append] in H. injection H as <- H.
    destruct (IH p b (no_start_tail _ _ _ Hp) H) as [b' ->]. now exists b'.
  - intros t rest r _ Hm _ p b Hp H. destruct p as [|y p]; [now exists (t ++ rest) |].
    exfalso. rewrite (lit_matcher_new _ _ _ Hm) in H.
    cbn [no_start] in Hp. apply andb_true_iff in Hp as [Hc _].
    now apply clash_sound in H.
Qed.

(** A text that cannot overlap [new] is in the result only if it was in
    the text. *)
Lemma replace_no_new w s :
  no_start new w = true -> no_start w new = true ->
  contains w (str_replace old new s) = true -> contains w s = true.
Proof.
  intros H1 H2. rewrite !contains_spec. unfold str_replace. fold m.
  apply (scan_ind m lit_matcher_consumes)
    with (P := fun s o => (exists a b, o = a ++ w ++ b) ->
                          exists a b, s = a ++ w ++ b).
  - auto.
  - intros c s' Hc IH [a [b H]]. destruct a as [|y a].
    + cbn [String.append] in H.
      destruct (replace_prefix_back (String c s') w b H1) as [b' Hb'].
      * unfold str_replace. fold m. now rewrite scan_miss.
      * now exists "", b'.
    + cbn [String.append] in H. injection H as _ H.
      destruct IH as [a' [b' ->]]; [now exists a, b |]. now exists (String c a'), b'.
  - intros t rest r _ Hm IH [a [b H]]. rewrite (lit_matcher_new _ _ _ Hm) in H.
    destruct (app_split _ _ _ _ H) as [[e [_ He]]|[e [Hne [Hn He]]]].
    + destruct IH as [a' [b' ->]]; [now exists e, b |].
      exists (t ++ a'), b'. now rewrite app_assoc_s.
    + exfalso.
      pose proof (no_start_sound _ _ H2 a e (scan m 0 rest) Hn Hne) as Hf.
      rewrite <- He, starts_with_app in Hf. discriminate.
Qed.

(** When [old] and [new] cannot overlap, no [old] is left in the result,
    and replacing again changes nothing. *)
Lemma replace_clean s :
  no_start new old' = true -> no_start old new = true ->
  contains old (str_replace old new s) = false.
Proof.
  intros H1 H2.
  destruct (contains old (str_replace old new s)) eqn:E; [exfalso | reflexivity].
  apply contains_spec in E. revert E. unfold str_replace. fold m.
  apply (scan_ind m lit_matcher_consumes)
    with (P := fun s o => (exists a b, o = a ++ old ++ b) -> False).
  - intros [a [b H]]. symmetry in H. apply app_eq_nil_s in H as [_ H]. discriminate.
  - intros c s' Hc IH [a [b H]]. destruct a as [|y a].
    + unfold old in H. cbn [String.append] in H. injection H as -> H.
      destruct (replace_prefix_back s' old' b H1 H) as [b' ->].
      rewrite lit_matcher_some in Hc; [discriminate |].
      apply (starts_with_app old b').
    + cbn [String.append] in H. injection H as _ H. apply IH. now exists a, b.
  - intros t rest r _ Hm IH [a [b H]]. rewrite (lit_matcher_new _ _ _ Hm) in H.
    destruct (app_split _ _ _ _ H) as [[e [_ He]]|[e [Hne [Hn He]]]].
    + apply IH. now exists e, b.
    + pose proof (no_start_sound _ _ H2 a e (scan m 0 rest) Hn Hne) as Hf.
      rewrite <- He, starts_with_app in Hf. discriminate.
Qed.

Lemma replace_idempotent s :
  no_start new old' = true -> no_start old new = true ->
  str_replace old new (str_replace old new s) = str_replace old new s.
Proof. intros H1 H2. apply replace_none. now apply replace_clean. Qed.

End Replace.

(** ** Line endings

    The text read from a file has no carriage return, and no rule and no
    fix writes one: a file the script wrote is read back as it was
    written. *)

Section Newlines.

Lemma contains_char c s : contains (String c "") s = mem_char c s.
Proof.
  induction s as [|a s IH]; [reflexivity |].
  cbn [contains starts_with mem_char]. rewrite IH, (Ascii.eqb_sym c a).
  now destruct (Ascii.eqb a c).
Qed.

Lemma universal_newlines_no_CR data :
  mem_char CRc (universal_newlines data) = false.
Proof.
  unfold universal_newlines. rewrite <- contains_char.
  apply (replace_clean CRc "" LF); reflexivity.
Qed.

(** Bytes without carriage return are read as they are, and only they. *)
Lemma universal_newlines_id data :
  mem_char CRc data = false -> universal_newlines data = data.
Proof.
  intros H. unfold universal_newlines.
  assert (H1 : contains (CR ++ LF) data = false).
  { destruct (contains (CR ++ LF) data) eqn:E; [| reflexivity].
    rewrite <- H, <- contains_char.
    symmetry. apply (contains_trans _ (CR ++ LF)); [reflexivity | exact E]. }
  change (CR ++ LF) with (String CRc LF) in *.
  rewrite (replace_none CRc LF LF data H1).
  apply (replace_none CRc "" LF). now rewrite contains_char.
Qed.

Lemma universal_newlines_fixed data :
  universal_newlines data = data <-> mem_char CRc data = false.
Proof.
  split; [| apply universal_newlines_id].
  intros <-. apply universal_newlines_no_CR.
Qed.

Lemma universal_newlines_twice data :
  universal_newlines (universal_newlines data) = universal_newlines data.
Proof. apply universal_newlines_id, universal_newlines_no_CR. Qed.

(** A scan whose replacements bring no [c] brings none. *)
Lemma scan_no_char (c : ascii) (m : matcher) :
  consumes m ->
  (forall t rest r, m (t ++ rest) = Some (r, String.length t) ->
     mem_char c t = false -> mem_char c r = false) ->
  forall s, mem_char c s = false -> mem_char c (scan m 0 s) = false.
Proof.
  intros Hc H s.
  apply (scan_ind m Hc)
    with (P := fun s o => mem_char c s = false -> mem_char c o = false).
  - auto.
  - intros a s' _ IH Hs. cbn [mem_char] in *.
    apply orb_false_iff in Hs as [-> Hs]. now apply IH.
  - intros t rest r _ Hm IH Hs. rewrite mem_char_app in *.
    apply orb_false_iff in Hs as [Ht Hr].
    now rewrite (H _ _ _ Hm Ht), (IH Hr).
Qed.

Lemma named_no_char c head :
  forall t rest r, named_matcher head (t ++ rest) = Some (r, String.length t) ->
    mem_char c not_implemented = false -> mem_char c LF = false ->
    mem_char c "// " = false ->
    mem_char c t = false -> mem_char c r = false.
Proof.
  intros t rest r Hm H1 H2 H3 Ht.
  apply named_matcher_view in Hm as [X [_ [_ [_ ->]]]].
  unfold commented. now rewrite !mem_char_app, H1, H2, H3, Ht.
Qed.

Lemma relative_no_char c head tail import :
  forall t rest r,
    relative_matcher head tail import (t ++ rest) = Some (r, String.length t) ->
    mem_char c (commented import) = false -> mem_char c r = false.
Proof.
  intros t rest r Hm H.
  now apply relative_matcher_view in Hm as [y [_ [_ ->]]].
Qed.

Lemma fix_content_no_CR s :
  mem_char CRc s = false -> mem_char CRc (fix_content s) = false.
Proof.
  intros H. unfold fix_content.
  apply (scan_no_char CRc m4 m4_consumes);
    [intros t rest r Hm _; now apply (relative_no_char CRc _ _ _ _ _ _ Hm) |].
  apply (scan_no_char CRc m3 m3_consumes);
    [intros t rest r Hm _; now apply (relative_no_char CRc _ _ _ _ _ _ Hm) |].
  apply (scan_no_char CRc m2 m2_consumes);
    [intros t rest r Hm; now apply (named_no_char CRc _ _ _ _ Hm) |].
  apply (scan_no_char CRc m1 m1_consumes);
    [intros t rest r Hm; now apply (named_no_char CRc _ _ _ _ Hm) |].
  exact H.
Qed.

(** The text [fix_file] writes is read back as it is. *)
Lemma fix_content_read_back data :
  universal_newlines (fix_content (universal_newlines data)) =
    fix_content (universal_newlines data).
Proof.
  apply universal_newlines_id, fix_content_no_CR, universal_newlines_no_CR.
Qed.

Lemma text_read_spec fs p s :
  text_read fs p = Some s <->
  exists data, fs !! p = Some data /\ universal_newlines data = s.
Proof.
  unfold text_read. rewrite fmap_Some.
  split; intros [data [H1 H2]]; exists data; auto.
Qed.

(** The text read from the file [fix_file] leaves is the text the rules
    make of the text read before. *)
Lemma fixed_read data :
  universal_newlines (fixed data) = fix_content (universal_newlines data).
Proof.
  unfold fixed.
  destruct (String.eqb_spec (fix_content (universal_newlines data))
                            (universal_newlines data)) as [E|_];
    [now rewrite E | apply fix_content_read_back].
Qed.

(** A file without carriage return is left with what the rules make of
    it. *)
Lemma fixed_text t : mem_char CRc t = false -> fixed t = fix_content t.
Proof.
  intros H. unfold fixed. rewrite (universal_newlines_id _ H).
  now destruct (String.eqb_spec (fix_content t) t) as [->|_].
Qed.

Lemma replace_no_char c x old' new s :
  mem_char c new = false -> mem_char c s = false ->
  mem_char c (str_replace (String x old') new s) = false.
Proof.
  intros Hn. apply (scan_no_char c _ (lit_matcher_consumes x old' new)).
  intros t rest r Hm _. now rewrite (lit_matcher_new _ _ _ _ _ _ Hm).
Qed.

End Newlines.

(** ** The special cases on a text *)

Section Patches.

Lemma types_replace_idempotent s :
  str_replace types_old types_new (str_replace types_old types_new s) =
    str_replace types_old types_new s.
Proof.
  apply (replace_idempotent "i"
    "mport type { IExchangeAdapter, SubscriptionRequest, ConnectionStatus, OrderBook, Trade, Ticker, Candle, ExchangeEventName, ExchangeEventListener, ConnectionMetrics } from './types';");
    vm_compute; reflexivity.
Qed.

Lemma types_replace_clean s :
  contains types_old (str_replace types_old types_new s) = false.
Proof.
  apply (replace_clean "i"
    "mport type { IExchangeAdapter, SubscriptionRequest, ConnectionStatus, OrderBook, Trade, Ticker, Candle, ExchangeEventName, ExchangeEventListener, ConnectionMetrics } from './types';");
    vm_compute; reflexivity.
Qed.

Lemma call_old_cons : call_old = String " " call_old'.
Proof. reflexivity. Qed.

Lemma call_replace_idempotent s :
  str_replace call_old call_new (str_replace call_old call_new s) =
    str_replace call_old call_new s.
Proof.
  rewrite call_old_cons. apply replace_idempotent; vm_compute; reflexivity.
Qed.

Lemma call_replace_clean s :
  contains call_old (str_replace call_old call_new s) = false.
Proof. rewrite call_old_cons. apply replace_clean; vm_compute; reflexivity. Qed.

(** Replacing the call neither creates the old type import nor destroys
    the added symbols; replacing the type import keeps the call. *)
Lemma call_replace_no_types_old s :
  contains types_old (str_replace call_old call_new s) = true ->
  contains types_old s = true.
Proof. rewrite call_old_cons. apply replace_no_new; vm_compute; reflexivity. Qed.

Lemma call_replace_keeps_added s :
  contains types_added s = true ->
  contains types_added (str_replace call_old call_new s) = true.
Proof. rewrite call_old_cons. apply replace_keeps; vm_compute; reflexivity. Qed.

Lemma types_replace_keeps_call s :
  contains call_old s = true ->
  contains call_old (str_replace types_old types_new s) = true.
Proof.
  apply (replace_keeps "i"
    "mport type { IExchangeAdapter, SubscriptionRequest, ConnectionStatus, OrderBook, Trade, Ticker, Candle, ExchangeEventName, ExchangeEventListener, ConnectionMetrics } from './types';");
    vm_compute; reflexivity.
Qed.

Lemma patched_stable patch s :
  (forall s', patch s = Some s' -> patched patch s' = s') ->
  patched patch (patched patch s) = patched patch s.
Proof.
  intros H. unfold patched at 2 3. destruct (patch s) as [s'|] eqn:E.
  - now apply H.
  - unfold patched. now rewrite E.
Qed.

(** Fix 1 applied again changes nothing. *)
Lemma patchA_stable s : patched patchA (patched patchA s) = patched patchA s.
Proof.
  apply patched_stable. intros s'. unfold patchA at 1.
  destruct (contains types_marker s && negb (contains types_added s)); [| discriminate].
  intros [= <-]. unfold patched, patchA.
  destruct (contains types_marker _ && negb (contains types_added _));
    [apply types_replace_idempotent | reflexivity].
Qed.


(** Once fix 2 ran its guard is false: the stub is in the text. *)
Lemma patchB_once s s' : patchB s = Some s' -> patchB s' = None.
Proof.
  unfold patchB.
  destruct (contains stub_marker s) eqn:E; [| discriminate].
  destruct (contains stub_head s); [discriminate |]. intros [= <-].
  assert (contains stub_head (str_replace stub_marker stub_text s) = true) as ->.
  { apply (contains_trans _ stub_text); [reflexivity |].
    apply (replace_writes "/"
      "/ import { getDefaultWebSocketConfig } from '@/modules/exchanges';").
    exact E. }
  now rewrite andb_false_r.
Qed.

Lemma patchB_stable s : patched patchB (patched patchB s) = patched patchB s.
Proof.
  apply patched_stable. intros s' E. unfold patched.
  now rewrite (patchB_once _ _ E).
Qed.

(** A text that has the stub gets no second one. *)
Lemma patchB_guard s : contains stub_head s = true -> patchB s = None.
Proof. intros H. unfold patchB. rewrite H. now rewrite andb_false_r. Qed.

(** Fix 3 applied again changes nothing, guard or not. *)
Lemma patchC_stable s : patched patchC (patched patchC s) = patched patchC s.
Proof.
  apply patched_stable. intros s'. unfold patchC at 1.
  destruct (contains call_marker s); [| discriminate].
  intros [= <-]. unfold patched, patchC.
  destruct (contains call_marker _); [apply call_replace_idempotent | reflexivity].
Qed.

(** Fix 1 finds nothing to do on the text fix 3 leaves after it. *)
Lemma patchA_after_manager s : patched patchA (manager_after s) = manager_after s.
Proof.
  unfold manager_after. set (u := patched patchA s).
  assert (Hu : contains types_old u = true ->
               contains types_added u = true).
  { unfold u, patched, patchA.
    destruct (contains types_marker s && negb (contains types_added s)) eqn:G.
    - now rewrite types_replace_clean.
    - intros H. apply andb_false_iff in G as [G|G].
      + rewrite (contains_trans types_marker types_old s) in G;
          [discriminate | reflexivity | exact H].
      + now apply negb_false_iff in G. }
  unfold patched at 2 3. unfold patchC.
  destruct (contains call_marker u).
  - unfold patched, patchA.
    destruct (contains types_marker _ && negb (contains types_added _)) eqn:G;
      [| reflexivity].
    apply andb_true_iff in G as [_ G]. apply negb_true_iff in G.
    apply (replace_none "i"
      "mport type { IExchangeAdapter, SubscriptionRequest, ConnectionStatus, OrderBook, Trade, Ticker, Candle, ExchangeEventName, ExchangeEventListener, ConnectionMetrics } from './types';").
    fold types_old.
    destruct (contains types_old (str_replace call_old call_new u)) eqn:E;
      [| reflexivity].
    apply call_replace_no_types_old, Hu, call_replace_keeps_added in E. congruence.
  - apply patchA_stable.
Qed.

(** One run brings the manager and the pipeline to texts that a second
    run leaves as they are. *)
Lemma manager_after_idempotent s : manager_after (manager_after s) = manager_after s.
Proof.
  unfold manager_after at 1. rewrite patchA_after_manager.
  unfold manager_after. apply patchC_stable.
Qed.

Lemma pipeline_after_idempotent s : pipeline_after (pipeline_after s) = pipeline_after s.
Proof. apply patchB_stable. Qed.

(** The three fixes write text without carriage return. *)
Lemma patchA_writes_text : writes_text patchA.
Proof.
  intros s s'. unfold patchA.
  destruct (contains types_marker s && negb (contains types_added s)); [| discriminate].
  intros [= <-]. now apply replace_no_char.
Qed.

Lemma patchB_writes_text : writes_text patchB.
Proof.
  intros s s'. unfold patchB.
  destruct (contains stub_marker s && negb (contains stub_head s)); [| discriminate].
  intros [= <-]. now apply replace_no_char.
Qed.

Lemma patchC_writes_text : writes_text patchC.
Proof.
  intros s s'. unfold patchC.
  destruct (contains call_marker s); [| discriminate].
  intros [= <-]. rewrite call_old_cons. now apply replace_no_char.
Qed.

Lemma patched_no_CR patch s :
  writes_text patch -> mem_char CRc s = false ->
  mem_char CRc (patched patch s) = false.
Proof.
  intros Hp Hs. unfold patched. destruct (patch s) as [s'|] eqn:E; [| exact Hs].
  exact (Hp _ _ E Hs).
Qed.

Lemma manager_after_no_CR s :
  mem_char CRc s = false -> mem_char CRc (manager_after s) = false.
Proof.
  intros H. unfold manager_after.
  apply patched_no_CR; [apply patchC_writes_text |].
  apply patched_no_CR; [apply patchA_writes_text | exact H].
Qed.

(** On a file without carriage return a fix leaves the patched text. *)
Lemma rewritten_text patch s :
  mem_char CRc s = false -> rewritten patch s = patched patch s.
Proof.
  intros H. unfold rewritten, patched. now rewrite (universal_newlines_id _ H).
Qed.

(** The text read from the file a fix leaves is the patched text read. *)
Lemma rewritten_read patch data :
  writes_text patch ->
  universal_newlines (rewritten patch data) = patched patch (universal_newlines data).
Proof.
  intros Hp. unfold rewritten, patched.
  destruct (patch (universal_newlines data)) as [s'|] eqn:E; [| reflexivity].
  apply universal_newlines_id, (Hp _ _ E), universal_newlines_no_CR.
Qed.

(** One run leaves the manager as it is, when no fix applies, or leaves
    what the two fixes make of the text read. *)
Lemma manager_file_cases data :
  (patchA (universal_newlines data) = None /\
   patchC (universal_newlines data) = None /\ manager_file data = data) \/
  manager_file data = manager_after (universal_newlines data).
Proof.
  unfold manager_file, manager_after.
  destruct (patchA (universal_newlines data)) as [a|] eqn:EA.
  - right.
    assert (rewritten patchA data = a) as -> by (unfold rewritten; now rewrite EA).
    assert (patched patchA (universal_newlines data) = a) as ->
      by (unfold patched; now rewrite EA).
    apply rewritten_text.
    apply (patchA_writes_text _ _ EA), universal_newlines_no_CR.
  - assert (rewritten patchA data = data) as -> by (unfold rewritten; now rewrite EA).
    assert (patched patchA (universal_newlines data) = universal_newlines data) as ->
      by (unfold patched; now rewrite EA).
    unfold rewritten, patched.
    destruct (patchC (universal_newlines data)) as [c|] eqn:EC; [now right | now left].
Qed.

Lemma manager_file_read data :
  universal_newlines (manager_file data) = manager_after (universal_newlines data).
Proof.
  unfold manager_file, manager_after.
  rewrite rewritten_read by apply patchC_writes_text.
  now rewrite rewritten_read by apply patchA_writes_text.
Qed.

Lemma pipeline_file_read data :
  universal_newlines (pipeline_file data) = pipeline_after (universal_newlines data).
Proof. apply rewritten_read, patchB_writes_text. Qed.

(** A second run leaves the two files as the first run left them. *)
Lemma manager_file_idempotent data :
  manager_file (manager_file data) = manager_file data.
Proof.
  destruct (manager_file_cases data) as [[_ [_ H]]|H]; [now rewrite !H |].
  rewrite H. set (t := universal_newlines data).
  assert (Ht : mem_char CRc (manager_after t) = false)
    by apply manager_after_no_CR, universal_newlines_no_CR.
  unfold manager_file.
  rewrite (rewritten_text patchA _ Ht), patchA_after_manager.
  rewrite (rewritten_text patchC _ Ht).
  unfold manager_after. apply patchC_stable.
Qed.

Lemma pipeline_file_idempotent data :
  pipeline_file (pipeline_file data) = pipeline_file data.
Proof.
  unfold pipeline_file. unfold rewritten at 2 3.
  destruct (patchB (universal_newlines data)) as [b|] eqn:E.
  - rewrite rewritten_text
      by apply (patchB_writes_text _ _ E), universal_newlines_no_CR.
    unfold patched. now rewrite (patchB_once _ _ E).
  - unfold rewritten. now rewrite E.
Qed.

End Patches.

(** ** [fix_special_cases] on the file system *)

Section Special.

Lemma apply_patch_run filepath patch msg w :
  apply_patch filepath patch msg w = Some (tt, patch_world filepath patch msg w).
Proof.
  unfold apply_patch, patch_world, bind, path_exists, read_text, write_text,
    print, ret.
  destruct (files w !! filepath) as [s|] eqn:E.
  - rewrite bool_decide_eq_true_2 by eauto. rewrite E.
    destruct (patch (universal_newlines s)); reflexivity.
  - rewrite bool_decide_eq_false_2 by (intros [? ?]; discriminate). reflexivity.
Qed.

Lemma fix_special_cases_run w :
  fix_special_cases w = Some (tt, special_world w).
Proof.
  unfold fix_special_cases, bind, special_world.
  now rewrite !apply_patch_run.
Qed.

Lemma patch_world_files filepath patch msg w :
  files (patch_world filepath patch msg w) =
    alter (rewritten patch) filepath (files w).
Proof.
  apply map_eq. intros k. rewrite lookup_alter. unfold patch_world, rewritten.
  destruct (files w !! filepath) as [s|] eqn:E.
  - destruct (patch (universal_newlines s)) as [s'|] eqn:Ep; cbn [files].
    + rewrite lookup_insert. case_decide; [| reflexivity].
      cbn. now rewrite Ep.
    + case_decide; [| reflexivity]. subst k. cbn. now rewrite E, Ep.
  - case_decide; [| reflexivity]. subst k. now rewrite E.
Qed.

Lemma special_world_files w : files (special_world w) = special_files (files w).
Proof. unfold special_world, special_files. now rewrite !patch_world_files. Qed.

Lemma manager_not_pipeline : manager_ts <> pipeline_ts.
Proof. apply String.eqb_neq. vm_compute. reflexivity. Qed.

Lemma special_files_manager fs :
  special_files fs !! manager_ts = manager_file <$> fs !! manager_ts.
Proof.
  unfold special_files, manager_file.
  rewrite lookup_alter, decide_True by reflexivity.
  rewrite lookup_alter, decide_False by (intros E; now apply manager_not_pipeline).
  rewrite lookup_alter, decide_True by reflexivity.
  now destruct (fs !! manager_ts).
Qed.

Lemma special_files_pipeline fs :
  special_files fs !! pipeline_ts = pipeline_file <$> fs !! pipeline_ts.
Proof.
  unfold special_files, pipeline_file.
  rewrite lookup_alter, decide_False by apply manager_not_pipeline.
  rewrite lookup_alter, decide_True by reflexivity.
  rewrite lookup_alter, decide_False by apply manager_not_pipeline.
  reflexivity.
Qed.

Lemma special_files_other fs k :
  k <> manager_ts -> k <> pipeline_ts -> special_files fs !! k = fs !! k.
Proof.
  intros H1 H2. unfold special_files.
  rewrite lookup_alter, decide_False by congruence.
  rewrite lookup_alter, decide_False by congruence.
  rewrite lookup_alter, decide_False by congruence.
  reflexivity.
Qed.

(** A second run leaves every file as the first run left it. *)
Lemma special_files_idempotent fs :
  special_files (special_files fs) = special_files fs.
Proof.
  apply map_eq. intros k.
  destruct (decide (k = manager_ts)) as [->|H1].
  { rewrite !special_files_manager. destruct (fs !! manager_ts); [| reflexivity].
    cbn. now rewrite manager_file_idempotent. }
  destruct (decide (k = pipeline_ts)) as [->|H2].
  { rewrite !special_files_pipeline. destruct (fs !! pipeline_ts); [| reflexivity].
    cbn. now rewrite pipeline_file_idempotent. }
  now rewrite !special_files_other.
Qed.

End Special.

(** ** The loop of [main] *)

Section Loop.

Lemma fix_file_run filepath w :
  fix_file filepath w = Some (fix_file_world filepath w).
Proof.
  unfold fix_file_world. destruct (files w !! filepath) as [data|] eqn:E.
  - rewrite (fix_file_present _ _ _ E).
    now destruct (String.eqb (fix_content (universal_newlines data))
                             (universal_newlines data)).
  - now apply fix_file_missing.
Qed.

Lemma fix_file_world_ret filepath w :
  fst (fix_file_world filepath w) = changed_at (files w) filepath.
Proof.
  unfold fix_file_world, changed_at. destruct (files w !! filepath) as [c|]; [| reflexivity].
  now destruct (String.eqb (fix_content (universal_newlines c)) (universal_newlines c)).
Qed.

Lemma fix_file_world_stdout filepath w :
  stdout (snd (fix_file_world filepath w)) =
    (stdout w ++ report (files w) filepath)%list.
Proof.
  unfold fix_file_world, report. destruct (files w !! filepath) as [c|]; [| reflexivity].
  now destruct (String.eqb (fix_content (universal_newlines c)) (universal_newlines c)).
Qed.

Lemma fix_file_world_other filepath w q :
  q <> filepath -> q <> filepath ++ ".bak" ->
  files (snd (fix_file_world filepath w)) !! q = files w !! q.
Proof.
  intros H1 H2. unfold fix_file_world.
  destruct (files w !! filepath) as [c|]; [| reflexivity].
  destruct (String.eqb (fix_content (universal_newlines c)) (universal_newlines c));
    [reflexivity |].
  cbn [snd after_fixed files]. now rewrite !lookup_insert_ne by congruence.
Qed.

Lemma fix_file_world_self filepath w :
  files (snd (fix_file_world filepath w)) !! filepath =
    fixed <$> files w !! filepath.
Proof.
  unfold fix_file_world. destruct (files w !! filepath) as [c|] eqn:E;
    [| cbn [snd after_missing files]; now rewrite E].
  change (fixed <$> Some c) with (Some (fixed c)). unfold fixed.
  destruct (String.eqb (fix_content (universal_newlines c)) (universal_newlines c)).
  - cbn [snd after_unchanged files]. now rewrite E.
  - cbn [snd after_fixed files]. now rewrite lookup_insert_eq.
Qed.

Lemma fix_all_cons p rest n w :
  fix_all (p :: rest) n w =
    fix_all rest (if fst (fix_file_world p w) then n + 1 else n)
                 (snd (fix_file_world p w)).
Proof.
  cbn [fix_all]. unfold bind. rewrite fix_file_run.
  now destruct (fix_file_world p w).
Qed.

(** The loop never raises, and its counter counts the [True]s. *)
Lemma fix_all_counts paths n w :
  exists w', fix_all paths n w = Some (n + count_true (loop_returns paths w), w').
Proof.
  revert n w. induction paths as [|p rest IH]; intros n w.
  - exists w. cbn. unfold ret. do 2 f_equal. lia.
  - rewrite fix_all_cons. cbn [loop_returns].
    destruct (IH (if fst (fix_file_world p w) then n + 1 else n)
                 (snd (fix_file_world p w))) as [w' ->].
    exists w'. do 2 f_equal. cbn [count_true].
    destruct (fst (fix_file_world p w)); lia.
Qed.

Lemma independent_cons p rest q :
  independent (p :: rest) = true -> In q rest ->
  q <> p /\ q <> p ++ ".bak" /\ p <> q ++ ".bak".
Proof.
  cbn [independent]. intros H Hq. apply andb_true_iff in H as [H _].
  rewrite forallb_forall in H. specialize (H q Hq).
  apply andb_true_iff in H as [H H3]. apply andb_true_iff in H as [H1 H2].
  apply negb_true_iff in H1, H2, H3.
  now rewrite !String.eqb_neq in *.
Qed.

(** The loop leaves alone every path that is neither in the list nor the
    backup of a path of the list. *)
Lemma fix_all_frame paths n w n' w' k :
  fix_all paths n w = Some (n', w') ->
  (forall q, In q paths -> k <> q /\ k <> q ++ ".bak") ->
  files w' !! k = files w !! k.
Proof.
  revert n w. induction paths as [|p rest IH]; intros n w Hrun Hk.
  - cbn in Hrun. unfold ret in Hrun. now injection Hrun as _ <-.
  - rewrite fix_all_cons in Hrun.
    rewrite (IH _ _ Hrun) by (intros q Hq; apply Hk; now right).
    destruct (Hk p (or_introl eq_refl)) as [H1 H2].
    now apply fix_file_world_other.
Qed.

(** On independent paths every call of the loop sees its file as it was
    before the loop, and the loop leaves it rewritten. *)
Lemma fix_all_independent paths :
  independent paths = true ->
  forall n w, exists w',
    fix_all paths n w = Some (n + count_true (loop_returns paths w), w') /\
    loop_returns paths w = map (changed_at (files w)) paths /\
    stdout w' = (stdout w ++ concat (map (report (files w)) paths))%list /\
    forall p, In p paths -> files w' !! p = fixed <$> files w !! p.
Proof.
  induction paths as [|p rest IH]; intros Hind n w.
  - exists w. cbn. unfold ret. rewrite app_nil_r.
    repeat split; [do 2 f_equal; lia | tauto].
  - pose proof Hind as Hrest. cbn [independent] in Hrest.
    apply andb_true_iff in Hrest as [_ Hrest].
    destruct (fix_all_counts (p :: rest) n w) as [w' Hrun].
    exists w'. split; [exact Hrun |].
    rewrite fix_all_cons in Hrun.
    destruct (IH Hrest (if fst (fix_file_world p w) then n + 1 else n)
                 (snd (fix_file_world p w))) as [w'' [Hrun' [Hret [Hout Hfiles]]]].
    pose proof Hrun' as Hrun''.
    rewrite Hrun in Hrun''. injection Hrun'' as _ <-.
    assert (Hsame : forall q, In q rest ->
              files (snd (fix_file_world p w)) !! q = files w !! q).
    { intros q Hq. destruct (independent_cons _ _ _ Hind Hq) as [H1 [H2 _]].
      now apply fix_file_world_other. }
    assert (Hmap : forall (A : Type) (f : gmap string string -> string -> A),
              (forall fs fs' q, fs !! q = fs' !! q -> f fs q = f fs' q) ->
              map (f (files (snd (fix_file_world p w)))) rest = map (f (files w)) rest).
    { intros A f Hf. apply map_ext_in. intros q Hq. apply Hf. now apply Hsame. }
    split; [| split].
    + cbn [loop_returns map]. rewrite Hret, fix_file_world_ret. f_equal.
      apply Hmap. intros fs fs' q E. unfold changed_at. now rewrite E.
    + rewrite Hout, fix_file_world_stdout. cbn [map concat].
      rewrite <- app_assoc. do 2 f_equal. f_equal.
      apply Hmap. intros fs fs' q E. unfold report. now rewrite E.
    + intros q [<-|Hq].
      * rewrite (fix_all_frame _ _ _ _ _ p Hrun'); [apply fix_file_world_self |].
        intros q Hq. destruct (independent_cons _ _ _ Hind Hq) as [H1 [_ H3]].
        split; congruence.
      * rewrite (Hfiles q Hq). now rewrite Hsame.
Qed.

End Loop.

(** ** Active imports

    A position of a text is commented when a [//] precedes it on its line.
    An import is active where a rule matches at a position that is not
    commented. *)

Section Lines.

Lemma take_str_app a b : take_str (String.length a) (a ++ b) = a.
Proof. induction a as [|c a IH]; simpl; [reflexivity | now rewrite IH]. Qed.

Lemma last_line_app a b :
  last_line (a ++ b) = if mem_char LFc b then last_line b else last_line a ++ b.
Proof.
  induction a as [|c a IH].
  - cbn [String.append last_line]. destruct (mem_char LFc b) eqn:E; [reflexivity |].
    clear -E. induction b as [|x b IH]; [reflexivity |].
    cbn [mem_char] in E. apply orb_false_iff in E as [Ex E].
    cbn [last_line]. now rewrite E, Ex.
  - cbn [String.append last_line]. rewrite mem_char_app, IH.
    destruct (mem_char LFc b) eqn:E.
    + now rewrite orb_true_r.
    + rewrite orb_false_r. destruct (mem_char LFc a); [reflexivity |].
      now destruct (Ascii.eqb c LFc).
Qed.

Lemma last_line_no_LF a : mem_char LFc (last_line a) = false.
Proof.
  induction a as [|c a IH]; [reflexivity |]. cbn [last_line].
  destruct (mem_char LFc a) eqn:E; [exact IH |].
  destruct (Ascii.eqb c LFc) eqn:Ec; [exact E |].
  cbn [mem_char]. now rewrite Ec, E.
Qed.

(** After [//] and up to the end of the line every position is commented. *)
Lemma commented_after_slashes pre a :
  mem_char LFc a = false -> commented_at (pre ++ "//" ++ a) = true.
Proof.
  intros Ha. unfold commented_at. rewrite last_line_app.
  assert (mem_char LFc ("//" ++ a) = false) as -> by exact Ha.
  apply contains_spec. now exists (last_line pre), a.
Qed.

(** Positions of equal or later lines are commented alike whatever came
    before. *)
Lemma commented_at_LF pre pre' x :
  mem_char LFc x = true -> commented_at (pre ++ x) = commented_at (pre' ++ x).
Proof. intros H. unfold commented_at. now rewrite !last_line_app, H. Qed.

Lemma has_active_spec p pre s :
  has_active p pre s = true <->
  exists a b, s = a ++ b /\ commented_at (pre ++ a) = false /\
              Re.match_here p b <> None.
Proof.
  assert (Hm : forall b, match Re.match_here p b with Some _ => true | None => false end
                         = true <-> Re.match_here p b <> None).
  { intros b. destruct (Re.match_here p b); split; congruence. }
  revert pre. induction s as [|c s IH]; intros pre.
  - cbn [has_active]. rewrite orb_false_r, andb_true_iff, negb_true_iff, Hm. split.
    + intros [H1 H2]. exists "", "". split; [reflexivity |].
      split; [now rewrite app_nil_r_s | exact H2].
    + intros [a [b [H [H1 H2]]]]. symmetry in H. apply app_eq_nil_s in H as [-> ->].
      rewrite app_nil_r_s in H1. now split.
  - cbn [has_active]. rewrite orb_true_iff, andb_true_iff, negb_true_iff, Hm, IH.
    split.
    + intros [[H1 H2]|[a [b [H [H1 H2]]]]].
      * exists "", (String c s). split; [reflexivity |].
        split; [now rewrite app_nil_r_s | exact H2].
      * exists (String c a), b. rewrite H. split; [reflexivity |].
        split; [| exact H2]. now rewrite app_assoc_s in H1.
    + intros [a [b [H [H1 H2]]]]. destruct a as [|y a].
      * left. cbn [String.append] in H. subst b. rewrite app_nil_r_s in H1.
        now split.
      * right. cbn [String.append] in H. injection H as <- H.
        exists a, b. split; [exact H |]. split; [| exact H2].
        now rewrite app_assoc_s.
Qed.

End Lines.

Section Matched.

Variable m : matcher.
Hypothesis m_consumes : consumes m.

Lemma matched_skip n s : matched m n s = matched m 0 (drop_str n s).
Proof.
  revert n. induction s as [|c s IH]; intros [|n]; try reflexivity.
  - simpl. now rewrite (m_nil m m_consumes).
  - simpl. apply IH.
Qed.

Lemma matched_miss c s :
  m (String c s) = None -> matched m 0 (String c s) = matched m 0 s.
Proof. intros H. simpl. now rewrite H. Qed.

Lemma matched_hit t rest r :
  m (t ++ rest) = Some (r, String.length t) ->
  matched m 0 (t ++ rest) = t :: matched m 0 rest.
Proof.
  intros H. destruct (m_consumes _ _ _ H) as [t' [rest' [_ [Hne Hlen]]]].
  destruct t as [|c t]; [destruct t'; [now elim Hne | discriminate] |].
  change (matched m 0 (String c t ++ rest))
    with (match m (String c t ++ rest) with
          | Some (_, n) =>
              take_str n (String c t ++ rest) ::
              match n with
              | 0 => matched m 0 (t ++ rest)
              | S k => matched m k (t ++ rest)
              end
          | None => matched m 0 (t ++ rest)
          end).
  rewrite H, take_str_app.
  change (String.length (String c t)) with (S (String.length t)). cbv iota.
  now rewrite matched_skip, drop_str_app.
Qed.

(** The scan up to its first match. *)
Lemma scan_first_hit s :
  scan m 0 s = s \/
  exists g t rest r,
    s = g ++ t ++ rest /\ scan m 0 s = g ++ r ++ scan m 0 rest /\
    m (t ++ rest) = Some (r, String.length t).
Proof.
  apply (scan_ind m m_consumes)
    with (P := fun s o => o = s \/
                 exists g t rest r, s = g ++ t ++ rest /\
                   o = g ++ r ++ scan m 0 rest /\
                   m (t ++ rest) = Some (r, String.length t)).
  - now left.
  - intros c s' _ [->|[g [t [rest [r [-> [-> H]]]]]]]; [now left |].
    right. now exists (String c g), t, rest, r.
  - intros t rest r _ H _. right. now exists "", t, rest, r.
Qed.

End Matched.

(** ** Active imports through one substitution *)

Section StagePull.

(** [mk] is the rule whose active matches are followed, [mj] the rule the
    substitution applies. *)
Variables mk mj : matcher.

Hypothesis mj_consumes : consumes mj.

(** A match of [mk] that runs into a replacement of [mj] was a match of
    [mk] before the replacement. *)
Hypothesis mk_pulled :
  forall u t rest r z,
    mj (t ++ rest) = Some (r, String.length t) ->
    mk (u ++ r ++ z) <> None -> mk (u ++ t ++ rest) <> None.

Hypothesis mk_no_slash : forall z, mk (String "/" z) = None.

(** The replacement of a one-line match: the comment line, then a line
    behind [//]. *)
Hypothesis mj_shape :
  forall t rest r,
    mj (t ++ rest) = Some (r, String.length t) -> mem_char LFc t = false ->
    exists q, r = not_implemented ++ LF ++ "//" ++ q /\ mem_char LFc q = false.

Lemma inside_replacement po q a' e :
  not_implemented ++ LF ++ "//" ++ q = a' ++ e -> e <> "" ->
  mem_char LFc q = false ->
  (exists z, e = String "/" z) \/ commented_at (po ++ a') = true.
Proof.
  intros H Hne Hq. unfold not_implemented in H.
  destruct a' as [|c1 [|c2 a']]; cbn [String.append] in H.
  - left. eexists. symmetry. exact H.
  - left. injection H as _ H. eexists. symmetry. exact H.
  - injection H as <- <- H.
    change (po ++ String "/" (String "/" a')) with (po ++ "//" ++ a').
    change (String " " ?x) with (" Module not yet implemented" ++ LF ++ "//" ++ q) in H.
    destruct (app_split _ _ _ _ H) as [[e0 [Ha He]]|[e0 [_ [Ha _]]]].
    + destruct e0 as [|d1 [|d2 [|d3 e0]]]; cbn [String.append] in He.
      * right. rewrite app_nil_r_s in Ha. subst a'. now apply commented_after_slashes.
      * left. injection He as _ He. eexists. symmetry. exact He.
      * left. injection He as _ _ He. eexists. symmetry. exact He.
      * right. injection He as <- <- <- He. subst a'.
        change (po ++ "//" ++ " Module not yet implemented" ++
                String LFc (String "/" (String "/" e0)))
          with (po ++ "//" ++ " Module not yet implemented" ++ LF ++ "//" ++ e0).
        rewrite <- !app_assoc_s. rewrite (app_assoc_s _ "//" e0).
        apply commented_after_slashes.
        rewrite He, mem_char_app in Hq. now apply orb_false_iff in Hq.
    + right. apply commented_after_slashes.
      assert (mem_char LFc (a' ++ e0) = false) as Hm by now rewrite <- Ha.
      rewrite mem_char_app in Hm. now apply orb_false_iff in Hm.
Qed.

(** An active match in the result of the substitution, whose matches are
    one-line texts, was an active match before it, at a position the
    substitution did not match. *)
Lemma stage_pull s :
  forallb single_line (matched mj 0 s) = true ->
  forall ps po,
    (forall x, commented_at (po ++ x) = false -> commented_at (ps ++ x) = false) ->
    forall a' b',
      scan mj 0 s = a' ++ b' -> commented_at (po ++ a') = false ->
      mk b' <> None ->
      active mk mj ps s.
Proof.
  apply (scan_ind mj mj_consumes)
    with (P := fun s o =>
      forallb single_line (matched mj 0 s) = true ->
      forall ps po,
        (forall x, commented_at (po ++ x) = false -> commented_at (ps ++ x) = false) ->
        forall a' b', o = a' ++ b' -> commented_at (po ++ a') = false ->
          mk b' <> None -> active mk mj ps s).
  - intros _ ps po Hl a' b' H Hc Hm. symmetry in H. apply app_eq_nil_s in H as [-> ->].
    exists "", "". split; [reflexivity |]. split; [now apply Hl |].
    split; [exact Hm | apply (m_nil mj mj_consumes)].
  - intros c s' Hmiss IH Hall ps po Hl a' b' H Hc Hm.
    rewrite (matched_miss _ _ _ Hmiss) in Hall.
    destruct a' as [|y a']; cbn [String.append] in H.
    + subst b'. exists "", (String c s'). split; [reflexivity |].
      split; [now apply Hl |]. split; [| exact Hmiss].
      destruct (scan_first_hit mj mj_consumes s')
        as [E|[g [t [rest [r [Hs [Ho Hr]]]]]]].
      * now rewrite E in Hm.
      * rewrite Ho in Hm. rewrite Hs.
        apply (mk_pulled (String c g) t rest r (scan mj 0 rest) Hr Hm).
    + injection H as <- H.
      destruct (IH Hall (ps ++ String c "") (po ++ String c "")) with (a' := a') (b' := b')
        as [a [b [Hs [Hca [Hk Hj]]]]].
      * intros x. rewrite !app_assoc_s. apply Hl.
      * exact H.
      * now rewrite app_assoc_s.
      * exact Hm.
      * exists (String c a), b. rewrite Hs. split; [reflexivity |].
        split; [| now split]. now rewrite app_assoc_s in Hca.
  - intros t rest r Hne Hr IH Hall ps po Hl a' b' H Hc Hm.
    rewrite (matched_hit _ mj_consumes _ _ _ Hr) in Hall.
    cbn [forallb] in Hall. apply andb_true_iff in Hall as [Ht Hall].
    apply negb_true_iff in Ht.
    destruct (mj_shape _ _ _ Hr Ht) as [q [-> Hq]].
    destruct (app_split _ _ _ _ H) as [[e [Ha He]]|[e [Hne' [Ha He]]]].
    + destruct (IH Hall (ps ++ t) (po ++ not_implemented ++ LF ++ "//" ++ q))
        with (a' := e) (b' := b') as [a [b [Hs [Hca [Hk Hj]]]]].
      * intros x Hx. destruct (mem_char LFc x) eqn:Ex.
        -- now rewrite (commented_at_LF (ps ++ t)
                          (po ++ not_implemented ++ LF ++ "//" ++ q) x Ex).
        -- exfalso.
           assert (commented_at ((po ++ not_implemented ++ LF) ++ "//" ++ q ++ x) = true)
             by (apply commented_after_slashes; now rewrite mem_char_app, Hq, Ex).
           rewrite !app_assoc_s in *. congruence.
      * exact He.
      * rewrite Ha, !app_assoc_s in Hc. now rewrite !app_assoc_s.
      * exact Hm.
      * exists (t ++ a), b. rewrite Hs, !app_assoc_s. split; [reflexivity |].
        split; [| now split]. now rewrite !app_assoc_s in Hca.
    + exfalso.
      destruct (inside_replacement po q a' e Ha Hne' Hq) as [[z Hz]|Hcm];
        [| congruence].
      rewrite He, Hz in Hm. cbn [String.append] in Hm.
      now rewrite mk_no_slash in Hm.
Qed.

End StagePull.

(** ** How a match of one rule meets a replacement of another *)

Section Pulled.

(** Rules 3 and 4 stop before every replacement, which opens with the
    comment line; the match is then a match of the text before. *)
Lemma relative_pulled head tail' import u t rest w z :
  mem_char LFc head = false -> mem_char LFc tail' = false ->
  relative_matcher head (tail' ++ ";") import
    (u ++ (not_implemented ++ LF ++ w) ++ z) <> None ->
  relative_matcher head (tail' ++ ";") import (u ++ t ++ rest) <> None.
Proof.
  intros Hh Ht H.
  destruct (relative_matcher head (tail' ++ ";") import
              (u ++ (not_implemented ++ LF ++ w) ++ z)) as [[r n]|] eqn:E;
    [clear H | congruence].
  assert (Hni : mem_char ";" not_implemented = false) by reflexivity.
  pose proof (relative_stops_before _ _ _ _ _ _ _ _ _ Hni E Hh Ht) as Hn.
  destruct (sub_matcher_prefix_length _ _ _ _ _ E) as [T [rest' [Hs Hlen]]].
  subst n. rewrite Hs in E.
  apply relative_matcher_view in E as [y [HT [Hy _]]].
  destruct (app_split _ _ _ _ Hs) as [[e [HTe _]]|[e [_ [Hu _]]]].
  - assert (e = "") as ->.
    { apply length_zero_s. rewrite HTe, length_app_s in Hn. lia. }
    rewrite app_nil_r_s in HTe. subst u. rewrite HT. do 2 rewrite app_assoc_s.
    now apply relative_matcher_hits.
  - rewrite Hu, HT. do 3 rewrite app_assoc_s. now apply relative_matcher_hits.
Qed.

Lemma first_brace a b a' b' :
  a ++ "}" ++ b = a' ++ "}" ++ b' ->
  mem_char "}" a = false -> mem_char "}" a' = false -> a = a' /\ b = b'.
Proof.
  revert a'. induction a as [|c a IH]; intros [|c' a'] H Ha Ha';
    cbn [String.append] in H.
  - now injection H.
  - injection H as <- _. discriminate.
  - injection H as -> _. discriminate.
  - injection H as <- H. cbn [mem_char] in Ha, Ha'.
    apply orb_false_iff in Ha as [_ Ha]. apply orb_false_iff in Ha' as [_ Ha'].
    destruct (IH _ H Ha Ha') as [-> ->]. auto.
Qed.

Section NamedPulled.

Variable head : string.
Hypothesis head_no_brace : mem_char "}" head = false.
Hypothesis head_not_comment : no_start not_implemented head = true.

Let mk : matcher := named_matcher head.

Lemma named_hits_prefix T y X :
  T = head ++ X ++ from_exchanges -> X <> "" -> mem_char "}" X = false ->
  mk (T ++ y) <> None.
Proof.
  intros -> Hne HX. unfold mk. now rewrite named_matcher_intro.
Qed.

(** A match of rule 1 or 2 that runs into a replacement takes the
    replacement up to its closing brace into its symbol list. *)
Lemma named_pulled_core u r' r1 r2 z :
  not_implemented ++ r' = r1 ++ "}" ++ r2 -> mem_char "}" r1 = false ->
  mk (u ++ (r1 ++ "}" ++ r2) ++ z) <> None ->
  (forall y, mk (u ++ y) <> None) \/
  (exists X z', head ++ X ++ " " = u ++ r1 /\ mem_char "}" X = false /\
                r2 ++ z = " from '@/modules/exchanges';" ++ z').
Proof.
  intros Hr Hr1 H.
  destruct (mk (u ++ (r1 ++ "}" ++ r2) ++ z)) as [[r n]|] eqn:E;
    [clear H | congruence].
  destruct (sub_matcher_prefix_length _ _ _ _ _ E) as [T [z' [Hs Hlen]]].
  subst n. rewrite Hs in E.
  apply named_matcher_view in E as [X [HT [Hne [HX _]]]].
  destruct (app_split _ _ _ _ Hs) as [[e [HTe He]]|[e [_ [Hu _]]]].
  2:{ left. intros y. rewrite Hu, app_assoc_s. now apply (named_hits_prefix T _ X). }
  destruct e as [|c0 e0].
  { left. intros y. rewrite app_nil_r_s in HTe. subst u.
    now apply (named_hits_prefix T _ X). }
  set (e := String c0 e0) in *. assert (e <> "") as Hene by discriminate.
  assert (HT' : (head ++ X ++ " ") ++ "}" ++ " from '@/modules/exchanges';" = u ++ e).
  { rewrite <- HTe, HT, !app_assoc_s. reflexivity. }
  destruct (app_split _ _ _ _ HT') as [[e1 [Hu He1]]|[e1 [Hne1 [Hx He1]]]].
  - (* the brace of the match is at the start of the rest or before it *)
    exfalso. rewrite <- Hr in He.
    destruct e1 as [|c1 e1]; cbn [String.append] in He1.
    + rewrite <- He1 in He. unfold not_implemented in He. cbn [String.append] in He.
      discriminate.
    + injection He1 as _ He1.
      assert (Hns : no_start not_implemented " from '@/modules/exchanges';" = true)
        by reflexivity.
      pose proof (no_start_sound _ _ Hns e1 e z' He1 Hene) as Hf.
      rewrite <- He, app_assoc_s, starts_with_app in Hf. discriminate.
  - (* it is in the rest *)
    right. rewrite He1, !app_assoc_s in He.
    assert (mem_char "}" e1 = false) as He1b.
    { assert (Hm : mem_char "}" (u ++ e1) = false).
      { rewrite <- Hx, !mem_char_app, head_no_brace, HX. reflexivity. }
      rewrite mem_char_app in Hm. now apply orb_false_iff in Hm. }
    destruct (first_brace _ _ _ _ He Hr1 He1b) as [-> Hz].
    exists X, z'. now repeat split.
Qed.

(** Against a replacement of rule 3 or 4: the text after its brace is not
    the text after the brace of rules 1 and 2. *)
Lemma named_pulled_relative u t rest r' r1 r2 z :
  not_implemented ++ r' = r1 ++ "}" ++ r2 -> mem_char "}" r1 = false ->
  clash " from '@/modules/exchanges';" r2 = true ->
  mk (u ++ (r1 ++ "}" ++ r2) ++ z) <> None ->
  mk (u ++ t ++ rest) <> None.
Proof.
  intros Hr Hr1 Hcl H.
  destruct (named_pulled_core u r' r1 r2 z Hr Hr1 H) as [Hy|[X [z' [_ [_ Hz]]]]].
  - apply Hy.
  - exfalso. symmetry in Hz. now apply clash_sound in Hz.
Qed.

(** Against a replacement of rule 1 or 2: the match holds the replaced
    import in its symbol list, and held it before the replacement. *)
Lemma named_pulled_named u t1 rest z :
  t1 <> "" -> mem_char "}" t1 = false ->
  mk (u ++ commented (t1 ++ from_exchanges) ++ z) <> None ->
  mk (u ++ (t1 ++ from_exchanges) ++ rest) <> None.
Proof.
  intros Hne Ht1 H.
  set (ins := not_implemented ++ LF ++ "// ").
  destruct (named_pulled_core u (LF ++ "// " ++ t1 ++ from_exchanges)
              (ins ++ t1 ++ " ") " from '@/modules/exchanges';" z)
    as [Hy|[X [z' [HX [HXb _]]]]].
  - unfold ins, from_exchanges. rewrite !app_assoc_s. reflexivity.
  - unfold ins. rewrite !mem_char_app, Ht1. reflexivity.
  - unfold commented, from_exchanges, ins in *.
    now rewrite !app_assoc_s in *.
  - apply Hy.
  - destruct (app_split _ _ _ _ HX) as [[u1 [Hu HXu]]|[h1 [Hne1 [Hh Hins]]]].
    + assert (X = u1 ++ ins ++ t1) as ->.
      { apply (app_inv_tail_s _ _ " "). now rewrite HXu, !app_assoc_s. }
      replace (u ++ (t1 ++ from_exchanges) ++ rest)
        with ((head ++ (u1 ++ t1) ++ from_exchanges) ++ rest)
        by (rewrite Hu, !app_assoc_s; reflexivity).
      rewrite !mem_char_app in HXb.
      apply orb_false_iff in HXb as [Hu1 _].
      apply (named_hits_prefix _ rest (u1 ++ t1)).
      * reflexivity.
      * destruct u1; [exact Hne | discriminate].
      * now rewrite mem_char_app, Hu1, Ht1.
    + exfalso.
      pose proof (no_start_sound _ _ head_not_comment u h1
                    (X ++ " ") Hh Hne1) as Hf.
      unfold ins in Hins. rewrite app_assoc_s in Hins.
      rewrite <- Hins, !app_assoc_s, starts_with_app in Hf. discriminate.
Qed.

End NamedPulled.

End Pulled.

(** ** No active import is left *)

Section NoActive.

Lemma named_comments_out head : comments_out (named_matcher head).
Proof.
  intros t rest r H Ht. apply named_matcher_view in H as [X [_ [_ [_ ->]]]].
  exists (" " ++ t). split; [reflexivity |]. now rewrite mem_char_app, Ht.
Qed.

Lemma relative_comments_out head tail import :
  mem_char LFc import = false ->
  comments_out (relative_matcher head tail import).
Proof.
  intros Hi t rest r H Ht. apply relative_matcher_view in H as [y [_ [_ ->]]].
  exists (" " ++ import). split; [reflexivity |]. now rewrite mem_char_app, Hi.
Qed.

Lemma comments_out_opens mj t rest r :
  comments_out mj -> mj (t ++ rest) = Some (r, String.length t) ->
  mem_char LFc t = false -> exists w, r = not_implemented ++ LF ++ w.
Proof. intros Hc H Ht. destruct (Hc _ _ _ H Ht) as [q [-> _]]. now eexists. Qed.

(** The matches of rules 3 and 4 are one-line texts. *)
Lemma relative_single_line head tail import s :
  head <> "" -> mem_char LFc head = false -> mem_char LFc tail = false ->
  forallb single_line (matched (relative_matcher head tail import) 0 s) = true.
Proof.
  intros Hne Hh Ht.
  assert (Hc : consumes (relative_matcher head tail import)).
  { unfold consumes, relative_matcher. apply sub_matcher_consumes.
    destruct head; [now elim Hne | reflexivity]. }
  apply (scan_ind _ Hc)
    with (P := fun s _ =>
      forallb single_line (matched (relative_matcher head tail import) 0 s) = true).
  - cbn [matched]. now rewrite (m_nil _ Hc).
  - intros c s' Hm IH. now rewrite matched_miss.
  - intros t rest r _ Hm IH. rewrite (matched_hit _ Hc _ _ _ Hm).
    cbn [forallb]. rewrite IH, andb_true_r.
    apply relative_matcher_view in Hm as [y [-> [Hy _]]].
    unfold single_line. now rewrite !mem_char_app, Hh, Hy, Ht.
Qed.

Lemma relative_replaces_single_line head tail import t rest r :
  mem_char LFc head = false -> mem_char LFc tail = false ->
  relative_matcher head tail import (t ++ rest) = Some (r, String.length t) ->
  mem_char LFc t = false.
Proof.
  intros Hh Ht H. apply relative_matcher_view in H as [y [-> [Hy _]]].
  now rewrite !mem_char_app, Hh, Hy, Ht.
Qed.

(** Rules 3 and 4 against every rule. *)
Lemma m3_pulled_named head : pulled m3 (named_matcher head).
Proof.
  intros u t rest r z H. apply named_matcher_view in H as [X [_ [_ [_ ->]]]].
  now apply (relative_pulled _ "exchanges/services/exchange.service'").
Qed.

Lemma m4_pulled_named head : pulled m4 (named_matcher head).
Proof.
  intros u t rest r z H. apply named_matcher_view in H as [X [_ [_ [_ ->]]]].
  now apply (relative_pulled _ "exchanges/schema/exchanges.schema'").
Qed.

Lemma m3_pulled_relative head tail import :
  pulled m3 (relative_matcher head tail import).
Proof.
  intros u t rest r z H. apply relative_matcher_view in H as [y [_ [_ ->]]].
  now apply (relative_pulled _ "exchanges/services/exchange.service'").
Qed.

Lemma m4_pulled_relative head tail import :
  pulled m4 (relative_matcher head tail import).
Proof.
  intros u t rest r z H. apply relative_matcher_view in H as [y [_ [_ ->]]].
  now apply (relative_pulled _ "exchanges/schema/exchanges.schema'").
Qed.

(** Rules 1 and 2 against rules 3 and 4. *)
Lemma named_pulled_m3 head :
  mem_char "}" head = false -> pulled (named_matcher head) m3.
Proof.
  intros H1 u t rest r z H. apply relative_matcher_view in H as [y [_ [_ ->]]].
  change (commented service_import)
    with ((not_implemented ++ LF ++ "// import { ExchangeService ") ++ "}" ++
          " from '../../exchanges/services/exchange.service';").
  now apply (named_pulled_relative head H1 u t rest
               (LF ++ "// " ++ service_import)).
Qed.

Lemma named_pulled_m4 head :
  mem_char "}" head = false -> pulled (named_matcher head) m4.
Proof.
  intros H1 u t rest r z H. apply relative_matcher_view in H as [y [_ [_ ->]]].
  change (commented schema_import)
    with ((not_implemented ++ LF ++ "// import { exchangeConnections ") ++ "}" ++
          " from '../../exchanges/schema/exchanges.schema';").
  now apply (named_pulled_relative head H1 u t rest
               (LF ++ "// " ++ schema_import)).
Qed.

(** Rules 1 and 2 against rules 1 and 2. *)
Lemma named_pulled_by_named head head' :
  mem_char "}" head = false -> no_start not_implemented head = true ->
  head' <> "" -> mem_char "}" head' = false ->
  pulled (named_matcher head) (named_matcher head').
Proof.
  intros H1 H2 H3 H4 u t rest r z H.
  apply named_matcher_view in H as [X [-> [_ [HX ->]]]].
  rewrite <- !(app_assoc_s head' X).
  apply (named_pulled_named head H1 H2).
  - destruct head'; [now elim H3 | discriminate].
  - now rewrite mem_char_app, H4, HX.
Qed.

End NoActive.

Section Live.

Variables mk mj : matcher.
Hypothesis mj_consumes : consumes mj.
Hypothesis mk_pulled : pulled mk mj.
Hypothesis mk_no_slash : forall z, mk (String "/" z) = None.
Hypothesis mj_comments_out : comments_out mj.

Lemma stage_active s :
  forallb single_line (matched mj 0 s) = true ->
  live mk (scan mj 0 s) -> active mk mj "" s.
Proof.
  intros Hs [a' [b' [Ho [Hc Hm]]]].
  apply (stage_pull mk mj mj_consumes mk_pulled mk_no_slash mj_comments_out
           s Hs "" "" (fun x H => H) a' b' Ho Hc Hm).
Qed.

Lemma stage_live s :
  forallb single_line (matched mj 0 s) = true ->
  live mk (scan mj 0 s) -> live mk s.
Proof.
  intros Hs H. destruct (stage_active s Hs H) as [a [b [E [Hc [Hm _]]]]].
  now exists a, b.
Qed.

End Live.

Lemma stage_dead m s :
  consumes m -> pulled m m -> (forall z, m (String "/" z) = None) ->
  comments_out m ->
  forallb single_line (matched m 0 s) = true ->
  ~ live m (scan m 0 s).
Proof.
  intros H1 H2 H3 H4 Hs H.
  destruct (stage_active m m H1 H2 H3 H4 s Hs H) as [a [b [_ [_ [Hm Hn]]]]].
  contradiction.
Qed.

Section NoActiveLeft.

Lemma named_no_slash head c z :
  c <> "/"%char -> named_matcher (String c head) (String "/" z) = None.
Proof.
  intros Hc. apply (opens_with_none _ (String c head)); [apply sub_matcher_opens |].
  cbn [starts_with]. destruct (Ascii.eqb_spec c "/"); [contradiction | reflexivity].
Qed.

Lemma relative_no_slash head tail import c z :
  c <> "/"%char ->
  relative_matcher (String c head) tail import (String "/" z) = None.
Proof.
  intros Hc. apply (opens_with_none _ (String c head)); [apply sub_matcher_opens |].
  cbn [starts_with]. destruct (Ascii.eqb_spec c "/"); [contradiction | reflexivity].
Qed.

Lemma m1_no_slash z : m1 (String "/" z) = None.
Proof. now apply named_no_slash. Qed.
Lemma m2_no_slash z : m2 (String "/" z) = None.
Proof. now apply named_no_slash. Qed.
Lemma m3_no_slash z : m3 (String "/" z) = None.
Proof. now apply relative_no_slash. Qed.
Lemma m4_no_slash z : m4 (String "/" z) = None.
Proof. now apply relative_no_slash. Qed.

Lemma m1_comments_out : comments_out m1.
Proof. apply named_comments_out. Qed.
Lemma m2_comments_out : comments_out m2.
Proof. apply named_comments_out. Qed.
Lemma m3_comments_out : comments_out m3.
Proof. now apply relative_comments_out. Qed.
Lemma m4_comments_out : comments_out m4.
Proof. now apply relative_comments_out. Qed.

Lemma m3_single_line s : forallb single_line (matched m3 0 s) = true.
Proof. now apply relative_single_line. Qed.
Lemma m4_single_line s : forallb single_line (matched m4 0 s) = true.
Proof. now apply relative_single_line. Qed.

Lemma has_active_live p t s :
  has_active p "" s = true -> live (Re.sub_matcher p t) s.
Proof.
  intros H. apply has_active_spec in H as [a [b [E [Hc Hm]]]].
  exists a, b. repeat split; [exact E | exact Hc |]. now rewrite sub_matcher_none.
Qed.

Variable s : string.
Hypothesis one_line : single_line_imports s = true.

Lemma one_line_1 : forallb single_line (matched m1 0 s) = true.
Proof. unfold single_line_imports in one_line. now apply andb_true_iff in one_line. Qed.

Lemma one_line_2 : forallb single_line (matched m2 0 (sub1 s)) = true.
Proof. unfold single_line_imports in one_line. now apply andb_true_iff in one_line. Qed.

Lemma no_active_1 : has_active pattern1 "" (fix_content s) = false.
Proof.
  destruct (has_active pattern1 "" (fix_content s)) eqn:E; [exfalso | reflexivity].
  apply (has_active_live _ template1) in E. unfold fix_content in E.
  change (live m1 (scan m4 0 (sub3 (sub2 (sub1 s))))) in E.
  apply (stage_live m1 m4 m4_consumes (named_pulled_m4 "import { " eq_refl) m1_no_slash
           m4_comments_out _ (m4_single_line _)) in E.
  apply (stage_live m1 m3 m3_consumes (named_pulled_m3 "import { " eq_refl) m1_no_slash
           m3_comments_out _ (m3_single_line _)) in E.
  apply (stage_live m1 m2 m2_consumes) in E.
  - revert E. apply (stage_dead m1 s m1_consumes); auto using m1_no_slash,
      m1_comments_out, one_line_1.
    now apply named_pulled_by_named.
  - now apply named_pulled_by_named.
  - apply m1_no_slash.
  - apply m2_comments_out.
  - apply one_line_2.
Qed.

Lemma no_active_2 : has_active pattern2 "" (fix_content s) = false.
Proof.
  destruct (has_active pattern2 "" (fix_content s)) eqn:E; [exfalso | reflexivity].
  apply (has_active_live _ template2) in E. unfold fix_content in E.
  change (live m2 (scan m4 0 (sub3 (sub2 (sub1 s))))) in E.
  apply (stage_live m2 m4 m4_consumes (named_pulled_m4 "import type { " eq_refl) m2_no_slash
           m4_comments_out _ (m4_single_line _)) in E.
  apply (stage_live m2 m3 m3_consumes (named_pulled_m3 "import type { " eq_refl) m2_no_slash
           m3_comments_out _ (m3_single_line _)) in E.
  revert E. apply (stage_dead m2 (sub1 s) m2_consumes); auto using m2_no_slash,
    m2_comments_out, one_line_2.
  now apply named_pulled_by_named.
Qed.

Lemma no_active_3 : has_active pattern3 "" (fix_content s) = false.
Proof.
  destruct (has_active pattern3 "" (fix_content s)) eqn:E; [exfalso | reflexivity].
  apply (has_active_live _ template3) in E. unfold fix_content in E.
  change (live m3 (scan m4 0 (sub3 (sub2 (sub1 s))))) in E.
  apply (stage_live m3 m4 m4_consumes (m3_pulled_relative _ _ _) m3_no_slash
           m4_comments_out _ (m4_single_line _)) in E.
  revert E. apply (stage_dead m3 _ m3_consumes); auto using m3_no_slash,
    m3_comments_out, m3_single_line.
  apply m3_pulled_relative.
Qed.

Lemma no_active_4 : has_active pattern4 "" (fix_content s) = false.
Proof.
  destruct (has_active pattern4 "" (fix_content s)) eqn:E; [exfalso | reflexivity].
  apply (has_active_live _ template4) in E. unfold fix_content in E.
  change (live m4 (scan m4 0 (sub3 (sub2 (sub1 s))))) in E.
  revert E. apply (stage_dead m4 _ m4_consumes); auto using m4_no_slash,
    m4_comments_out, m4_single_line.
  apply m4_pulled_relative.
Qed.

End NoActiveLeft.

(** ** A second application matches again *)

Section Rematch.

Lemma scan_rematches m s :
  consumes m -> rematches m -> hits m s -> hits m (scan m 0 s).
Proof.
  intros Hc Hr.
  apply (scan_ind m Hc) with (P := fun s o => hits m s -> hits m o).
  - auto.
  - intros c s' Hm IH H. apply hits_cons in H as [H|H]; [congruence |].
    apply hits_cons. right. now apply IH.
  - intros t rest r _ Hm _ _. now apply (Hr t rest).
Qed.

Lemma named_rematches head : rematches (named_matcher head).
Proof.
  intros t rest r z H. apply named_matcher_view in H as [X [-> [Hne [HX ->]]]].
  exists (not_implemented ++ LF ++ "// "), ((head ++ X ++ from_exchanges) ++ z).
  split; [unfold commented; now rewrite !app_assoc_s |].
  now rewrite named_matcher_intro.
Qed.

Lemma m3_rematches : rematches m3.
Proof.
  intros t rest r z H. apply relative_matcher_view in H as [y [_ [_ ->]]].
  exists (not_implemented ++ LF ++ "// "),
    ("import { ExchangeService } from '.." ++ "/../" ++
     "exchanges/services/exchange.service';" ++ z).
  split; [reflexivity |].
  apply relative_matcher_hits. reflexivity.
Qed.

Lemma m4_rematches : rematches m4.
Proof.
  intros t rest r z H. apply relative_matcher_view in H as [y [_ [_ ->]]].
  exists (not_implemented ++ LF ++ "// "),
    ("import { exchangeConnections } from '.." ++ "/../" ++
     "exchanges/schema/exchanges.schema';" ++ z).
  split; [reflexivity |].
  apply relative_matcher_hits. reflexivity.
Qed.

(** The text [fix_file] writes is matched by a pattern again: the last
    rule that replaced something left its import in the text. *)
Lemma fix_content_matches_again s :
  matches_any s = true -> matches_any (fix_content s) = true.
Proof.
  unfold matches_any, fix_content. intros H.
  destruct (Re.search pattern4 (sub3 (sub2 (sub1 s)))) eqn:E4.
  { apply search4_hits, (scan_rematches m4 _ m4_consumes m4_rematches),
      search4_hits in E4.
    rewrite <- sub4_scan in E4. rewrite E4. now rewrite !orb_true_r. }
  rewrite (sub4_id _ E4).
  destruct (Re.search pattern3 (sub2 (sub1 s))) eqn:E3.
  { apply search3_hits, (scan_rematches m3 _ m3_consumes m3_rematches),
      search3_hits in E3.
    rewrite <- sub3_scan in E3. rewrite E3. now rewrite !orb_true_r. }
  rewrite (sub3_id _ E3) in *.
  destruct (Re.search pattern2 (sub1 s)) eqn:E2.
  { apply search2_hits, (scan_rematches m2 _ m2_consumes (named_rematches _)),
      search2_hits in E2.
    rewrite <- sub2_scan in E2. rewrite E2. now rewrite !orb_true_r. }
  rewrite (sub2_id _ E2) in *.
  destruct (Re.search pattern1 s) eqn:E1.
  { apply search1_hits, (scan_rematches m1 _ m1_consumes (named_rematches _)),
      search1_hits in E1.
    rewrite <- sub1_scan in E1. now rewrite E1. }
  rewrite (sub1_id _ E1) in *. rewrite E2, E3, E4 in H. discriminate.
Qed.

End Rematch.

(** ** Texts with insertions *)

Section Insertions.

Variable c : string.

Lemma insertions_trans s o o' :
  insertions c s o -> insertions c o o' -> insertions c s o'.
Proof. induction 1; [trivial |]. intros H'. apply insertions_step. auto. Qed.

Lemma insertions_cons x s o :
  insertions c s o -> insertions c (String x s) (String x o).
Proof.
  induction 1 as [s|a b o _ IH]; [apply insertions_refl |].
  now apply (insertions_step c (String x a) b).
Qed.

Lemma insertions_app t s o :
  insertions c s o -> insertions c (t ++ s) (t ++ o).
Proof.
  intros H. induction t as [|x t IH]; [exact H |]. now apply insertions_cons.
Qed.

Lemma insertions_front s o : insertions c s o -> insertions c s (c ++ o).
Proof.
  intros H. apply (insertions_trans _ _ _ H).
  apply (insertions_step c "" o). apply insertions_refl.
Qed.

(** A scan that writes every match back behind [c] only inserts. *)
Lemma scan_insertions m s :
  consumes m ->
  (forall t rest r, m (t ++ rest) = Some (r, String.length t) -> r = c ++ t) ->
  insertions c s (scan m 0 s).
Proof.
  intros Hc Hr. apply (scan_ind m Hc).
  - apply insertions_refl.
  - intros x s' _ IH. now apply insertions_cons.
  - intros t rest r _ Hm IH. rewrite (Hr _ _ _ Hm), app_assoc_s.
    apply insertions_front. now apply insertions_app.
Qed.

Lemma insertions_length s o :
  insertions c s o ->
  exists k, String.length o = String.length s + k * String.length c.
Proof.
  induction 1 as [s|a b o _ [k IH]]; [exists 0; lia |].
  exists (S k). rewrite IH, !length_app_s. lia.
Qed.

End Insertions.

Lemma named_writes_back head t rest r :
  named_matcher head (t ++ rest) = Some (r, String.length t) ->
  r = (not_implemented ++ LF ++ "// ") ++ t.
Proof.
  intros H. apply named_matcher_view in H as [X [_ [_ [_ ->]]]].
  unfold commented. now rewrite !app_assoc_s.
Qed.

(** ** A named import with any symbol list *)

Section Split.

(** Where a text cut in three is cut in two. *)
Lemma split3 P X F w1 w2 :
  P ++ X ++ F = w1 ++ w2 ->
  (exists e, e <> "" /\ P = w1 ++ e /\ w2 = e ++ X ++ F) \/
  (exists X1 X2, X = X1 ++ X2 /\ w1 = P ++ X1 /\ w2 = X2 ++ F) \/
  (exists e1 e2, e1 <> "" /\ F = e1 ++ e2 /\ w1 = P ++ X ++ e1 /\ w2 = e2).
Proof.
  intros H. destruct (app_split _ _ _ _ H) as [[e [Hw1 He]]|[e [Hne [HP Hw2]]]].
  - destruct (app_split _ _ _ _ He) as [[e' [He' HF]]|[e' [Hne' [HX Hw2]]]].
    + destruct e' as [|c e'].
      * right. left. exists X, "". rewrite app_nil_r_s in He'. subst e.
        rewrite app_nil_r_s. auto.
      * right. right. exists (String c e'), w2. subst e.
        repeat split; [discriminate | exact HF | now rewrite Hw1].
    + right. left. exists e, e'. auto.
  - left. exists e. auto.
Qed.

Lemma contains_suffix l a b : contains l (a ++ b) = false -> contains l b = false.
Proof.
  intros H. destruct (contains l b) eqn:E; [| reflexivity].
  apply contains_spec in E as [u [v ->]].
  rewrite (proj2 (contains_spec l (a ++ u ++ l ++ v))) in H; [discriminate |].
  exists (a ++ u), v. now rewrite !app_assoc_s.
Qed.

End Split.

Section NamedNone.

Variable head : string.
Hypothesis head_no_brace : mem_char "}" head = false.

(** Rule 1 or 2 does not match where a symbol list without its opening
    literal runs up to the closing brace. *)
Lemma named_none_in_list X2 post :
  mem_char "}" X2 = false -> contains head X2 = false ->
  named_matcher head (X2 ++ from_exchanges ++ post) = None.
Proof.
  intros HX Hc.
  destruct (named_matcher head (X2 ++ from_exchanges ++ post)) as [[r n]|] eqn:E;
    [exfalso | reflexivity].
  destruct (sub_matcher_prefix_length _ _ _ _ _ E) as [u [rest [Hs Hn]]].
  subst n. rewrite Hs in E. apply named_matcher_view in E as [X' [Hu [_ [HX' _]]]].
  assert (H : (X2 ++ " ") ++ "}" ++ (" from '@/modules/exchanges';" ++ post) =
              (head ++ X' ++ " ") ++ "}" ++ (" from '@/modules/exchanges';" ++ rest)).
  { transitivity (X2 ++ from_exchanges ++ post); [now rewrite !app_assoc_s |].
    rewrite Hs, Hu. now rewrite !app_assoc_s. }
  apply first_brace in H as [H _].
  - rewrite <- !app_assoc_s in H. apply app_inv_tail_s in H.
    rewrite (proj2 (contains_spec head X2)) in Hc; [discriminate |].
    now exists "", X'.
  - now rewrite mem_char_app, HX.
  - now rewrite !mem_char_app, head_no_brace, HX'.
Qed.

(** Nor strictly inside a text [P ++ X ++ from_exchanges] in whose parts
    its opening literal does not start. *)
Lemma named_none_inside x P' X post :
  mem_char "}" X = false -> contains head X = false ->
  no_start head P' = true -> no_start head from_exchanges = true ->
  forall w1 w2, String x P' ++ X ++ from_exchanges = w1 ++ w2 ->
    w1 <> "" -> w2 <> "" -> named_matcher head (w2 ++ post) = None.
Proof.
  intros HX Hc HP HF w1 w2 Hw Hw1 Hw2.
  destruct (split3 _ _ _ _ _ Hw)
    as [[e [He [HPe ->]]]|[[X1 [X2 [HXX [_ ->]]]]|[e1 [e2 [He1 [HFe [_ ->]]]]]]].
  - apply (opens_with_none _ head); [apply sub_matcher_opens |].
    destruct w1 as [|y w1]; [now elim Hw1 |]. injection HPe as _ HPe.
    rewrite !app_assoc_s. now apply (no_start_sound _ _ HP w1).
  - rewrite app_assoc_s. apply named_none_in_list.
    + rewrite HXX, mem_char_app in HX. now apply orb_false_iff in HX.
    + rewrite HXX in Hc. now apply contains_suffix in Hc.
  - apply (opens_with_none _ head); [apply sub_matcher_opens |].
    now apply (no_start_sound _ _ HF e1).
Qed.


(** Hence the rule keeps such a text. *)
Lemma named_keeps_list x P' X pre post :
  head <> "" ->
  mem_char "}" X = false -> contains head X = false ->
  no_start head P' = true -> no_start head from_exchanges = true ->
  exists a b,
    scan (named_matcher head) 0
         (pre ++ (String x P' ++ X ++ from_exchanges) ++ post) =
      a ++ (String x P' ++ X ++ from_exchanges) ++ b.
Proof.
  intros Hne HX Hc HP HF. apply scan_keeps_inserting.
  - unfold consumes, named_matcher. apply sub_matcher_consumes.
    destruct head; [now elim Hne | reflexivity].
  - apply named_inserting.
  - now apply named_none_inside.
Qed.

End NamedNone.

Section RelativeNone.

(** The opening literal of rule 3 or 4 around its closing brace, the
    literal after [.*] up to the semicolon, and the import written. *)
Variables ha hb tail' import : string.
Let head : string := ha ++ "}" ++ hb.
Let m : matcher := relative_matcher head (tail' ++ ";") import.

Hypothesis ha_no_brace : mem_char "}" ha = false.
Hypothesis hb_not_from : clash hb " from '@/modules/exchanges';" = true.

(** Rule 3 or 4 does not match where a text without closing brace runs
    up to the closing brace of a named import of the missing module. *)
Lemma relative_none_at_list Y post :
  mem_char "}" Y = false -> m (Y ++ from_exchanges ++ post) = None.
Proof.
  intros HY. destruct (m (Y ++ from_exchanges ++ post)) as [[r n]|] eqn:E;
    [exfalso | reflexivity].
  destruct (sub_matcher_prefix_length _ _ _ _ _ E) as [u [rest [Hs Hn]]].
  subst n. rewrite Hs in E. apply relative_matcher_view in E as [y [Hu _]].
  assert (H : (Y ++ " ") ++ "}" ++ (" from '@/modules/exchanges';" ++ post) =
              ha ++ "}" ++ (hb ++ y ++ (tail' ++ ";") ++ rest)).
  { transitivity (Y ++ from_exchanges ++ post); [now rewrite !app_assoc_s |].
    rewrite Hs, Hu. unfold head. now rewrite !app_assoc_s. }
  apply first_brace in H as [_ H].
  - symmetry in H. now apply clash_sound in H.
  - now rewrite mem_char_app, HY.
  - exact ha_no_brace.
Qed.

Variable hx : ascii.
Variable hd' : string.

Hypothesis head_not_empty : head <> "".
Hypothesis head_one_line : mem_char LFc head = false.
Hypothesis tail_one_line : mem_char LFc tail' = false.
Hypothesis hd_no_brace : mem_char "}" (String hx hd') = false.
Hypothesis head_not_in_comment :
  no_start head (not_implemented ++ LF ++ "// ") = true.
Hypothesis head_not_in_hd : no_start head hd' = true.
Hypothesis head_not_in_from : no_start head from_exchanges = true.

Lemma relative_consumes : consumes m.
Proof.
  unfold consumes, m, relative_matcher. apply sub_matcher_consumes.
  destruct head; [now elim head_not_empty | reflexivity].
Qed.

(** Rule 3 or 4 matches nowhere in a commented named import, whatever its
    symbol list and whatever follows it. *)
Lemma relative_none_in_commented X post :
  mem_char "}" X = false ->
  forall w1 w2, commented (String hx hd' ++ X ++ from_exchanges) = w1 ++ w2 ->
    w2 <> "" -> m (w2 ++ post) = None.
Proof.
  intros HX.
  - intros w1 w2 Hw Hw2.
    assert (Hw' : ((not_implemented ++ LF ++ "// ") ++ String hx hd') ++
                  X ++ from_exchanges = w1 ++ w2)
      by (rewrite <- Hw; unfold commented; now rewrite !app_assoc_s).
    destruct (split3 _ _ _ _ _ Hw')
      as [[e [He [HPe ->]]]|[[X1 [X2 [HXX [_ ->]]]]|[e1 [e2 [He1 [HFe [_ ->]]]]]]].
    + (* in the comment line or in the opening literal of the import *)
      symmetry in HPe.
      destruct (app_split _ _ _ _ HPe) as [[e' [HQ He']]|[e' [Hne' [_ Hhd]]]].
      * destruct e' as [|c e'].
        -- cbn [String.append] in He'. subst e. rewrite <- app_assoc_s, app_assoc_s.
           apply relative_none_at_list.
           rewrite mem_char_app, HX. now rewrite hd_no_brace.
        -- apply (opens_with_none _ head); [apply sub_matcher_opens |].
           subst e. rewrite !app_assoc_s.
           apply (no_start_sound _ _ head_not_in_comment w1); [exact HQ | discriminate].
      * apply (opens_with_none _ head); [apply sub_matcher_opens |].
        destruct e' as [|c e']; [now elim Hne' |]. injection Hhd as _ Hhd.
        rewrite !app_assoc_s. now apply (no_start_sound _ _ head_not_in_hd e').
    + rewrite app_assoc_s. apply relative_none_at_list.
      rewrite HXX, mem_char_app in HX. now apply orb_false_iff in HX.
    + apply (opens_with_none _ head); [apply sub_matcher_opens |].
      now apply (no_start_sound _ _ head_not_in_from e1).
Qed.


(** Hence the rule keeps a commented named import, whatever its symbol
    list. *)
Lemma relative_keeps_list X pre post :
  mem_char "}" X = false ->
  exists a,
    scan m 0 (pre ++ commented (String hx hd' ++ X ++ from_exchanges) ++ post) =
      a ++ commented (String hx hd' ++ X ++ from_exchanges) ++ scan m 0 post.
Proof.
  intros HX. apply scan_keeps.
  - apply relative_consumes.
  - intros p1 p2 r n _ _ E.
    now apply (relative_stops_before head tail' import not_implemented
                 ("// " ++ String hx hd' ++ X ++ from_exchanges) p2 post r n).
  - now apply relative_none_in_commented.
Qed.

End RelativeNone.

Lemma sub3_keeps_list hx hd' X pre post :
  mem_char "}" (String hx hd') = false ->
  no_start "import { ExchangeService } from '.." hd' = true ->
  mem_char "}" X = false ->
  exists a,
    sub3 (pre ++ commented (String hx hd' ++ X ++ from_exchanges) ++ post) =
      a ++ commented (String hx hd' ++ X ++ from_exchanges) ++ sub3 post.
Proof.
  intros H1 H2 HX.
  apply (relative_keeps_list "import { ExchangeService " " from '.."
           "exchanges/services/exchange.service'" service_import);
    try reflexivity; try assumption; discriminate.
Qed.

Lemma sub4_keeps_list hx hd' X pre post :
  mem_char "}" (String hx hd') = false ->
  no_start "import { exchangeConnections } from '.." hd' = true ->
  mem_char "}" X = false ->
  exists a,
    sub4 (pre ++ commented (String hx hd' ++ X ++ from_exchanges) ++ post) =
      a ++ commented (String hx hd' ++ X ++ from_exchanges) ++ sub4 post.
Proof.
  intros H1 H2 HX.
  apply (relative_keeps_list "import { exchangeConnections " " from '.."
           "exchanges/schema/exchanges.schema'" schema_import);
    try reflexivity; try assumption; discriminate.
Qed.

Lemma fix_content_named1 pre X post :
  opened "import { " pre = false ->
  X <> "" -> mem_char "}" X = false -> contains "import type { " X = false ->
  exists a b,
    fix_content (pre ++ ("import { " ++ X ++ from_exchanges) ++ post) =
      a ++ commented ("import { " ++ X ++ from_exchanges) ++ b.
Proof.
  intros Hop Hne HX Hty. unfold fix_content.
  destruct (sub1_statement_in_context pre X post Hop Hne HX) as [a1 E1].
  rewrite E1. clear E1.
  destruct (named_keeps_list "import type { " eq_refl "/"
              ("/ Module not yet implemented" ++ LF ++ "// import { ") X
              a1 (sub1 post)) as [a2 [b2 E2]];
    [discriminate | exact HX | exact Hty | reflexivity | reflexivity |].
  change (String "/" ("/ Module not yet implemented" ++ LF ++ "// import { ") ++
          X ++ from_exchanges)
    with (commented ("import { " ++ X ++ from_exchanges)) in E2.
  rewrite sub2_scan. fold m2 in E2. rewrite E2. clear E2.
  destruct (sub3_keeps_list "i" "mport { " X a2 b2) as [a3 E3];
    [reflexivity | reflexivity | exact HX |].
  rewrite E3. clear E3.
  destruct (sub4_keeps_list "i" "mport { " X a3 (sub3 b2)) as [a4 E4];
    [reflexivity | reflexivity | exact HX |].
  rewrite E4. now exists a4, (sub4 (sub3 b2)).
Qed.

(** ** Texts the rules cannot create *)

Section ScanNoNew.

Variable m : matcher.
Variable R : string.
Hypothesis m_consumes : consumes m.
Hypothesis m_writes : forall s r n, m s = Some (r, n) -> r = R.

(** A beginning of the result that cannot overlap [R] is a beginning of
    the text. *)
Lemma scan_prefix_back s :
  forall p b, no_start R p = true ->
    scan m 0 s = p ++ b -> exists b', s = p ++ b'.
Proof.
  apply (scan_ind m m_consumes)
    with (P := fun s o => forall p b, no_start R p = true ->
                 o = p ++ b -> exists b', s = p ++ b').
  - intros p b _ H. symmetry in H. apply app_eq_nil_s in H as [-> _]. now exists "".
  - intros c s' _ IH p b Hp H. destruct p as [|y p]; [now exists (String c s') |].
    cbn [String.append] in H. injection H as <- H.
    destruct (IH p b (no_start_tail _ _ _ Hp) H) as [b' ->]. now exists b'.
  - intros t rest r _ Hm _ p b Hp H. destruct p as [|y p]; [now exists (t ++ rest) |].
    exfalso. rewrite (m_writes _ _ _ Hm) in H.
    cbn [no_start] in Hp. apply andb_true_iff in Hp as [Hc _].
    now apply clash_sound in H.
Qed.

(** A text that cannot overlap [R] is in the result only if it was in
    the text. *)
Lemma scan_no_new w s :
  no_start R w = true -> no_start w R = true ->
  contains w (scan m 0 s) = true -> contains w s = true.
Proof.
  intros H1 H2. rewrite !contains_spec.
  apply (scan_ind m m_consumes)
    with (P := fun s o => (exists a b, o = a ++ w ++ b) ->
                          exists a b, s = a ++ w ++ b).
  - auto.
  - intros c s' Hc IH [a [b H]]. destruct a as [|y a].
    + cbn [String.append] in H.
      destruct (scan_prefix_back (String c s') w b H1) as [b' Hb'].
      * now rewrite scan_miss.
      * now exists "", b'.
    + cbn [String.append] in H. injection H as _ H.
      destruct IH as [a' [b' ->]]; [now exists a, b |]. now exists (String c a'), b'.
  - intros t rest r _ Hm IH [a [b H]]. rewrite (m_writes _ _ _ Hm) in H.
    destruct (app_split _ _ _ _ H) as [[e [_ He]]|[e [Hne [Hn He]]]].
    + destruct IH as [a' [b' ->]]; [now exists e, b |].
      exists (t ++ a'), b'. now rewrite app_assoc_s.
    + exfalso.
      pose proof (no_start_sound _ _ H2 a e (scan m 0 rest) Hn Hne) as Hf.
      rewrite <- He, starts_with_app in Hf. discriminate.
Qed.

End ScanNoNew.

Section InsertionsNoNew.

Variable c : string.
Variable x : ascii.
Variable w' : string.
Let w : string := String x w'.

Hypothesis w_not_in_c : no_start w c = true.
Hypothesis c_not_in_w : no_start c w' = true.

(** An occurrence of [w] in a text with an inserted [c] lies before the
    [c] or behind it. *)
Lemma insertion_cases a b u v :
  a ++ c ++ b = u ++ w ++ v ->
  (exists e, a = u ++ w ++ e /\ v = e ++ c ++ b) \/
  (exists e, u = a ++ c ++ e /\ b = e ++ w ++ v).
Proof.
  intros H. destruct (app_split _ _ _ _ H) as [[e [Hu He]]|[e [Hne [Ha He]]]].
  - right. symmetry in He.
    destruct (app_split _ _ _ _ He) as [[e' [Hc Hwv]]|[e' [Hne' [He' Hb]]]].
    + destruct e' as [|y e'].
      * rewrite app_nil_r_s in Hc. subst e. cbn [String.append] in Hwv.
        exists "". split; [now rewrite Hu, app_nil_r_s | now rewrite Hwv].
      * exfalso.
        pose proof (no_start_sound _ _ w_not_in_c e (String y e') b Hc
                      ltac:(discriminate)) as Hf.
        rewrite <- Hwv, starts_with_app in Hf. discriminate.
    + exists e'. split; [now rewrite Hu, He' | exact Hb].
  - left. destruct (app_split _ _ _ _ He) as [[e' [He' Hv]]|[e' [Hne' [Hw Hcb]]]].
    + exists e'. split; [now rewrite Ha, He' | exact Hv].
    + exfalso. destruct e as [|z e]; [now elim Hne |].
      unfold w in Hw. injection Hw as _ Hw.
      pose proof (no_start_sound _ _ c_not_in_w e e' v Hw Hne') as Hf.
      rewrite <- Hcb, starts_with_app in Hf. discriminate.
Qed.

(** A [w] in a text with an inserted [c] is in the text without it. *)
Lemma insertion_no_new a b :
  contains w (a ++ c ++ b) = true -> contains w (a ++ b) = true.
Proof.
  rewrite !contains_spec. intros [u [v H]].
  destruct (insertion_cases _ _ _ _ H) as [[e [-> ->]]|[e [-> ->]]].
  - exists u, (e ++ b). now rewrite !app_assoc_s.
  - exists (a ++ e), v. now rewrite !app_assoc_s.
Qed.

Lemma insertions_no_new s o :
  insertions c s o -> contains w o = true -> contains w s = true.
Proof.
  induction 1 as [s|a b o _ IH]; [trivial |].
  intros H. now apply insertion_no_new, IH.
Qed.

End InsertionsNoNew.

Lemma m4_replacement s r n : m4 s = Some (r, n) -> r = commented schema_import.
Proof.
  intros H. destruct (sub_matcher_prefix_length _ _ _ _ _ H) as [t [rest [-> <-]]].
  now apply relative_matcher_view in H as [y [_ [_ ->]]].
Qed.

(** The rules create no occurrence of a text that overlaps neither what
    rules 1 and 2 insert nor what rules 3 and 4 write. *)
Lemma fix_content_no_new x w' s :
  no_start (String x w') (not_implemented ++ LF ++ "// ") = true ->
  no_start (not_implemented ++ LF ++ "// ") w' = true ->
  no_start (commented service_import) (String x w') = true ->
  no_start (String x w') (commented service_import) = true ->
  no_start (commented schema_import) (String x w') = true ->
  no_start (String x w') (commented schema_import) = true ->
  contains (String x w') (fix_content s) = true -> contains (String x w') s = true.
Proof.
  intros H1 H2 H3 H4 H5 H6 H. unfold fix_content in H.
  rewrite sub4_scan in H.
  apply (scan_no_new m4 _ m4_consumes m4_replacement _ _ H5 H6) in H.
  rewrite sub3_scan in H.
  apply (scan_no_new m3 _ m3_consumes m3_replacement _ _ H3 H4) in H.
  apply (insertions_no_new _ x w' H1 H2 s (sub1 s)).
  - rewrite sub1_scan. apply scan_insertions; [apply m1_consumes |].
    apply named_writes_back.
  - apply (insertions_no_new _ x w' H1 H2 (sub1 s) (sub2 (sub1 s))); [| exact H].
    rewrite sub2_scan. apply scan_insertions; [apply m2_consumes |].
    apply named_writes_back.
Qed.

(** ** A type import with any symbol list *)

Section KeepsInsertions.

Variable m : matcher.
Variable c : string.
Hypothesis m_consumes : consumes m.
Hypothesis m_inserts :
  forall t rest r, m (t ++ rest) = Some (r, String.length t) -> r = c ++ t.

Let sc := scan m 0.

(** A scan that only inserts [c] keeps an occurrence strictly inside
    which no match starts, and what stands before it in the result is
    what stood before it with copies of [c] inserted. *)
Lemma scan_keeps_insertions pre w post :
  (forall w1 w2, w = w1 ++ w2 -> w1 <> "" -> w2 <> "" -> m (w2 ++ post) = None) ->
  exists a b, sc (pre ++ w ++ post) = a ++ w ++ b /\ insertions c pre a.
Proof.
  intros HB. remember (String.length pre) as k eqn:Hk.
  revert pre Hk. induction k as [k IH] using lt_wf_ind. intros pre Hk.
  assert (Htail : forall e e', w = e ++ e' -> e <> "" ->
            sc (e' ++ post) = e' ++ sc post).
  { intros e e' Hw He. apply scan_through. intros w1 w2 E Hne.
    apply (HB (e ++ w1)); [now rewrite Hw, E, app_assoc_s | | exact Hne].
    destruct e; [now elim He | discriminate]. }
  destruct (m (pre ++ w ++ post)) as [[r n]|] eqn:E.
  - destruct (m_consumes _ _ _ E) as [t [rest [Hs [Hne Hlen]]]]. subst n.
    rewrite Hs in E. unfold sc. rewrite Hs, (scan_hit m m_consumes _ _ _ E).
    fold sc. rewrite (m_inserts _ _ _ E).
    destruct (app_split _ _ _ _ Hs) as [[e [Ht He]]|[e [Hne' [Ht He]]]].
    + destruct (app_split _ _ _ _ He) as [[e1 [He1 Hp]]|[e1 [Hne1 [Hw Hr]]]].
      * exists (c ++ pre), (e1 ++ sc rest).
        split; [now rewrite Ht, He1, !app_assoc_s |].
        apply insertions_front, insertions_refl.
      * subst rest. destruct e as [|x e].
        -- cbn [String.append] in Hw. subst e1. rewrite app_nil_r_s in Ht. subst t.
           destruct (IH 0) with (pre := "") as [a [b [Hab Hins]]].
           ++ subst k. destruct pre; [now elim Hne | simpl; lia].
           ++ reflexivity.
           ++ cbn [String.append] in Hab. exists (c ++ pre ++ a), b.
              split; [now rewrite Hab, !app_assoc_s |].
              apply insertions_front.
              rewrite <- (app_nil_r_s pre) at 1. now apply insertions_app.
        -- rewrite (Htail (String x e) e1 Hw) by discriminate.
           exists (c ++ pre), (sc post).
           split; [now rewrite Ht, Hw, !app_assoc_s |].
           apply insertions_front, insertions_refl.
    + subst rest.
      destruct (IH (String.length e)) with (pre := e) as [a [b [Hab Hins]]].
      * subst k. rewrite Ht, length_app_s. destruct t; [now elim Hne | simpl; lia].
      * reflexivity.
      * exists (c ++ t ++ a), b. split; [now rewrite Hab, !app_assoc_s |].
        rewrite Ht. apply insertions_front. now apply insertions_app.
  - destruct pre as [|x pre].
    + destruct w as [|y w].
      * exists "", (sc post). split; [reflexivity | apply insertions_refl].
      * cbn [String.append] in E |- *. unfold sc. rewrite scan_miss by exact E.
        fold sc. rewrite (Htail (String y "") w) by (reflexivity || discriminate).
        exists "", (sc post). split; [reflexivity | apply insertions_refl].
    + cbn [String.append] in E |- *. unfold sc. rewrite scan_miss by exact E.
      fold sc. destruct (IH (String.length pre)) with (pre := pre) as [a [b [Hab Hins]]].
      * subst k. simpl. lia.
      * reflexivity.
      * exists (String x a), b. split; [now rewrite Hab |].
        now apply insertions_cons.
Qed.

End KeepsInsertions.

Section InsertionsOpened.

Variable c : string.
Variable x : ascii.
Variable head' : string.
Let head : string := String x head'.

Hypothesis head_not_in_c : no_start head c = true.
Hypothesis c_not_in_head : no_start c head' = true.

Lemma opened_spec s :
  opened head s = true <->
  exists u v, s = u ++ head ++ v /\ mem_char "}" (head ++ v) = false.
Proof.
  induction s as [|y s IH].
  - cbn [opened]. rewrite orb_false_r. split.
    + intros H. apply andb_true_iff in H as [H _]. discriminate.
    + intros [u [v [H _]]]. symmetry in H. apply app_eq_nil_s in H as [_ H].
      discriminate.
  - cbn [opened]. rewrite orb_true_iff, andb_true_iff, negb_true_iff, IH.
    split.
    + intros [[H1 H2]|[u [v [-> H]]]].
      * apply starts_with_spec in H1 as [v Hv]. exists "", v.
        split; [exact Hv |]. now rewrite <- Hv.
      * now exists (String y u), v.
    + intros [[|z u] [v [H Hb]]].
      * left. cbn [String.append] in H. rewrite H. split; [| exact Hb].
        apply (starts_with_app head v).
      * right. cbn [String.append] in H. injection H as _ ->. now exists u, v.
Qed.

Lemma insertions_opened s o :
  insertions c s o -> opened head o = true -> opened head s = true.
Proof.
  induction 1 as [s|a b o _ IH]; [trivial |].
  intros H. apply IH in H. apply opened_spec in H as [u [v [H Hb]]].
  apply opened_spec.
  destruct (insertion_cases c x head' head_not_in_c c_not_in_head _ _ _ _ H)
    as [[e [-> ->]]|[e [-> ->]]].
  - exists u, (e ++ b). split; [now rewrite !app_assoc_s |].
    rewrite !mem_char_app in Hb. rewrite !mem_char_app.
    apply orb_false_iff in Hb as [H1 Hb]. apply orb_false_iff in Hb as [H2 Hb].
    apply orb_false_iff in Hb as [_ H3]. now rewrite H1, H2, H3.
  - exists (a ++ e), v. split; [now rewrite !app_assoc_s | exact Hb].
Qed.

End InsertionsOpened.

Lemma fix_content_named2 pre X post :
  opened "import type { " pre = false ->
  X <> "" -> mem_char "}" X = false -> contains "import { " X = false ->
  exists a b,
    fix_content (pre ++ ("import type { " ++ X ++ from_exchanges) ++ post) =
      a ++ commented ("import type { " ++ X ++ from_exchanges) ++ b.
Proof.
  intros Hop Hne HX Hpl. unfold fix_content.
  destruct (scan_keeps_insertions m1 (not_implemented ++ LF ++ "// ")
              m1_consumes (named_writes_back "import { ")
              pre ("import type { " ++ X ++ from_exchanges) post)
    as [a1 [b1 [E1 Hins]]].
  { apply (named_none_inside "import { " eq_refl "i" "mport type { " X post HX Hpl);
      reflexivity. }
  rewrite sub1_scan, E1. clear E1.
  assert (Hop1 : opened "import type { " a1 = false).
  { destruct (opened "import type { " a1) eqn:E; [| reflexivity].
    apply (insertions_opened _ "i" "mport type { ") in Hins;
      [congruence | reflexivity | reflexivity | exact E]. }
  destruct (sub2_statement_in_context a1 X b1 Hop1 Hne HX) as [a2 E2].
  rewrite E2. clear E2.
  destruct (sub3_keeps_list "i" "mport type { " X a2 (sub2 b1)) as [a3 E3];
    [reflexivity | reflexivity | exact HX |].
  rewrite E3. clear E3.
  destruct (sub4_keeps_list "i" "mport type { " X a3 (sub3 (sub2 b1))) as [a4 E4];
    [reflexivity | reflexivity | exact HX |].
  rewrite E4. now exists a4, (sub4 (sub3 (sub2 b1))).
Qed.

(** ** A file that is one named import *)





Lemma up_dirs_length n : String.length (up_dirs n) = 3 * n.
Proof.
  unfold up_dirs. induction n as [|n IH]; [reflexivity |].
  cbn [repeat_str]. rewrite length_app_s, IH. cbn [String.length]. lia.
Qed.

Lemma up_dirs_two n : up_dirs n = up_dirs 2 <-> n = 2.
Proof.
  split; [| now intros ->].
  intros H. apply (f_equal String.length) in H.
  rewrite !up_dirs_length in H. lia.
Qed.

(** ** The run of [fix_file] on a file with a match *)

Lemma fix_file_rewrites filepath w data :
  files w !! filepath = Some data ->
  matches_any (universal_newlines data) = true ->
  let w' := after_fixed filepath w (universal_newlines data) in
  fix_file filepath w = Some (true, w') /\
  writes w' = (writes w ++ [((filepath ++ ".bak")%string, universal_newlines data);
                            (filepath, fix_content (universal_newlines data))])%list /\
  files w' !! (filepath ++ ".bak") = Some (universal_newlines data) /\
  files w' !! filepath = Some (fix_content (universal_newlines data)).
Proof.
  intros H Hm w'. subst w'.
  pose proof (fix_content_changed _ Hm) as Hc.
  rewrite (fix_file_present _ _ _ H).
  destruct (String.eqb_spec (fix_content (universal_newlines data))
                            (universal_newlines data)) as [E|_]; [contradiction |].
  split; [reflexivity |]. split; [reflexivity |]. cbn [after_fixed files]. split.
  - rewrite lookup_insert_ne by (intros E; symmetry in E; now apply bak_neq in E).
    apply lookup_insert_eq.
  - apply lookup_insert_eq.
Qed.

(** The text [fix_file] writes is never what the file held. *)
Lemma fix_content_not_data data :
  matches_any (universal_newlines data) = true ->
  fix_content (universal_newlines data) <> data.
Proof.
  intros Hm E. apply (fix_content_changed _ Hm).
  rewrite E. symmetry. apply universal_newlines_id.
  rewrite <- E. apply fix_content_no_CR, universal_newlines_no_CR.
Qed.

(** * The specification, claim by claim *)

(** ** [fix_file] *)

(** C6. For a path that is not on disk, [fix_file] prints the "File not
    found" line for it, returns [False], and leaves every file as it was:
    no backup appears and nothing is written. *)
Theorem fix_file_not_found (filepath : string) (w : world) :
  files w !! filepath = None ->
  exists w',
    fix_file filepath w = Some (false, w') /\
    stdout w' = (stdout w ++ [msg_fixing filepath;
                              ("  ⚠️  File not found: " ++ filepath)%string])%list /\
    files w' = files w /\
    files w' !! (filepath ++ ".bak") = files w !! (filepath ++ ".bak") /\
    writes w' = writes w.
Proof.
  intros H. exists (after_missing filepath w).
  split; [now apply fix_file_missing |]. repeat split.
Qed.

Lemma fix_file_not_found_witness :
  files (World ∅ [] []) !! "src/ticker.service.ts" = None /\
  exists w',
    fix_file "src/ticker.service.ts" (World ∅ [] []) = Some (false, w') /\
    stdout w' = ([] ++ [msg_fixing "src/ticker.service.ts";
                        ("  ⚠️  File not found: " ++ "src/ticker.service.ts")%string])%list /\
    files w' = ∅ /\
    files w' !! ("src/ticker.service.ts" ++ ".bak") =
      (∅ : gmap string string) !! ("src/ticker.service.ts" ++ ".bak") /\
    writes w' = [].
Proof.
  split; [reflexivity |].
  apply (fix_file_not_found "src/ticker.service.ts" (World ∅ [] [])).
  reflexivity.
Defined.

(** C7. For a file that exists and in whose text, as [fix_file] reads it,
    none of the four patterns matches, [fix_file] returns [False], leaves
    the file, byte for byte, and every other file as they were, creates
    no backup and writes nothing. *)
Theorem fix_file_no_match (filepath : string) (w : world) (data : string) :
  files w !! filepath = Some data ->
  matches_any (universal_newlines data) = false ->
  exists w',
    fix_file filepath w = Some (false, w') /\
    files w' !! filepath = Some data /\
    files w' !! (filepath ++ ".bak") = files w !! (filepath ++ ".bak") /\
    files w' = files w /\
    writes w' = writes w /\
    stdout w' = (stdout w ++ [msg_fixing filepath; msg_no_changes])%list.
Proof.
  intros H Hm. exists (after_unchanged filepath w).
  rewrite (fix_file_present _ _ _ H), (fix_content_unchanged _ Hm), String.eqb_refl.
  repeat split. exact H.
Qed.

Lemma fix_file_no_match_witness :
  let w := World {[ "a.ts" := "import { x } from './types';" ]} [] [] in
  (files w !! "a.ts" = Some "import { x } from './types';" /\
   matches_any (universal_newlines "import { x } from './types';") = false) /\
  exists w',
    fix_file "a.ts" w = Some (false, w') /\
    files w' !! "a.ts" = Some "import { x } from './types';" /\
    files w' !! ("a.ts" ++ ".bak") = files w !! ("a.ts" ++ ".bak") /\
    files w' = files w /\
    writes w' = writes w /\
    stdout w' = (stdout w ++ [msg_fixing "a.ts"; msg_no_changes])%list.
Proof.
  intros w. split; [split; reflexivity |].
  apply (fix_file_no_match "a.ts" w "import { x } from './types';");
    reflexivity.
Defined.

(** C2, as stated, fails twice on this file, whose first line ends in a
    carriage return and a line feed.  The file is read in text mode, so
    the backup holds the text with the line ending translated, which is
    not what the file held.  And the symbol list of rule 1 takes line
    feeds, so the import matched runs over two lines, only the first of
    which is commented; the second line is an import of rule 1 that stays
    active in the rewritten file. *)
Lemma fix_file_leaves_active_import :
  let data := "import { a," ++ CR ++ LF ++
              "import { Foo } from '@/modules/exchanges';" in
  let w := World {[ "a.ts" := data ]} [] [] in
  matches_any (universal_newlines data) = true /\
  exists w' backup content',
    fix_file "a.ts" w = Some (true, w') /\
    files w' !! "a.ts.bak" = Some backup /\
    backup = "import { a," ++ LF ++ "import { Foo } from '@/modules/exchanges';" /\
    backup <> data /\
    files w' !! "a.ts" = Some content' /\
    lines content' = [ "// Module not yet implemented";
                       "// import { a,";
                       "import { Foo } from '@/modules/exchanges';" ] /\
    active_import content' = true.
Proof.
  intros data w. split; [vm_compute; reflexivity |].
  exists (after_fixed "a.ts" w (universal_newlines data)),
         (universal_newlines data), (fix_content (universal_newlines data)).
  split; [vm_compute; reflexivity |]. split; [vm_compute; reflexivity |].
  split; [vm_compute; reflexivity |]. split; [discriminate |].
  split; [vm_compute; reflexivity |].
  split; vm_compute; reflexivity.
Qed.

(** C2, amended. For a file that exists and in whose text, as it is read,
    a pattern matches, [fix_file] returns [True] and writes first the
    backup, then the file.  The backup holds the text read, which is the
    file byte for byte exactly when the file holds no carriage return;
    the file gets a new text, which differs from the text read and from
    what the file held; and when no import matched by rules 1 and 2 spans
    several lines, no rule matches the new text at a position that is
    not commented. *)
Theorem fix_file_match (filepath : string) (w : world) (data : string) :
  files w !! filepath = Some data ->
  matches_any (universal_newlines data) = true ->
  exists w',
    fix_file filepath w = Some (true, w') /\
    writes w' = (writes w ++ [((filepath ++ ".bak")%string, universal_newlines data);
                              (filepath, fix_content (universal_newlines data))])%list /\
    files w' !! (filepath ++ ".bak") = Some (universal_newlines data) /\
    (universal_newlines data = data <-> mem_char CRc data = false) /\
    files w' !! filepath = Some (fix_content (universal_newlines data)) /\
    fix_content (universal_newlines data) <> universal_newlines data /\
    fix_content (universal_newlines data) <> data /\
    (single_line_imports (universal_newlines data) = true ->
     active_import (fix_content (universal_newlines data)) = false).
Proof.
  intros H Hm. exists (after_fixed filepath w (universal_newlines data)).
  destruct (fix_file_rewrites _ _ _ H Hm) as [H1 [H2 [H3 H4]]].
  split; [exact H1 |]. split; [exact H2 |]. split; [exact H3 |].
  split; [apply universal_newlines_fixed |].
  split; [exact H4 |]. split; [now apply fix_content_changed |].
  split; [now apply fix_content_not_data |].
  intros Hs. unfold active_import.
  now rewrite (no_active_1 _ Hs), (no_active_2 _ Hs), no_active_3, no_active_4.
Qed.

Lemma fix_file_match_witness :
  let content := "import { A, B } from '@/modules/exchanges';" ++ LF ++
                 "import type { T } from '@/modules/exchanges';" in
  let w := World {[ "a.ts" := content ]} [] [] in
  (files w !! "a.ts" = Some content /\
   matches_any (universal_newlines content) = true /\
   single_line_imports (universal_newlines content) = true) /\
  exists w',
    fix_file "a.ts" w = Some (true, w') /\
    files w' !! "a.ts.bak" = Some content /\
    files w' !! "a.ts" = Some (fix_content content) /\
    fix_content content <> content /\
    active_import (fix_content content) = false.
Proof.
  intros content w.
  assert (H0 : files w !! "a.ts" = Some content) by (vm_compute; reflexivity).
  assert (Hm : matches_any (universal_newlines content) = true)
    by (vm_compute; reflexivity).
  assert (Hs : single_line_imports (universal_newlines content) = true)
    by (vm_compute; reflexivity).
  split; [exact (conj H0 (conj Hm Hs)) |].
  destruct (fix_file_match "a.ts" w content H0 Hm)
    as [w' [H1 [_ [H2 [_ [H3 [H4 [_ H5]]]]]]]].
  exists w'. exact (conj H1 (conj H2 (conj H3 (conj H4 (H5 Hs))))).
Defined.

(** C1. The claim fails on the code: the patterns are not anchored, so
    they match the import again behind its [//].  Whenever a pattern
    matched in the text read from a file, a second run over the file the
    first run rewrote finds a match again, returns [True] once more,
    changes the text once more, and overwrites the backup with the text
    of the first run. *)
Theorem fix_file_rerun_changes_again (filepath : string) (w : world)
    (data : string) :
  files w !! filepath = Some data ->
  matches_any (universal_newlines data) = true ->
  exists w1 w2,
    fix_file filepath w = Some (true, w1) /\
    files w1 !! filepath = Some (fix_content (universal_newlines data)) /\
    files w1 !! (filepath ++ ".bak") = Some (universal_newlines data) /\
    matches_any (fix_content (universal_newlines data)) = true /\
    fix_file filepath w1 = Some (true, w2) /\
    files w2 !! filepath =
      Some (fix_content (fix_content (universal_newlines data))) /\
    files w2 !! (filepath ++ ".bak") = Some (fix_content (universal_newlines data)) /\
    fix_content (fix_content (universal_newlines data)) <>
      fix_content (universal_newlines data).
Proof.
  intros Hf Hm.
  destruct (fix_file_rewrites _ _ _ Hf Hm) as [H1 [_ [H2 H3]]].
  pose proof (fix_content_matches_again _ Hm) as Hm'.
  pose proof (fix_content_read_back data) as Hr.
  assert (Hm'' : matches_any (universal_newlines
                    (fix_content (universal_newlines data))) = true)
    by now rewrite Hr.
  destruct (fix_file_rewrites _ _ _ H3 Hm'') as [H4 [_ [H5 H6]]].
  rewrite Hr in H4, H5, H6.
  exists (after_fixed filepath w (universal_newlines data)),
    (after_fixed filepath (after_fixed filepath w (universal_newlines data))
       (fix_content (universal_newlines data))).
  split; [exact H1 |]. split; [exact H3 |]. split; [exact H2 |].
  split; [exact Hm' |]. split; [exact H4 |]. split; [exact H6 |].
  split; [exact H5 |]. now apply fix_content_changed.
Qed.

Lemma fix_file_rerun_changes_again_witness :
  let original := "import { Foo } from '@/modules/exchanges';" in
  let once := "// Module not yet implemented" ++ LF ++
              "// import { Foo } from '@/modules/exchanges';" in
  let twice := "// Module not yet implemented" ++ LF ++
               "// // Module not yet implemented" ++ LF ++
               "// import { Foo } from '@/modules/exchanges';" in
  let w0 := World {[ "a.ts" := original ]} [] [] in
  (files w0 !! "a.ts" = Some original /\
   matches_any (universal_newlines original) = true) /\
  (fix_content original = once /\ fix_content once = twice) /\
  exists w1 w2,
    fix_file "a.ts" w0 = Some (true, w1) /\
    files w1 !! "a.ts" = Some (fix_content original) /\
    files w1 !! ("a.ts" ++ ".bak") = Some original /\
    matches_any (fix_content original) = true /\
    fix_file "a.ts" w1 = Some (true, w2) /\
    files w2 !! "a.ts" = Some (fix_content (fix_content original)) /\
    files w2 !! ("a.ts" ++ ".bak") = Some (fix_content original) /\
    fix_content (fix_content original) <> fix_content original.
Proof.
  intros original once twice w0.
  assert (Hf : files w0 !! "a.ts" = Some original) by (vm_compute; reflexivity).
  assert (Hm : matches_any (universal_newlines original) = true)
    by (vm_compute; reflexivity).
  split; [exact (conj Hf Hm) |].
  split; [split; vm_compute; reflexivity |].
  exact (fix_file_rerun_changes_again "a.ts" w0 original Hf Hm).
Defined.

(** C3, as stated, fails: the replacement of rule 3 is a fixed text, so an
    import that climbs three directories is not kept; the file gets the
    import from [../../] in its place. *)
Lemma service_import_path_not_preserved :
  let import := "import { ExchangeService } from '../../../exchanges/services/exchange.service';" in
  import = service_import_from (up_dirs 3) /\
  fix_content import =
    "// Module not yet implemented" ++ LF ++
    "// import { ExchangeService } from '../../exchanges/services/exchange.service';" /\
  contains ("// " ++ import) (fix_content import) = false.
Proof.
  intros import. split; [reflexivity |]. split; vm_compute; reflexivity.
Qed.

(** C3, amended. Whatever the text around it and however many directories
    its relative path climbs, an import of [ExchangeService] from
    [exchanges/services/exchange.service] leaves in the text [fix_file]
    computes the "Module not yet implemented" line followed by the import
    from [../../exchanges/services/exchange.service] behind [// ]; that
    is the import itself exactly when it climbs two directories.  A file
    that holds only the import from [../../] becomes those two lines, and
    its backup holds the import. *)
Theorem service_import_commented (n : nat) (pre post : string)
    (filepath : string) (w : world) :
  1 <= n ->
  files w !! filepath = Some service_import ->
  (exists a b,
     fix_content (pre ++ service_import_from (up_dirs n) ++ post) =
       a ++ ("// Module not yet implemented" ++ LF ++ "// " ++ service_import) ++ b) /\
  (service_import_from (up_dirs n) = service_import <-> n = 2) /\
  service_import_from (up_dirs 2) = service_import /\
  lines (fix_content service_import) =
    ["// Module not yet implemented"; "// " ++ service_import] /\
  exists w',
    fix_file filepath w = Some (true, w') /\
    files w' !! filepath =
      Some ("// Module not yet implemented" ++ LF ++ "// " ++ service_import) /\
    files w' !! (filepath ++ ".bak") = Some service_import.
Proof.
  intros Hn Hf. split; [now apply fix_content_service |].
  split.
  { rewrite <- up_dirs_two. split; [| now intros ->].
    change service_import with (service_import_from (up_dirs 2)).
    unfold service_import_from. intros H.
    apply app_inv_head_s in H. now apply app_inv_tail_s in H. }
  split; [reflexivity |]. split; [vm_compute; reflexivity |].
  assert (Hr : universal_newlines service_import = service_import)
    by (vm_compute; reflexivity).
  assert (Hm : matches_any (universal_newlines service_import) = true)
    by (vm_compute; reflexivity).
  destruct (fix_file_rewrites _ _ _ Hf Hm) as [H1 [_ [H2 H3]]].
  rewrite Hr in H1, H2, H3.
  exists (after_fixed filepath w service_import).
  split; [exact H1 |]. split; [| exact H2].
  rewrite H3. vm_compute. reflexivity.
Qed.

Lemma service_import_commented_witness :
  let w := World {[ "copy-trading.service.ts" := service_import ]} [] [] in
  (1 <= 3 /\ files w !! "copy-trading.service.ts" = Some service_import) /\
  (exists a b,
     fix_content ("const a = 1;" ++ service_import_from (up_dirs 3) ++ LF) =
       a ++ ("// Module not yet implemented" ++ LF ++ "// " ++ service_import) ++ b) /\
  service_import_from (up_dirs 3) <> service_import /\
  exists w',
    fix_file "copy-trading.service.ts" w = Some (true, w') /\
    files w' !! "copy-trading.service.ts" =
      Some ("// Module not yet implemented" ++ LF ++ "// " ++ service_import) /\
    files w' !! ("copy-trading.service.ts" ++ ".bak") = Some service_import.
Proof.
  intros w.
  assert (Hn : 1 <= 3) by lia.
  assert (Hf : files w !! "copy-trading.service.ts" = Some service_import)
    by (vm_compute; reflexivity).
  split; [exact (conj Hn Hf) |].
  destruct (service_import_commented 3 "const a = 1;" LF
              "copy-trading.service.ts" w Hn Hf) as [H1 [H2 [_ [_ H3]]]].
  split; [exact H1 |]. split; [| exact H3].
  intros E. apply H2 in E. discriminate.
Defined.

(** C5, as stated, fails: when the statement stands inside the braces of
    an import before it, rule 1 matches from that import on and the
    statement is not commented by itself. *)
Lemma symbol_list_statement_swallowed :
  let input := "import { a, " ++ "import { Foo, Bar } from '@/modules/exchanges';" in
  fix_content input =
    "// Module not yet implemented" ++ LF ++
    "// import { a, import { Foo, Bar } from '@/modules/exchanges';" /\
  contains "// import { Foo, Bar } from '@/modules/exchanges';" (fix_content input)
    = false.
Proof. intros input. split; vm_compute; reflexivity. Qed.

(** C5, amended. Whatever the text after it, and whatever the text before
    it that does not end inside the braces of an [import { ] (an
    [import { ] with no closing brace after it), the statement
    [import { Foo, Bar } from '@/modules/exchanges';] leaves in the text
    [fix_file] computes the explanatory comment line followed by
    [// import { Foo, Bar } from '@/modules/exchanges';], the symbol list
    as it was written. *)
Theorem symbol_list_preserved (pre post : string) :
  opened "import { " pre = false ->
  exists a b,
    fix_content (pre ++ "import { Foo, Bar } from '@/modules/exchanges';" ++ post) =
      a ++ ("// Module not yet implemented" ++ LF ++
            "// import { Foo, Bar } from '@/modules/exchanges';") ++ b.
Proof. apply fix_content_foo_bar. Qed.

Lemma symbol_list_preserved_witness :
  opened "import { " ("import { x } from './y';" ++ LF) = false /\
  exists a b,
    fix_content (("import { x } from './y';" ++ LF) ++
                 "import { Foo, Bar } from '@/modules/exchanges';" ++ LF) =
      a ++ ("// Module not yet implemented" ++ LF ++
            "// import { Foo, Bar } from '@/modules/exchanges';") ++ b.
Proof.
  assert (H : opened "import { " ("import { x } from './y';" ++ LF) = false)
    by (vm_compute; reflexivity).
  split; [exact H |].
  exact (symbol_list_preserved ("import { x } from './y';" ++ LF) LF H).
Defined.




(** ** [fix_special_cases] *)

Section Rerun.

Lemma rerun_files n w fs :
  files w = special_files fs ->
  exists wn, rerun n w = Some wn /\ files wn = special_files fs.
Proof.
  revert w. induction n as [|n IH]; intros w H.
  - now exists w.
  - cbn [rerun]. rewrite fix_special_cases_run. apply IH.
    now rewrite special_world_files, H, special_files_idempotent.
Qed.

Lemma patch_world_applies filepath patch msg w data s' :
  files w !! filepath = Some data -> patch (universal_newlines data) = Some s' ->
  patch_world filepath patch msg w =
    World (<[filepath := s']> (files w)) (stdout w ++ [msg])
          (writes w ++ [(filepath, s')]).
Proof. intros H1 H2. unfold patch_world. now rewrite H1, H2. Qed.

(** A fix leaves the world as it is, or writes the file and reports. *)
Lemma patch_world_cases filepath patch msg w :
  patch_world filepath patch msg w = w \/
  exists data s',
    files w !! filepath = Some data /\ patch (universal_newlines data) = Some s' /\
    patch_world filepath patch msg w =
      World (<[filepath := s']> (files w)) (stdout w ++ [msg])
            (writes w ++ [(filepath, s')]).
Proof.
  unfold patch_world. destruct (files w !! filepath) as [data|]; [| now left].
  destruct (patch (universal_newlines data)) as [s'|] eqn:E; [| now left].
  right. now exists data, s'.
Qed.

(** The call survives fix 1, so fix 3 replaces it. *)
Lemma patchA_keeps_call s :
  contains call_old s = true -> contains call_old (patched patchA s) = true.
Proof.
  intros H. unfold patched, patchA.
  destruct (contains types_marker s && negb (contains types_added s));
    [now apply types_replace_keeps_call | exact H].
Qed.

Lemma manager_after_call s :
  contains call_old s = true ->
  manager_after s = str_replace call_old call_new (patched patchA s) /\
  contains call_new (manager_after s) = true.
Proof.
  intros H. pose proof (patchA_keeps_call s H) as Hu.
  assert (E : manager_after s = str_replace call_old call_new (patched patchA s)).
  { unfold manager_after. unfold patched at 1. unfold patchC.
    now rewrite (contains_trans call_marker call_old _ eq_refl Hu). }
  split; [exact E |]. rewrite E, call_old_cons. apply replace_writes.
  now rewrite <- call_old_cons.
Qed.

(** On the text fix 3 leaves, its guard holds again and its replace finds
    nothing: the fix is entered and gives the text back. *)
Lemma patchC_entered_again s s' : patchC s = Some s' -> patchC s' = Some s'.
Proof.
  unfold patchC at 1. destruct (contains call_marker s) eqn:G; [| discriminate].
  intros [= <-]. destruct (contains call_old s) eqn:E.
  - unfold patchC.
    rewrite (contains_trans call_marker call_new _ eq_refl).
    + f_equal. apply call_replace_idempotent.
    + rewrite call_old_cons. apply replace_writes. now rewrite <- call_old_cons.
  - assert (R : str_replace call_old call_new s = s)
      by (rewrite call_old_cons; apply replace_none; now rewrite <- call_old_cons).
    rewrite R. unfold patchC. now rewrite G, R.
Qed.



(** Fix 2 is not entered on a text it has left. *)
Lemma patchB_after s : patchB (patched patchB s) = None.
Proof.
  unfold patched. destruct (patchB s) as [s'|] eqn:E; [| exact E].
  exact (patchB_once _ _ E).
Qed.

(** On the files a run has left, every later run enters fix 3 again when
    the first run entered it: after what fix 1 may write and print, the
    run writes the manager once more, with the text it has, and prints
    the message of fix 3 once more. *)
Lemma patchC_runs_again fs data wn :
  fs !! manager_ts = Some data ->
  contains call_marker (patched patchA (universal_newlines data)) = true ->
  files wn = special_files fs ->
  files wn !! manager_ts = Some (manager_after (universal_newlines data)) /\
  patchC (manager_after (universal_newlines data)) =
    Some (manager_after (universal_newlines data)) /\
  exists lines ws,
    (lines = [] /\ ws = [] \/
     lines = [msg_patchA] /\
     ws = [(manager_ts, manager_after (universal_newlines data))]) /\
    stdout (special_world wn) = (stdout wn ++ lines ++ [msg_patchC])%list /\
    writes (special_world wn) =
      (writes wn ++ ws ++
       [(manager_ts, manager_after (universal_newlines data))])%list.
Proof.
  intros Hf HC Hn. set (t := manager_after (universal_newlines data)).
  assert (EC : patchC (patched patchA (universal_newlines data)) = Some t).
  { unfold t, manager_after. unfold patched at 2. unfold patchC. now rewrite HC. }
  assert (Ht : files wn !! manager_ts = Some t).
  { rewrite Hn, special_files_manager, Hf. cbn. f_equal.
    destruct (manager_file_cases data) as [[HA [HC' _]]|H]; [| exact H].
    unfold patched in EC. rewrite HA in EC. congruence. }
  assert (Hagain : patchC t = Some t) by exact (patchC_entered_again _ _ EC).
  assert (Hr : universal_newlines t = t)
    by apply universal_newlines_id, manager_after_no_CR, universal_newlines_no_CR.
  split; [exact Ht |]. split; [exact Hagain |].
  set (wA := patch_world manager_ts patchA msg_patchA wn).
  assert (HA : exists lines ws,
            (lines = [] /\ ws = [] \/ lines = [msg_patchA] /\ ws = [(manager_ts, t)]) /\
            files wA !! manager_ts = Some t /\
            files wA !! pipeline_ts = files wn !! pipeline_ts /\
            stdout wA = (stdout wn ++ lines)%list /\
            writes wA = (writes wn ++ ws)%list).
  { destruct (patch_world_cases manager_ts patchA msg_patchA wn)
      as [E|[d [s' [Hd [Hp E]]]]]; fold wA in E; rewrite E.
    - exists [], []. rewrite !app_nil_r. auto.
    - rewrite Ht in Hd. injection Hd as <-. rewrite Hr in Hp.
      pose proof (patchA_after_manager (universal_newlines data)) as Hs.
      fold t in Hs. unfold patched in Hs. rewrite Hp in Hs. subst s'.
      exists [msg_patchA], [(manager_ts, t)]. cbn [files stdout writes].
      split; [now right |]. split; [apply lookup_insert_eq |].
      split; [| auto].
      apply lookup_insert_ne. intros E'. symmetry in E'.
      now apply manager_not_pipeline. }
  destruct HA as [lines [ws [Hcases [HAm [HAp [HAo HAw]]]]]].
  assert (HB : patch_world pipeline_ts patchB msg_patchB wA = wA).
  { unfold patch_world. rewrite HAp, Hn, special_files_pipeline.
    destruct (fs !! pipeline_ts) as [d|]; [| reflexivity]. cbn.
    now rewrite pipeline_file_read, patchB_after. }
  exists lines, ws. split; [exact Hcases |].
  unfold special_world. fold wA. rewrite HB.
  rewrite (patch_world_applies _ _ _ _ t t HAm) by now rewrite Hr.
  cbn [stdout writes]. rewrite HAo, HAw. now rewrite <- !app_assoc.
Qed.

End Rerun.




(** C9. When the call of fix 3 is in the text of the manager, one run
    replaces it, and the text the run leaves still holds the guard text,
    inside the commented call.  On every later run fix 3 is entered
    again: its guard holds and its replace finds no target, and after
    what fix 1 may write and print, the run writes the file once more,
    with the text it has, and prints the message of fix 3 once more; the
    files are left as the first run left them. *)
Theorem patchC_reentered (w : world) (data : string) (n : nat) :
  files w !! manager_ts = Some data ->
  contains call_old (universal_newlines data) = true ->
  exists w1 t,
    fix_special_cases w = Some (tt, w1) /\
    files w1 !! manager_ts = Some t /\
    contains "    // return createWebSocketAdapter(exchangeId, config);" t = true /\
    contains "return createWebSocketAdapter(exchangeId, config);" t = true /\
    contains call_old t = false /\
    str_replace call_old call_new t = t /\
    patchC t = Some t /\
    exists wn wn',
      rerun n w1 = Some wn /\
      fix_special_cases wn = Some (tt, wn') /\
      files wn' = files w1 /\
      (exists lines ws,
         (lines = [] /\ ws = [] \/
          lines = [msg_patchA] /\ ws = [(manager_ts, t)]) /\
         stdout wn' = (stdout wn ++ lines ++ [msg_patchC])%list /\
         writes wn' = (writes wn ++ ws ++ [(manager_ts, t)])%list) /\
      last (writes wn') = Some (manager_ts, t) /\
      last (stdout wn') = Some msg_patchC.
Proof.
  intros Hf Hs. set (s := universal_newlines data) in *.
  exists (special_world w), (manager_after s).
  destruct (manager_after_call s Hs) as [E Hn].
  assert (HC : contains call_marker (patched patchA s) = true)
    by (apply (contains_trans _ call_old); [reflexivity | now apply patchA_keeps_call]).
  assert (Hclean : contains call_old (manager_after s) = false)
    by (rewrite E; apply call_replace_clean).
  destruct (patchC_runs_again (files w) data (special_world w) Hf HC
              (special_world_files w)) as [Ht [Hagain _]].
  split; [apply fix_special_cases_run |]. split; [exact Ht |].
  split; [apply (contains_trans _ call_new); [reflexivity | exact Hn] |].
  split; [apply (contains_trans _ call_new); [reflexivity | exact Hn] |].
  split; [exact Hclean |].
  split; [rewrite call_old_cons; apply replace_none; now rewrite <- call_old_cons |].
  split; [exact Hagain |].
  destruct (rerun_files n (special_world w) (files w) (special_world_files w))
    as [wn [Hrun Hfn]].
  exists wn, (special_world wn).
  split; [exact Hrun |]. split; [apply fix_special_cases_run |].
  split; [now rewrite !special_world_files, Hfn, special_files_idempotent |].
  destruct (patchC_runs_again (files w) data wn Hf HC Hfn)
    as [_ [_ [lines [ws [Hcases [Ho Hw]]]]]].
  fold s in Hcases, Ho, Hw.
  split; [now exists lines, ws |].
  rewrite Ho, Hw, !app_assoc. now rewrite !last_snoc.
Qed.

Lemma patchC_reentered_witness :
  let w := World {[ manager_ts := call_old ]} [] [] in
  (files w !! manager_ts = Some call_old /\
   contains call_old (universal_newlines call_old) = true) /\
  exists w1 t,
    fix_special_cases w = Some (tt, w1) /\
    files w1 !! manager_ts = Some t /\
    contains "    // return createWebSocketAdapter(exchangeId, config);" t = true /\
    contains "return createWebSocketAdapter(exchangeId, config);" t = true /\
    contains call_old t = false /\
    str_replace call_old call_new t = t /\
    patchC t = Some t /\
    exists wn wn',
      rerun 2 w1 = Some wn /\
      fix_special_cases wn = Some (tt, wn') /\
      files wn' = files w1 /\
      (exists lines ws,
         (lines = [] /\ ws = [] \/
          lines = [msg_patchA] /\ ws = [(manager_ts, t)]) /\
         stdout wn' = (stdout wn ++ lines ++ [msg_patchC])%list /\
         writes wn' = (writes wn ++ ws ++ [(manager_ts, t)])%list) /\
      last (writes wn') = Some (manager_ts, t) /\
      last (stdout wn') = Some msg_patchC.
Proof.
  intros w.
  assert (H1 : files w !! manager_ts = Some call_old) by (vm_compute; reflexivity).
  assert (H2 : contains call_old (universal_newlines call_old) = true)
    by (vm_compute; reflexivity).
  split; [exact (conj H1 H2) |].
  exact (patchC_reentered w call_old 2 H1 H2).
Defined.

(** ** [main] *)

Lemma main_unfold w :
  main w =
    match fix_all FILES_TO_FIX 0 (header w) with
    | Some (n, w1) =>
        match fix_special_cases (before_special w1) with
        | Some (_, w2) => Some (tt, footer n w2)
        | None => None
        end
    | None => None
    end.
Proof.
  unfold main, bind, print, header, before_special, footer.
  cbn [files stdout writes]. rewrite <- !app_assoc. cbn [app].
  destruct (fix_all FILES_TO_FIX 0 _) as [[n w1]|]; [| reflexivity].
  cbn [files stdout writes]. rewrite <- !app_assoc. cbn [app].
  destruct (fix_special_cases _) as [[[] w2]|]; [| reflexivity].
  cbn [files stdout writes]. now rewrite <- !app_assoc.
Qed.

Lemma files_to_fix_independent : independent FILES_TO_FIX = true.
Proof. vm_compute. reflexivity. Qed.

(** C8. [main] never raises, whatever files are missing.  After the
    banner it calls [fix_file] on every path of the list, in the order of
    the list: the lines printed are, path after path, the "Fixing" line
    and the outcome of that file, "File not found" included; each call
    sees its file as it was before the run and leaves it rewritten when
    the rules change the text read from it, and as it was when they do
    not.  The counter is the number of calls that returned [True], which
    is the number of files that were there and changed.  Then
    [fix_special_cases] runs, and the summary printed last carries that
    counter. *)
Theorem main_runs (w : world) :
  exists n w1 w2,
    fix_all FILES_TO_FIX 0 (header w) = Some (n, w1) /\
    n = count_true (loop_returns FILES_TO_FIX (header w)) /\
    loop_returns FILES_TO_FIX (header w) =
      map (changed_at (files w)) FILES_TO_FIX /\
    stdout w1 =
      (stdout w ++ [banner; "Fixing exchanges module imports"; banner; ""] ++
       concat (map (report (files w)) FILES_TO_FIX))%list /\
    map (fun p => files w1 !! p) FILES_TO_FIX =
      map (fun p => fixed <$> files w !! p) FILES_TO_FIX /\
    fix_special_cases (before_special w1) = Some (tt, w2) /\
    main w = Some (tt, footer n w2) /\
    stdout (footer n w2) =
      (stdout w2 ++ [""; banner; ("✅ Fixed " ++ show_nat n ++ " files")%string;
                     "Backup files created with .bak extension"; banner])%list.
Proof.
  destruct (fix_all_independent FILES_TO_FIX files_to_fix_independent 0 (header w))
    as [w1 [Hrun [Hret [Hout Hfiles]]]].
  exists (count_true (loop_returns FILES_TO_FIX (header w))), w1,
         (special_world (before_special w1)).
  split; [exact Hrun |]. split; [reflexivity |]. split; [exact Hret |].
  split; [rewrite Hout; cbn [header stdout files]; now rewrite <- app_assoc |].
  split; [apply map_ext_in; intros p Hp; now rewrite (Hfiles p Hp) |].
  split; [apply fix_special_cases_run |]. split; [| reflexivity].
  now rewrite main_unfold, Hrun, fix_special_cases_run.
Qed.

(** * Further properties of the three routines *)

(** ** [fix_file] on the file system *)

(** X1. [fix_file] never raises, and whatever it does to the file and to
    its backup, it leaves every other path as it was: no other file is
    created, removed or rewritten. *)
Theorem fix_file_other_paths (filepath q : string) (w : world) :
  q <> filepath -> q <> (filepath ++ ".bak")%string ->
  exists b w',
    fix_file filepath w = Some (b, w') /\ files w' !! q = files w !! q.
Proof.
  intros H1 H2.
  exists (fst (fix_file_world filepath w)), (snd (fix_file_world filepath w)).
  split; [rewrite fix_file_run; now destruct (fix_file_world filepath w) |].
  now apply fix_file_world_other.
Qed.

Lemma fix_file_other_paths_witness :
  let w := World {[ "a.ts" := "import { A } from '@/modules/exchanges';";
                    "b.ts" := "import { B } from '@/modules/exchanges';" ]} [] [] in
  ("b.ts" <> "a.ts" /\ "b.ts" <> ("a.ts" ++ ".bak")%string) /\
  exists b w',
    fix_file "a.ts" w = Some (b, w') /\ files w' !! "b.ts" = files w !! "b.ts".
Proof.
  intros w.
  assert (H1 : "b.ts" <> "a.ts") by discriminate.
  assert (H2 : "b.ts" <> ("a.ts" ++ ".bak")%string) by discriminate.
  split; [exact (conj H1 H2) |].
  exact (fix_file_other_paths "a.ts" "b.ts" w H1 H2).
Defined.

(** X2. The value [fix_file] returns tells what it did.  It returns
    [True] only for a file that was there and in whose text, as it is
    read, a pattern matches: the rules change that text, and the backup,
    with the text read, and the file, with the new text, have been
    written, in that order.  It returns [False] only when it wrote
    nothing: every file is as it was. *)
Theorem fix_file_return_value (filepath : string) (w : world) :
  exists b w',
    fix_file filepath w = Some (b, w') /\
    if b then
      exists data,
        files w !! filepath = Some data /\
        matches_any (universal_newlines data) = true /\
        fix_content (universal_newlines data) <> universal_newlines data /\
        files w' = <[filepath := fix_content (universal_newlines data)]>
                     (<[(filepath ++ ".bak")%string := universal_newlines data]>
                        (files w)) /\
        writes w' = (writes w ++
                     [((filepath ++ ".bak")%string, universal_newlines data);
                      (filepath, fix_content (universal_newlines data))])%list
    else files w' = files w /\ writes w' = writes w.
Proof.
  destruct (files w !! filepath) as [data|] eqn:E.
  - rewrite (fix_file_present _ _ _ E). set (content := universal_newlines data).
    destruct (String.eqb_spec (fix_content content) content) as [Hc|Hc].
    + exists false, (after_unchanged filepath w). now repeat split.
    + exists true, (after_fixed filepath w content).
      split; [reflexivity |]. exists data. split; [reflexivity |].
      split; [| now repeat split].
      change (matches_any content = true).
      destruct (matches_any content) eqn:Hm; [reflexivity |].
      now apply fix_content_unchanged in Hm.
  - exists false, (after_missing filepath w).
    rewrite (fix_file_missing _ _ E). now repeat split.
Qed.

(** ** The name [fix_file] prints *)

Section Basename.

Lemma basename_acc_no_slash cur s :
  mem_char "/" s = false -> basename_acc cur s = String.rev_app cur s.
Proof.
  revert cur. induction s as [|a s IH]; intros cur H; [reflexivity |].
  cbn [mem_char] in H. apply orb_false_iff in H as [Ha Hs].
  cbn [basename_acc]. rewrite Ha. now rewrite IH.
Qed.

Lemma basename_acc_app cur dir name :
  basename_acc cur (dir ++ "/" ++ name) = basename_acc "" name.
Proof.
  revert cur. induction dir as [|a dir IH]; intros cur; [reflexivity |].
  cbn [String.append basename_acc]. now destruct (Ascii.eqb a "/").
Qed.

Lemma basename_app dir name :
  mem_char "/" name = false -> basename (dir ++ "/" ++ name) = name.
Proof.
  intros H. unfold basename. rewrite basename_acc_app.
  now rewrite basename_acc_no_slash.
Qed.

End Basename.

(** X3. [fix_file] names the file by the last component of its path.
    For a path [dir/name], [name] without slash, it prints two lines:
    [Fixing name...], then the outcome, which is the line of the backup
    [name.bak] when it returns [True], and else either "No changes
    needed" or "File not found" followed by the whole path. *)
Theorem fix_file_prints_the_name (dir name : string) (w : world) :
  mem_char "/" name = false ->
  exists b w' outcome,
    fix_file (dir ++ "/" ++ name) w = Some (b, w') /\
    stdout w' = (stdout w ++ [("Fixing " ++ name ++ "...")%string; outcome])%list /\
    if b then outcome = ("  ✅ Fixed and backed up to " ++ name ++ ".bak")%string
    else outcome = "  ℹ️  No changes needed" \/
         outcome = ("  ⚠️  File not found: " ++ dir ++ "/" ++ name)%string.
Proof.
  intros H. set (filepath := dir ++ "/" ++ name).
  assert (Hb : basename filepath = name) by now apply basename_app.
  destruct (files w !! filepath) as [data|] eqn:E.
  - rewrite (fix_file_present _ _ _ E). set (content := universal_newlines data).
    destruct (String.eqb (fix_content content) content).
    + exists false, (after_unchanged filepath w), msg_no_changes.
      split; [reflexivity |]. cbn [after_unchanged stdout].
      unfold msg_fixing. rewrite Hb. split; [reflexivity | now left].
    + exists true, (after_fixed filepath w content), (msg_fixed filepath).
      split; [reflexivity |]. cbn [after_fixed stdout].
      unfold msg_fixing, msg_fixed. rewrite Hb. now split.
  - rewrite (fix_file_missing _ _ E).
    exists false, (after_missing filepath w), (msg_not_found filepath).
    split; [reflexivity |]. cbn [after_missing stdout].
    unfold msg_fixing. rewrite Hb. split; [reflexivity | now right].
Qed.

Lemma fix_file_prints_the_name_witness :
  let w := World {[ "src/modules/orders/order.service.ts" :=
                      "import { A } from '@/modules/exchanges';" ]} [] [] in
  mem_char "/" "order.service.ts" = false /\
  exists b w' outcome,
    fix_file ("src/modules/orders" ++ "/" ++ "order.service.ts") w = Some (b, w') /\
    stdout w' = (stdout w ++ [("Fixing " ++ "order.service.ts" ++ "...")%string;
                              outcome])%list /\
    if b then outcome = ("  ✅ Fixed and backed up to " ++ "order.service.ts" ++
                         ".bak")%string
    else outcome = "  ℹ️  No changes needed" \/
         outcome = ("  ⚠️  File not found: " ++ "src/modules/orders" ++ "/" ++
                    "order.service.ts")%string.
Proof.
  intros w.
  assert (H : mem_char "/" "order.service.ts" = false) by reflexivity.
  split; [exact H |].
  exact (fix_file_prints_the_name "src/modules/orders" "order.service.ts" w H).
Defined.

(** ** The text [fix_file] computes *)

Lemma lines_length s : List.length (lines s) = S (count_char LFc s).
Proof.
  induction s as [|a s IH]; [reflexivity |].
  cbn [lines count_char]. destruct (Ascii.eqb a LFc).
  - cbn [List.length]. now rewrite IH.
  - destruct (lines s) as [|l ls]; [discriminate |].
    cbn [List.length] in *. now rewrite IH.
Qed.

(** X4. The rules never remove a line: the text [fix_file] computes has at
    least the lines the file had, and strictly more of them whenever it
    is not the text of the file. *)
Theorem fix_content_keeps_line_count (s : string) :
  List.length (lines s) <= List.length (lines (fix_content s)) /\
  (fix_content s = s \/
   List.length (lines s) < List.length (lines (fix_content s))).
Proof.
  rewrite !lines_length. destruct (matches_any s) eqn:Hm.
  - apply fix_content_more_lines in Hm. split; [| right]; lia.
  - rewrite (fix_content_unchanged _ Hm). split; [lia | now left].
Qed.

Section Shapes.

Lemma named_hits_shape head s :
  hits (named_matcher head) s <->
  exists pre X post,
    s = pre ++ (head ++ X ++ from_exchanges) ++ post /\
    X <> "" /\ mem_char "}" X = false.
Proof.
  split.
  - intros [a [b [-> Hm]]].
    destruct (named_matcher head b) as [[r n]|] eqn:E; [| congruence].
    destruct (sub_matcher_prefix_length _ _ _ _ _ E) as [t [rest [-> <-]]].
    apply named_matcher_view in E as [X [-> [Hne [HX _]]]].
    now exists a, X, rest.
  - intros [pre [X [post [-> [Hne HX]]]]].
    exists pre, ((head ++ X ++ from_exchanges) ++ post). split; [reflexivity |].
    now rewrite named_matcher_intro.
Qed.

Lemma relative_hits_shape head tail import s :
  hits (relative_matcher head tail import) s <->
  exists pre y post,
    s = pre ++ (head ++ y ++ tail) ++ post /\ mem_char LFc y = false.
Proof.
  split.
  - intros [a [b [-> Hm]]].
    destruct (relative_matcher head tail import b) as [[r n]|] eqn:E; [| congruence].
    destruct (sub_matcher_prefix_length _ _ _ _ _ E) as [t [rest [-> <-]]].
    apply relative_matcher_view in E as [y [-> [Hy _]]].
    now exists a, y, rest.
  - intros [pre [y [post [-> Hy]]]].
    exists pre, ((head ++ y ++ tail) ++ post). split; [reflexivity |].
    rewrite !app_assoc_s. now apply relative_matcher_hits.
Qed.

Lemma matches_any_changed s : matches_any s = true <-> fix_content s <> s.
Proof.
  split; [apply fix_content_changed |].
  intros H. destruct (matches_any s) eqn:Hm; [reflexivity |].
  now apply fix_content_unchanged in Hm.
Qed.

End Shapes.

(** X5. The rules change a text exactly when it holds, anywhere and
    commented or not, a text of one of four shapes: [import { X } from
    '@/modules/exchanges';] or the same with [import type], for a symbol
    list [X] that is not empty and has no closing brace, or the import of
    [ExchangeService] or of [exchangeConnections] from a path that opens
    with two dots and ends with the service or the schema file, written
    on one line. *)
Theorem fix_content_changes_iff (s : string) :
  fix_content s <> s <->
  exists pre t post, s = pre ++ t ++ post /\ rule_shape t.
Proof.
  rewrite <- matches_any_changed. unfold matches_any.
  rewrite !orb_true_iff, search1_hits, search2_hits, search3_hits, search4_hits.
  unfold m1, m2, m3, m4. rewrite !named_hits_shape, !relative_hits_shape.
  unfold rule_shape. split.
  - intros [[[H|H]|H]|H].
    + destruct H as [pre [X [post [-> [Hne HX]]]]].
      exists pre, ("import { " ++ X ++ from_exchanges), post.
      split; [reflexivity |]. left. exists X. auto.
    + destruct H as [pre [X [post [-> [Hne HX]]]]].
      exists pre, ("import type { " ++ X ++ from_exchanges), post.
      split; [reflexivity |]. left. exists X. auto.
    + destruct H as [pre [y [post [-> Hy]]]].
      eexists pre, _, post. split; [reflexivity |]. right. exists y. auto.
    + destruct H as [pre [y [post [-> Hy]]]].
      eexists pre, _, post. split; [reflexivity |]. right. exists y. auto.
  - intros [pre [t [post [-> [[X [Hne [HX [->| ->]]]]|[y [Hy [->| ->]]]]]]]].
    + left. left. left. now exists pre, X, post.
    + left. left. right. now exists pre, X, post.
    + left. right. now exists pre, y, post.
    + right. now exists pre, y, post.
Qed.

(** X6. Rules 1 and 2 delete nothing and alter nothing: what they make
    of a text is the text itself with copies of the comment line and of
    the [// ] that opens the next line inserted, so every character of the
    file is still there, in its order, and the text grew by a multiple of
    33 characters. *)
Theorem named_rules_only_insert (s : string) :
  insertions ("// Module not yet implemented" ++ LF ++ "// ") s (sub2 (sub1 s)) /\
  exists k, String.length (sub2 (sub1 s)) = String.length s + k * 33.
Proof.
  assert (H : insertions (not_implemented ++ LF ++ "// ") s (sub2 (sub1 s))).
  { apply (insertions_trans _ _ (sub1 s)).
    - rewrite sub1_scan. apply scan_insertions; [apply m1_consumes |].
      apply named_writes_back.
    - rewrite sub2_scan. apply scan_insertions; [apply m2_consumes |].
      apply named_writes_back. }
  split; [exact H |]. exact (insertions_length _ _ _ H).
Qed.

(** ** Named imports with any symbol list *)

(** X7. Symbol lists of every kind are kept by rule 1.  Take a named
    import from the missing module whose symbol list is not empty, has no
    closing brace and no [import type { ] of its own, at a place that is
    not inside the braces of an [import { ] before it.  Whatever the text
    around it, line feeds in the list included, the text [fix_file]
    computes holds the comment line followed by the import behind
    [// ], the symbol list as it was written. *)
Theorem named_import_list_preserved (pre X post : string) :
  opened "import { " pre = false ->
  X <> "" -> mem_char "}" X = false -> contains "import type { " X = false ->
  exists a b,
    fix_content (pre ++ ("import { " ++ X ++ " } from '@/modules/exchanges';") ++ post) =
      a ++ ("// Module not yet implemented" ++ LF ++
            "// import { " ++ X ++ " } from '@/modules/exchanges';") ++ b.
Proof. apply fix_content_named1. Qed.

Lemma named_import_list_preserved_witness :
  let pre := "import { x } from './y';" ++ LF in
  let X := "createWebSocketAdapter," ++ LF ++ "  type ExchangeId" in
  (opened "import { " pre = false /\ X <> "" /\ mem_char "}" X = false /\
   contains "import type { " X = false) /\
  exists a b,
    fix_content (pre ++ ("import { " ++ X ++ " } from '@/modules/exchanges';") ++ LF) =
      a ++ ("// Module not yet implemented" ++ LF ++
            "// import { " ++ X ++ " } from '@/modules/exchanges';") ++ b.
Proof.
  intros pre X.
  assert (H1 : opened "import { " pre = false) by (vm_compute; reflexivity).
  assert (H2 : X <> "") by discriminate.
  assert (H3 : mem_char "}" X = false) by (vm_compute; reflexivity).
  assert (H4 : contains "import type { " X = false) by (vm_compute; reflexivity).
  split; [exact (conj H1 (conj H2 (conj H3 H4))) |].
  exact (named_import_list_preserved pre X LF H1 H2 H3 H4).
Defined.

(** X8. Symbol lists of every kind are kept by rule 2.  Take a type
    import from the missing module whose symbol list is not empty, has no
    closing brace and no [import { ] of its own, at a place that is not
    inside the braces of an [import type { ] before it.  Whatever the
    text around it, the text [fix_file] computes holds the comment line
    followed by the import behind [// ], the symbol list as it was
    written. *)
Theorem type_import_list_preserved (pre X post : string) :
  opened "import type { " pre = false ->
  X <> "" -> mem_char "}" X = false -> contains "import { " X = false ->
  exists a b,
    fix_content
      (pre ++ ("import type { " ++ X ++ " } from '@/modules/exchanges';") ++ post) =
      a ++ ("// Module not yet implemented" ++ LF ++
            "// import type { " ++ X ++ " } from '@/modules/exchanges';") ++ b.
Proof. apply fix_content_named2. Qed.

Lemma type_import_list_preserved_witness :
  let pre := "import { a, " in
  let X := "ExchangeId, ConnectionConfig" in
  (opened "import type { " pre = false /\ X <> "" /\ mem_char "}" X = false /\
   contains "import { " X = false) /\
  exists a b,
    fix_content
      (pre ++ ("import type { " ++ X ++ " } from '@/modules/exchanges';") ++ LF) =
      a ++ ("// Module not yet implemented" ++ LF ++
            "// import type { " ++ X ++ " } from '@/modules/exchanges';") ++ b.
Proof.
  intros pre X.
  assert (H1 : opened "import type { " pre = false) by (vm_compute; reflexivity).
  assert (H2 : X <> "") by discriminate.
  assert (H3 : mem_char "}" X = false) by (vm_compute; reflexivity).
  assert (H4 : contains "import { " X = false) by (vm_compute; reflexivity).
  split; [exact (conj H1 (conj H2 (conj H3 H4))) |].
  exact (type_import_list_preserved pre X LF H1 H2 H3 H4).
Defined.

(** ** Rule 4 on imports from any depth *)

Section SchemaRule.

(** Rules 1 and 2 do not match where the first closing brace is not
    followed by the missing module. *)
Lemma named_none_at_brace head Y Z :
  mem_char "}" head = false -> mem_char "}" Y = false ->
  clash " from '@/modules/exchanges';" Z = true ->
  named_matcher head (Y ++ "}" ++ Z) = None.
Proof.
  intros Hh HY HZ.
  destruct (named_matcher head (Y ++ "}" ++ Z)) as [[r n]|] eqn:E;
    [exfalso | reflexivity].
  destruct (sub_matcher_prefix_length _ _ _ _ _ E) as [u [rest [Hs Hn]]].
  subst n. rewrite Hs in E. apply named_matcher_view in E as [X' [Hu [_ [HX' _]]]].
  assert (H : (head ++ X' ++ " ") ++ "}" ++ (" from '@/modules/exchanges';" ++ rest) =
              Y ++ "}" ++ Z).
  { rewrite Hs, Hu. now rewrite !app_assoc_s. }
  apply first_brace in H as [_ H].
  - rewrite <- (app_nil_r_s Z) in H. now apply clash_sound in H.
  - now rewrite !mem_char_app, Hh, HX'.
  - exact HY.
Qed.

(** They keep the import of the schema that opens a line. *)
Lemma named_keeps_schema head n pre post :
  head <> "" -> mem_char "}" head = false ->
  no_start head "mport { exchangeConnections } from '" = true ->
  no_start head "../" = true ->
  no_start head "exchanges/schema/exchanges.schema';" = true ->
  1 <= n ->
  exists a b,
    scan (named_matcher head) 0
         (pre ++ (LF ++ schema_import_from (up_dirs n)) ++ post) =
      a ++ (LF ++ schema_import_from (up_dirs n)) ++ b.
Proof.
  intros Hne Hh H1 H2 H3 Hn. apply scan_keeps_inserting.
  - unfold consumes, named_matcher. apply sub_matcher_consumes.
    destruct head; [now elim Hne | reflexivity].
  - apply named_inserting.
  - intros w1 w2 Hw Hw1 Hw2.
    destruct w1 as [|y w1]; [now elim Hw1 |].
    cbn [String.append LF] in Hw. injection Hw as _ Hw.
    destruct w1 as [|z w1].
    + (* at the import *)
      cbn [String.append] in Hw. subst w2. destruct n as [|n]; [lia |].
      replace (schema_import_from (up_dirs (S n)) ++ post)
        with ("import { exchangeConnections " ++ "}" ++
              (" from '../" ++ up_dirs n ++
               "exchanges/schema/exchanges.schema';" ++ post)).
      * now apply named_none_at_brace.
      * unfold schema_import_from, up_dirs. cbn [repeat_str].
        now rewrite !app_assoc_s.
    + (* behind its first character *)
      apply (opens_with_none _ head); [apply sub_matcher_opens |].
      unfold schema_import_from in Hw. cbn [String.append] in Hw.
      injection Hw as _ Hw.
      apply (no_start_sound head
               ("mport { exchangeConnections } from '" ++ up_dirs n ++
                "exchanges/schema/exchanges.schema';")) with (w1 := w1);
        [| exact Hw | exact Hw2].
      apply no_start_app; [exact H1 |].
      apply no_start_app; [now apply up_dirs_no_start | exact H3].
Qed.

(** Rule 3 keeps it too: its matches lie on one line. *)
Lemma sub3_keeps_schema n pre post :
  exists a,
    sub3 (pre ++ (LF ++ schema_import_from (up_dirs n)) ++ post) =
      a ++ (LF ++ schema_import_from (up_dirs n)) ++ sub3 post.
Proof.
  apply (relative_keeps "import { ExchangeService } from '.."
           "exchanges/services/exchange.service'" service_import
           "" (schema_import_from (up_dirs n)) pre post);
    try reflexivity; [discriminate |].
  change (no_start "import { ExchangeService } from '.."
            (LF ++ "import { exchangeConnections } from '" ++ up_dirs n ++
             "exchanges/schema/exchanges.schema';") = true).
  apply (no_start_app _ (LF ++ "import { exchangeConnections } from '"));
    [reflexivity |].
  apply no_start_app; [now apply up_dirs_no_start | reflexivity].
Qed.

(** Rule 4 matches it whatever the depth. *)
Lemma m4_matches_schema n post :
  1 <= n -> m4 (schema_import_from (up_dirs n) ++ post) <> None.
Proof.
  intros Hn. destruct n as [|n]; [lia |].
  replace (schema_import_from (up_dirs (S n)) ++ post)
    with ("import { exchangeConnections } from '.." ++ ("/" ++ up_dirs n) ++
          "exchanges/schema/exchanges.schema';" ++ post).
  - apply relative_matcher_hits. rewrite mem_char_app, up_dirs_no_LF. reflexivity.
  - unfold schema_import_from, up_dirs. cbn [repeat_str].
    now rewrite !app_assoc_s.
Qed.

Lemma fix_content_schema_line n pre post :
  1 <= n ->
  exists a b,
    fix_content (pre ++ (LF ++ schema_import_from (up_dirs n)) ++ post) =
      a ++ commented schema_import ++ b.
Proof.
  intros Hn. unfold fix_content.
  destruct (named_keeps_schema "import { " n pre post) as [a1 [b1 E1]];
    [discriminate | reflexivity | reflexivity | reflexivity | reflexivity | exact Hn |].
  rewrite sub1_scan. fold m1 in E1. rewrite E1. clear E1.
  destruct (named_keeps_schema "import type { " n a1 b1) as [a2 [b2 E2]];
    [discriminate | reflexivity | reflexivity | reflexivity | reflexivity | exact Hn |].
  rewrite sub2_scan. fold m2 in E2. rewrite E2. clear E2.
  destruct (sub3_keeps_schema n a2 b2) as [a3 E3]. rewrite E3. clear E3.
  destruct (scan_writes m4 m4_consumes (commented schema_import)
              (a3 ++ (LF ++ schema_import_from (up_dirs n)) ++ sub3 b2)
              m4_replacement) as [a4 [b4 E4]].
  { exists (a3 ++ LF), (schema_import_from (up_dirs n) ++ sub3 b2).
    split; [now rewrite !app_assoc_s |]. now apply m4_matches_schema. }
  rewrite sub4_scan, E4. now exists a4, b4.
Qed.

(** No rule matches at a line feed. *)
Lemma sub_matcher_LF a l p t s :
  Ascii.eqb a LFc = false ->
  scan (Re.sub_matcher (Re.Lit (String a l) :: p) t) 0 (LF ++ s) =
    LF ++ scan (Re.sub_matcher (Re.Lit (String a l) :: p) t) 0 s.
Proof.
  intros H. cbn [String.append LF]. rewrite scan_miss; [reflexivity |].
  apply (opens_with_none _ (String a l)); [apply sub_matcher_opens |].
  cbn [starts_with]. now rewrite H.
Qed.

Lemma fix_content_LF s : fix_content (LF ++ s) = LF ++ fix_content s.
Proof.
  unfold fix_content, sub1, sub2, sub3, sub4, Re.sub, pattern1, pattern2,
    pattern3, pattern4.
  now rewrite !sub_matcher_LF by reflexivity.
Qed.

Lemma last_line_empty s : last_line s = "" -> s = "" \/ exists p, s = p ++ LF.
Proof.
  induction s as [|c s IH]; [now left |]. cbn [last_line]. right.
  destruct (mem_char LFc s) eqn:E.
  - destruct (IH H) as [->|[p ->]]; [discriminate | now exists (String c p)].
  - destruct (Ascii.eqb_spec c LFc) as [->|_]; [| discriminate].
    subst s. now exists "".
Qed.

End SchemaRule.

(** X9. Rule 4 on an import of [exchangeConnections] through a relative
    path of one or more [../] to [exchanges/schema/exchanges.schema],
    when the import opens a line: whatever the text before and after it,
    the text [fix_file] computes holds the comment line followed by the
    import from [../../exchanges/schema/exchanges.schema] behind [// ],
    which is the import itself when it climbs two directories, and only
    then. *)
Theorem schema_import_commented (n : nat) (pre post : string) :
  1 <= n ->
  last_line pre = "" ->
  (exists a b,
     fix_content (pre ++ schema_import_from (up_dirs n) ++ post) =
       a ++ ("// Module not yet implemented" ++ LF ++
             "// import { exchangeConnections } from '../../exchanges/schema/exchanges.schema';")
         ++ b) /\
  schema_import_from (up_dirs 2) =
    "import { exchangeConnections } from '../../exchanges/schema/exchanges.schema';" /\
  (schema_import_from (up_dirs n) =
     "import { exchangeConnections } from '../../exchanges/schema/exchanges.schema';"
   <-> n = 2).
Proof.
  intros Hn Hpre. split; [| split; [reflexivity |]].
  2: { rewrite <- up_dirs_two. split; [| now intros ->].
       change "import { exchangeConnections } from '../../exchanges/schema/exchanges.schema';"
         with (schema_import_from (up_dirs 2)).
       unfold schema_import_from. intros H.
       apply app_inv_head_s in H. now apply app_inv_tail_s in H. }
  destruct (last_line_empty _ Hpre) as [->|[p ->]].
  - destruct (fix_content_schema_line n "" post Hn) as [a [b E]].
    cbn [String.append] in E |- *. rewrite app_assoc_s, fix_content_LF in E.
    destruct a as [|x a]; cbn [String.append LF] in E; [discriminate |].
    injection E as _ E. now exists a, b.
  - destruct (fix_content_schema_line n p post Hn) as [a [b E]].
    exists a, b.
    replace ((p ++ LF) ++ schema_import_from (up_dirs n) ++ post)
      with (p ++ (LF ++ schema_import_from (up_dirs n)) ++ post)
      by now rewrite !app_assoc_s.
    exact E.
Qed.

Lemma schema_import_commented_witness :
  let pre := "import { db } from '@/db';" ++ LF in
  (1 <= 3 /\ last_line pre = "") /\
  (exists a b,
     fix_content (pre ++ schema_import_from (up_dirs 3) ++ LF) =
       a ++ ("// Module not yet implemented" ++ LF ++
             "// import { exchangeConnections } from '../../exchanges/schema/exchanges.schema';")
         ++ b) /\
  schema_import_from (up_dirs 3) <>
    "import { exchangeConnections } from '../../exchanges/schema/exchanges.schema';".
Proof.
  intros pre.
  assert (H1 : 1 <= 3) by lia.
  assert (H2 : last_line pre = "") by (vm_compute; reflexivity).
  split; [exact (conj H1 H2) |].
  destruct (schema_import_commented 3 pre LF H1 H2) as [H3 [_ H4]].
  split; [exact H3 |]. intros E. apply H4 in E. discriminate.
Defined.

(** ** [fix_special_cases] on the file system *)

Section Footprint.

Lemma patch_world_log filepath patch msg w :
  exists l out,
    writes (patch_world filepath patch msg w) = (writes w ++ l)%list /\
    stdout (patch_world filepath patch msg w) = (stdout w ++ out)%list /\
    List.length l <= 1 /\ List.length out = List.length l /\
    Forall (fun pc => fst pc = filepath) l.
Proof.
  unfold patch_world. destruct (files w !! filepath) as [s|].
  - destruct (patch (universal_newlines s)) as [s'|].
    + exists [(filepath, s')], [msg]. cbn. repeat split; auto.
    + exists [], []. rewrite !app_nil_r. repeat split; auto.
  - exists [], []. rewrite !app_nil_r. repeat split; auto.
Qed.

Lemma alter_None (f : string -> string) (k q : string) (fs : gmap string string) :
  alter f k fs !! q = None <-> fs !! q = None.
Proof.
  rewrite lookup_alter. case_decide; [| reflexivity].
  subst q. now rewrite fmap_None.
Qed.

End Footprint.

(** X10. [fix_special_cases] never raises and touches two paths only, the
    manager and the pipeline: every other path is as it was, so no backup
    is made; no file is created and none is removed.  It writes at most
    three times, always to one of the two paths, and prints one line for
    each write and nothing else. *)
Theorem fix_special_cases_footprint (w : world) :
  exists w' new_writes new_lines,
    fix_special_cases w = Some (tt, w') /\
    (forall q, q <> manager_ts -> q <> pipeline_ts ->
               files w' !! q = files w !! q) /\
    (forall q, files w' !! q = None <-> files w !! q = None) /\
    writes w' = (writes w ++ new_writes)%list /\
    stdout w' = (stdout w ++ new_lines)%list /\
    List.length new_writes <= 3 /\
    List.length new_lines = List.length new_writes /\
    Forall (fun pc => fst pc = manager_ts \/ fst pc = pipeline_ts) new_writes.
Proof.
  set (w1 := patch_world manager_ts patchA msg_patchA w).
  set (w2 := patch_world pipeline_ts patchB msg_patchB w1).
  destruct (patch_world_log manager_ts patchA msg_patchA w)
    as [l1 [o1 [Hw1 [Ho1 [Hl1 [Hn1 Hf1]]]]]].
  destruct (patch_world_log pipeline_ts patchB msg_patchB w1)
    as [l2 [o2 [Hw2 [Ho2 [Hl2 [Hn2 Hf2]]]]]].
  destruct (patch_world_log manager_ts patchC msg_patchC w2)
    as [l3 [o3 [Hw3 [Ho3 [Hl3 [Hn3 Hf3]]]]]].
  exists (special_world w), (l1 ++ l2 ++ l3)%list, (o1 ++ o2 ++ o3)%list.
  split; [apply fix_special_cases_run |].
  split; [intros q H1 H2; rewrite special_world_files; now apply special_files_other |].
  split; [intros q; rewrite special_world_files; unfold special_files;
          now rewrite !alter_None |].
  unfold special_world. fold w1. fold w2.
  split; [rewrite Hw3; unfold w2; rewrite Hw2; unfold w1; rewrite Hw1;
          now rewrite <- !app_assoc |].
  split; [rewrite Ho3; unfold w2; rewrite Ho2; unfold w1; rewrite Ho1;
          now rewrite <- !app_assoc |].
  split; [rewrite !length_app; lia |].
  split; [rewrite !length_app; lia |].
  rewrite !Forall_app. repeat split.
  - eapply Forall_impl; [exact Hf1 |]. intros ? ->. now left.
  - eapply Forall_impl; [exact Hf2 |]. intros ? ->. now right.
  - eapply Forall_impl; [exact Hf3 |]. intros ? ->. now left.
Qed.

(** ** What the three fixes make of a text *)

Section ReplaceAll.

Variable x : ascii.
Variable old' : string.
Variable new : string.
Let old : string := String x old'.

(** No proper end of [old] opens [old]. *)
Hypothesis old_no_border : no_start old old' = true.

(** The leftmost occurrence is replaced and the scan goes on behind it. *)
Lemma replace_first a b :
  contains old a = false ->
  str_replace old new (a ++ old ++ b) = a ++ new ++ str_replace old new b.
Proof.
  intros Ha. unfold str_replace.
  rewrite scan_through.
  - f_equal. apply (scan_hit _ (lit_matcher_consumes x old' new)).
    apply lit_matcher_some. apply starts_with_app.
  - intros a1 a2 E Hne. apply (opens_with_none _ old); [apply lit_matcher_opens |].
    destruct (starts_with old (a2 ++ old ++ b)) eqn:Hs; [exfalso | reflexivity].
    apply starts_with_spec in Hs as [r Hs].
    destruct (app_split _ _ _ _ Hs) as [[e [Ho He]]|[e [_ [Ha2 _]]]].
    + destruct e as [|y e].
      * rewrite app_nil_r_s in Ho. subst a2.
        rewrite (proj2 (contains_spec old a)) in Ha; [discriminate |].
        exists a1, "". now rewrite app_nil_r_s.
      * destruct a2 as [|z a2]; [now elim Hne |].
        unfold old in Ho. injection Ho as _ Ho.
        pose proof (no_start_sound _ _ old_no_border a2 (String y e) r Ho
                      ltac:(discriminate)) as Hf.
        fold old in Hf. rewrite <- He, starts_with_app in Hf. discriminate.
    + rewrite (proj2 (contains_spec old a)) in Ha; [discriminate |].
      exists a1, e. now rewrite E, Ha2.
Qed.

(** [old.join(ps).replace(old, new)] is [new.join(ps)] when no piece
    holds [old]. *)
Lemma replace_concat ps :
  Forall (fun p => contains old p = false) ps ->
  str_replace old new (String.concat old ps) = String.concat new ps.
Proof.
  induction 1 as [|p ps Hp Hps IH]; [reflexivity |].
  destruct ps as [|q ps]; [now apply replace_none |].
  change (String.concat old (p :: q :: ps))
    with (p ++ old ++ String.concat old (q :: ps)).
  change (String.concat new (p :: q :: ps))
    with (p ++ new ++ String.concat new (q :: ps)).
  now rewrite (replace_first _ _ Hp), IH.
Qed.

Lemma concat_contains sep p q ps :
  contains sep (String.concat sep (p :: q :: ps)) = true.
Proof.
  apply contains_spec. now exists p, (String.concat sep (q :: ps)).
Qed.

End ReplaceAll.

(** X11. Fix 1 on a text it applies to.  Cut the text at every occurrence
    of the type import of the manager: when the two added symbols are not
    in the text, fix 1 puts the extended import at each of the cuts and
    leaves the pieces between them as they are. *)
Theorem patchA_extends_the_import (ps : list string) :
  2 <= List.length ps ->
  Forall (fun p => contains types_old p = false) ps ->
  contains "ConnectionConfig, ExchangeId" (String.concat types_old ps) = false ->
  patchA (String.concat types_old ps) = Some (String.concat types_new ps).
Proof.
  intros Hlen Hps Hadd. destruct ps as [|p [|q ps]]; cbn in Hlen; try lia.
  unfold patchA.
  rewrite (contains_trans types_marker types_old _ eq_refl (concat_contains _ _ _ _)).
  unfold types_added. rewrite Hadd. cbn [negb andb]. f_equal.
  apply (replace_concat "i"
    "mport type { IExchangeAdapter, SubscriptionRequest, ConnectionStatus, OrderBook, Trade, Ticker, Candle, ExchangeEventName, ExchangeEventListener, ConnectionMetrics } from './types';");
    [vm_compute; reflexivity | exact Hps].
Qed.

Lemma patchA_extends_the_import_witness :
  let ps := ["// manager" ++ LF; LF ++ "export class Manager {}" ++ LF] in
  (2 <= List.length ps /\
   Forall (fun p => contains types_old p = false) ps /\
   contains "ConnectionConfig, ExchangeId" (String.concat types_old ps) = false) /\
  patchA ("// manager" ++ LF ++ types_old ++ LF ++ "export class Manager {}" ++ LF) =
    Some ("// manager" ++ LF ++ types_new ++ LF ++ "export class Manager {}" ++ LF).
Proof.
  intros ps.
  assert (H1 : 2 <= List.length ps) by (cbn; lia).
  assert (H2 : Forall (fun p => contains types_old p = false) ps)
    by (repeat constructor).
  assert (H3 : contains "ConnectionConfig, ExchangeId" (String.concat types_old ps)
               = false) by (vm_compute; reflexivity).
  split; [exact (conj H1 (conj H2 H3)) |].
  exact (patchA_extends_the_import ps H1 H2 H3).
Defined.

(** X12. Fix 2 on a text it applies to.  Cut the text at every occurrence
    of the commented import of [getDefaultWebSocketConfig]: when the text
    has no [function getDefaultWebSocketConfig], fix 2 puts the import
    followed by the stub at each of the cuts and leaves the pieces as
    they are.  A text that holds the commented import twice gets the
    function twice. *)
Theorem patchB_inserts_a_stub_per_import (ps : list string) :
  2 <= List.length ps ->
  Forall (fun p => contains stub_marker p = false) ps ->
  contains "function getDefaultWebSocketConfig" (String.concat stub_marker ps) = false ->
  patchB (String.concat stub_marker ps) = Some (String.concat stub_text ps).
Proof.
  intros Hlen Hps Hhead. destruct ps as [|p [|q ps]]; cbn in Hlen; try lia.
  unfold patchB. rewrite concat_contains. unfold stub_head. rewrite Hhead.
  cbn [negb andb]. f_equal.
  apply (replace_concat "/"
    "/ import { getDefaultWebSocketConfig } from '@/modules/exchanges';");
    [vm_compute; reflexivity | exact Hps].
Qed.

Lemma patchB_inserts_a_stub_per_import_witness :
  let ps := ["const a = 1;" ++ LF; LF ++ "const b = 2;" ++ LF; LF] in
  (2 <= List.length ps /\
   Forall (fun p => contains stub_marker p = false) ps /\
   contains "function getDefaultWebSocketConfig" (String.concat stub_marker ps)
     = false) /\
  patchB ("const a = 1;" ++ LF ++ stub_marker ++ LF ++ "const b = 2;" ++ LF ++
          stub_marker ++ LF) =
    Some ("const a = 1;" ++ LF ++ stub_text ++ LF ++ "const b = 2;" ++ LF ++
          stub_text ++ LF).
Proof.
  intros ps.
  assert (H1 : 2 <= List.length ps) by (cbn; lia).
  assert (H2 : Forall (fun p => contains stub_marker p = false) ps)
    by (repeat constructor).
  assert (H3 : contains "function getDefaultWebSocketConfig"
                 (String.concat stub_marker ps) = false)
    by (vm_compute; reflexivity).
  split; [exact (conj H1 (conj H2 H3)) |].
  exact (patchB_inserts_a_stub_per_import ps H1 H2 H3).
Defined.

(** X13. Fix 3 on a text that holds the three lines of the delegating
    method.  Cut the text at every occurrence of the three lines: fix 3
    puts at each of the cuts the five lines that throw and keep the call
    as a comment, and leaves the pieces as they are. *)
Theorem patchC_replaces_the_call (ps : list string) :
  2 <= List.length ps ->
  Forall (fun p => contains call_old p = false) ps ->
  patchC (String.concat call_old ps) = Some (String.concat call_new ps).
Proof.
  intros Hlen Hps. destruct ps as [|p [|q ps]]; cbn in Hlen; try lia.
  unfold patchC.
  rewrite (contains_trans call_marker call_old _ eq_refl (concat_contains _ _ _ _)).
  f_equal. revert Hps. rewrite call_old_cons. intros Hps.
  apply replace_concat; [vm_compute; reflexivity | exact Hps].
Qed.

Lemma patchC_replaces_the_call_witness :
  let ps := ["class Manager {" ++ LF; LF ++ "  }" ++ LF ++ "}" ++ LF] in
  (2 <= List.length ps /\ Forall (fun p => contains call_old p = false) ps) /\
  patchC ("class Manager {" ++ LF ++ call_old ++ LF ++ "  }" ++ LF ++ "}" ++ LF) =
    Some ("class Manager {" ++ LF ++ call_new ++ LF ++ "  }" ++ LF ++ "}" ++ LF).
Proof.
  intros ps.
  assert (H1 : 2 <= List.length ps) by (cbn; lia).
  assert (H2 : Forall (fun p => contains call_old p = false) ps)
    by (repeat constructor).
  split; [exact (conj H1 H2) |].
  exact (patchC_replaces_the_call ps H1 H2).
Defined.

(** ** A fix whose replace finds nothing *)

Section Unchanged.

Lemma types_replace_keeps_marker s :
  contains call_marker s = true ->
  contains call_marker (str_replace types_old types_new s) = true.
Proof.
  apply (replace_keeps "i"
    "mport type { IExchangeAdapter, SubscriptionRequest, ConnectionStatus, OrderBook, Trade, Ticker, Candle, ExchangeEventName, ExchangeEventListener, ConnectionMetrics } from './types';");
    vm_compute; reflexivity.
Qed.

Lemma types_replace_no_call s :
  contains call_old (str_replace types_old types_new s) = true ->
  contains call_old s = true.
Proof.
  apply (replace_no_new "i"
    "mport type { IExchangeAdapter, SubscriptionRequest, ConnectionStatus, OrderBook, Trade, Ticker, Candle, ExchangeEventName, ExchangeEventListener, ConnectionMetrics } from './types';");
    vm_compute; reflexivity.
Qed.

Lemma patched_patchA_cases s :
  patched patchA s = s \/ patched patchA s = str_replace types_old types_new s.
Proof.
  unfold patched, patchA.
  destruct (contains types_marker s && negb (contains types_added s)); auto.
Qed.

End Unchanged.

(** X14. Fix 1 can report a change it did not make.  Its guard looks for
    the first words of the type import and for the two symbols, its
    replace for the whole import line: on a manager that has the words
    and not the symbols, but not the line as the script spells it, the
    replace finds nothing, and still the file is written, with the text
    read from it, and the line that says the symbols were added is
    printed. *)
Theorem patchA_reports_without_change (w : world) (s : string) :
  text_read (files w) manager_ts = Some s ->
  contains "import type { IExchangeAdapter" s = true ->
  contains "ConnectionConfig, ExchangeId" s = false ->
  contains types_old s = false ->
  patchA s = Some s /\
  exists w' more_lines more_writes,
    fix_special_cases w = Some (tt, w') /\
    stdout w' = (stdout w ++ msg_patchA :: more_lines)%list /\
    writes w' = (writes w ++ (manager_ts, s) :: more_writes)%list /\
    files w' !! manager_ts = Some (patched patchC s).
Proof.
  intros Hf Hm Ha Ho. apply text_read_spec in Hf as [data [Hf Hs]].
  assert (HA : patchA s = Some s).
  { unfold patchA, types_marker, types_added. rewrite Hm, Ha. cbn [negb andb].
    f_equal.
    apply (replace_none "i"
      "mport type { IExchangeAdapter, SubscriptionRequest, ConnectionStatus, OrderBook, Trade, Ticker, Candle, ExchangeEventName, ExchangeEventListener, ConnectionMetrics } from './types';").
    exact Ho. }
  split; [exact HA |].
  set (w1 := patch_world manager_ts patchA msg_patchA w).
  set (w2 := patch_world pipeline_ts patchB msg_patchB w1).
  destruct (patch_world_log pipeline_ts patchB msg_patchB w1)
    as [l2 [o2 [Hw2 [Ho2 _]]]].
  destruct (patch_world_log manager_ts patchC msg_patchC w2)
    as [l3 [o3 [Hw3 [Ho3 _]]]].
  exists (special_world w), (o2 ++ o3)%list, (l2 ++ l3)%list.
  split; [apply fix_special_cases_run |].
  unfold special_world. fold w1. fold w2.
  assert (E1 : w1 = World (<[manager_ts := s]> (files w)) (stdout w ++ [msg_patchA])
                          (writes w ++ [(manager_ts, s)]))
    by (apply (patch_world_applies _ _ _ _ data); [exact Hf | now rewrite Hs]).
  split; [rewrite Ho3; unfold w2; rewrite Ho2, E1; cbn [stdout];
          now rewrite <- !app_assoc |].
  split; [rewrite Hw3; unfold w2; rewrite Hw2, E1; cbn [writes];
          now rewrite <- !app_assoc |].
  change (files (special_world w) !! manager_ts = Some (patched patchC s)).
  rewrite special_world_files, special_files_manager, Hf. cbn. f_equal.
  unfold manager_file.
  assert (rewritten patchA data = s) as ->
    by (unfold rewritten; now rewrite Hs, HA).
  apply rewritten_text. rewrite <- Hs. apply universal_newlines_no_CR.
Qed.

Lemma patchA_reports_without_change_witness :
  let s := "import type { IExchangeAdapter, Ticker } from './types';" in
  let w := World {[ manager_ts := s ]} [] [] in
  (text_read (files w) manager_ts = Some s /\
   contains "import type { IExchangeAdapter" s = true /\
   contains "ConnectionConfig, ExchangeId" s = false /\
   contains types_old s = false) /\
  patchA s = Some s /\
  exists w' more_lines more_writes,
    fix_special_cases w = Some (tt, w') /\
    stdout w' = (stdout w ++ msg_patchA :: more_lines)%list /\
    writes w' = (writes w ++ (manager_ts, s) :: more_writes)%list /\
    files w' !! manager_ts = Some (patched patchC s).
Proof.
  intros s w.
  assert (H1 : text_read (files w) manager_ts = Some s) by (vm_compute; reflexivity).
  assert (H2 : contains "import type { IExchangeAdapter" s = true)
    by (vm_compute; reflexivity).
  assert (H3 : contains "ConnectionConfig, ExchangeId" s = false)
    by (vm_compute; reflexivity).
  assert (H4 : contains types_old s = false) by (vm_compute; reflexivity).
  split; [exact (conj H1 (conj H2 (conj H3 H4))) |].
  exact (patchA_reports_without_change w s H1 H2 H3 H4).
Defined.

(** X15. Fix 3 can report a change it did not make, on the first run
    too.  Its guard looks for the call alone, its replace for the three
    lines of the method as the script spells them: on a manager whose
    text has the call but not the three lines, the replace finds nothing.
    The run leaves the manager with the text fix 1 left, the call still
    in it, and ends with the file written once more and with the line
    that says the call was commented out. *)
Theorem patchC_reports_without_change (w : world) (s : string) :
  text_read (files w) manager_ts = Some s ->
  contains "return createWebSocketAdapter(exchangeId, config);" s = true ->
  contains call_old s = false ->
  exists w' t,
    fix_special_cases w = Some (tt, w') /\
    t = patched patchA s /\
    patchC t = Some t /\
    files w' !! manager_ts = Some t /\
    contains "return createWebSocketAdapter(exchangeId, config);" t = true /\
    contains call_old t = false /\
    last (writes w') = Some (manager_ts, t) /\
    last (stdout w') = Some msg_patchC.
Proof.
  intros Hf Hm Ho. apply text_read_spec in Hf as [data [Hf Hs]].
  set (t := patched patchA s).
  assert (Hmt : contains call_marker t = true).
  { unfold t. destruct (patched_patchA_cases s) as [-> | ->];
      [exact Hm | now apply types_replace_keeps_marker]. }
  assert (Hot : contains call_old t = false).
  { unfold t. destruct (patched_patchA_cases s) as [-> | ->]; [exact Ho |].
    destruct (contains call_old (str_replace types_old types_new s)) eqn:E;
      [| reflexivity].
    apply types_replace_no_call in E. congruence. }
  assert (HC : patchC t = Some t).
  { unfold patchC. rewrite Hmt. f_equal. rewrite call_old_cons.
    apply replace_none. now rewrite <- call_old_cons. }
  assert (HC' : patchC (universal_newlines (rewritten patchA data)) = Some t)
    by (rewrite rewritten_read, Hs by apply patchA_writes_text; exact HC).
  exists (special_world w), t.
  split; [apply fix_special_cases_run |]. split; [reflexivity |].
  split; [exact HC |].
  split; [rewrite special_world_files, special_files_manager, Hf; cbn;
          unfold manager_file; unfold rewritten at 1; now rewrite HC' |].
  split; [exact Hmt |]. split; [exact Hot |].
  unfold special_world.
  set (w2 := patch_world pipeline_ts patchB msg_patchB
               (patch_world manager_ts patchA msg_patchA w)).
  assert (Hm2 : files w2 !! manager_ts = Some (rewritten patchA data)).
  { unfold w2. rewrite !patch_world_files.
    rewrite lookup_alter, decide_False
      by (intros E'; symmetry in E'; now apply manager_not_pipeline).
    rewrite lookup_alter, decide_True by reflexivity. now rewrite Hf. }
  rewrite (patch_world_applies _ _ _ _ _ _ Hm2 HC'). cbn [writes stdout].
  now rewrite !last_snoc.
Qed.

Lemma patchC_reports_without_change_witness :
  let s := "  create(exchangeId: ExchangeId, config: ConnectionConfig) {" ++ LF ++
           "    return createWebSocketAdapter(exchangeId, config);" ++ LF ++
           "  }" in
  let w := World {[ manager_ts := s ]} [] [] in
  (text_read (files w) manager_ts = Some s /\
   contains "return createWebSocketAdapter(exchangeId, config);" s = true /\
   contains call_old s = false) /\
  exists w' t,
    fix_special_cases w = Some (tt, w') /\
    t = patched patchA s /\
    patchC t = Some t /\
    files w' !! manager_ts = Some t /\
    contains "return createWebSocketAdapter(exchangeId, config);" t = true /\
    contains call_old t = false /\
    last (writes w') = Some (manager_ts, t) /\
    last (stdout w') = Some msg_patchC.
Proof.
  intros s w.
  assert (H1 : text_read (files w) manager_ts = Some s) by (vm_compute; reflexivity).
  assert (H2 : contains "return createWebSocketAdapter(exchangeId, config);" s = true)
    by (vm_compute; reflexivity).
  assert (H3 : contains call_old s = false) by (vm_compute; reflexivity).
  split; [exact (conj H1 (conj H2 H3)) |].
  exact (patchC_reports_without_change w s H1 H2 H3).
Defined.

(** ** [main] on the file system *)

Section MainFiles.

Lemma not_listed_spec q p :
  not_listed q = true -> In p FILES_TO_FIX -> q <> p /\ q <> p ++ ".bak".
Proof.
  unfold not_listed. rewrite forallb_forall. intros H Hp.
  specialize (H p Hp). apply andb_true_iff in H as [H1 H2].
  apply negb_true_iff in H1, H2. now rewrite !String.eqb_neq in *.
Qed.

Lemma manager_listed : In manager_ts FILES_TO_FIX.
Proof. left. reflexivity. Qed.

Lemma pipeline_listed : In pipeline_ts FILES_TO_FIX.
Proof. right. left. reflexivity. Qed.

Lemma main_run w :
  exists n w1,
    fix_all FILES_TO_FIX 0 (header w) = Some (n, w1) /\
    main w = Some (tt, footer n (special_world (before_special w1))).
Proof.
  destruct (fix_all_counts FILES_TO_FIX 0 (header w)) as [w1 Hrun].
  eexists _, w1. split; [exact Hrun |].
  now rewrite main_unfold, Hrun, fix_special_cases_run.
Qed.

Lemma main_files n w1 :
  files (footer n (special_world (before_special w1))) = special_files (files w1).
Proof. cbn [footer files]. now rewrite special_world_files. Qed.

Lemma bak_inj p q : p ++ ".bak" = q ++ ".bak" -> p = q.
Proof. apply app_inv_tail_s. Qed.

Lemma fix_file_world_bak filepath w :
  files (snd (fix_file_world filepath w)) !! (filepath ++ ".bak") =
    if changed_at (files w) filepath then text_read (files w) filepath
    else files w !! (filepath ++ ".bak").
Proof.
  unfold fix_file_world, changed_at, text_read.
  destruct (files w !! filepath) as [c|] eqn:E; [| reflexivity].
  destruct (String.eqb (fix_content (universal_newlines c)) (universal_newlines c));
    [reflexivity |].
  cbn [negb snd after_fixed files].
  rewrite lookup_insert_ne by (intros H; symmetry in H; now apply bak_neq in H).
  apply lookup_insert_eq.
Qed.

(** On independent paths the loop leaves behind every path the backup of
    the text it changed, or what was there when it changed nothing. *)
Lemma fix_all_backups paths :
  independent paths = true ->
  forall n w n' w', fix_all paths n w = Some (n', w') ->
  forall p, In p paths ->
    files w' !! (p ++ ".bak") =
      if changed_at (files w) p then text_read (files w) p
      else files w !! (p ++ ".bak").
Proof.
  induction paths as [|q rest IH]; intros Hind n w n' w' Hrun p Hp; [destruct Hp |].
  pose proof Hind as Hrest. cbn [independent] in Hrest.
  apply andb_true_iff in Hrest as [_ Hrest].
  rewrite fix_all_cons in Hrun. destruct Hp as [<-|Hp].
  - rewrite (fix_all_frame _ _ _ _ _ (q ++ ".bak") Hrun).
    + apply fix_file_world_bak.
    + intros r Hr. destruct (independent_cons _ _ _ Hind Hr) as [H1 [H2 H3]].
      split; [congruence |]. intros E. apply bak_inj in E. congruence.
  - destruct (independent_cons _ _ _ Hind Hp) as [H1 [H2 H3]].
    rewrite (IH Hrest _ _ _ _ Hrun p Hp).
    assert (E1 : files (snd (fix_file_world q w)) !! p = files w !! p)
      by now apply fix_file_world_other.
    assert (E2 : files (snd (fix_file_world q w)) !! (p ++ ".bak") =
                 files w !! (p ++ ".bak")).
    { apply fix_file_world_other; [congruence |].
      intros E. apply bak_inj in E. congruence. }
    unfold changed_at, text_read. now rewrite E1, E2.
Qed.

Lemma listed_backup_not_special p :
  In p FILES_TO_FIX -> p ++ ".bak" <> manager_ts /\ p ++ ".bak" <> pipeline_ts.
Proof.
  intros Hp.
  assert (H : forallb (fun p => negb (String.eqb (p ++ ".bak") manager_ts) &&
                                negb (String.eqb (p ++ ".bak") pipeline_ts))
                      FILES_TO_FIX = true) by (vm_compute; reflexivity).
  rewrite forallb_forall in H. specialize (H p Hp).
  apply andb_true_iff in H as [H1 H2]. apply negb_true_iff in H1, H2.
  now rewrite !String.eqb_neq in *.
Qed.

(** Where a file is missing the loop prints two lines and goes on. *)
Lemma fix_all_missing paths n w :
  Forall (fun p => files w !! p = None) paths ->
  fix_all paths n w =
    Some (n, World (files w)
                   (stdout w ++
                    concat (map (fun p => [msg_fixing p; msg_not_found p]) paths))
                   (writes w)).
Proof.
  revert w. induction paths as [|p rest IH]; intros w H.
  - cbn. unfold ret. rewrite app_nil_r. now destruct w.
  - apply Forall_cons in H as [Hp Hrest]. rewrite fix_all_cons.
    unfold fix_file_world. rewrite Hp. cbn [fst snd].
    rewrite (IH (after_missing p w)) by exact Hrest.
    cbn [after_missing files stdout writes map concat].
    now rewrite <- app_assoc.
Qed.

Lemma patch_world_missing filepath patch msg w :
  files w !! filepath = None -> patch_world filepath patch msg w = w.
Proof. intros H. unfold patch_world. now rewrite H. Qed.

End MainFiles.

(** X16. [main] leaves alone every path that is neither a path of the
    list nor the backup of one: whatever the files hold, such a path is
    as it was, there or not. *)
Theorem main_other_paths (q : string) (w : world) :
  not_listed q = true ->
  exists w', main w = Some (tt, w') /\ files w' !! q = files w !! q.
Proof.
  intros Hq. destruct (main_run w) as [n [w1 [Hrun Hmain]]].
  eexists. split; [exact Hmain |].
  destruct (not_listed_spec q _ Hq manager_listed) as [Hm _].
  destruct (not_listed_spec q _ Hq pipeline_listed) as [Hp _].
  rewrite main_files, special_files_other by assumption.
  rewrite (fix_all_frame _ _ _ _ _ q Hrun); [reflexivity |].
  intros p Hin. now apply not_listed_spec.
Qed.

Lemma main_other_paths_witness :
  let w := World {[ manager_ts := "import { A } from '@/modules/exchanges';";
                    "README.md" := "import { A } from '@/modules/exchanges';" ]}
                 [] [] in
  not_listed "README.md" = true /\
  exists w', main w = Some (tt, w') /\ files w' !! "README.md" = files w !! "README.md".
Proof.
  intros w.
  assert (H : not_listed "README.md" = true) by (vm_compute; reflexivity).
  split; [exact H |]. exact (main_other_paths "README.md" w H).
Defined.

(** X17. Where none of the eleven files is there, [main] changes nothing
    and writes nothing, whatever else the file system holds: it prints
    the banner, the two lines of every path ("Fixing" and "File not
    found"), nothing for the special cases, and the summary with a count
    of 0. *)
Theorem main_no_listed_file (w : world) :
  Forall (fun p => files w !! p = None) FILES_TO_FIX ->
  exists w',
    main w = Some (tt, w') /\
    files w' = files w /\
    writes w' = writes w /\
    stdout w' =
      (stdout w ++
       [banner; "Fixing exchanges module imports"; banner; ""] ++
       concat (map (fun p => [("Fixing " ++ basename p ++ "...")%string;
                              ("  ⚠️  File not found: " ++ p)%string])
                   FILES_TO_FIX) ++
       [""; "Fixing special cases..."; ""; banner; "✅ Fixed 0 files";
        "Backup files created with .bak extension"; banner])%list.
Proof.
  intros H.
  assert (Hh : Forall (fun p => files (header w) !! p = None) FILES_TO_FIX) by exact H.
  pose proof (fix_all_missing FILES_TO_FIX 0 (header w) Hh) as Hrun.
  set (w1 := World (files (header w))
                   (stdout (header w) ++
                    concat (map (fun p => [msg_fixing p; msg_not_found p]) FILES_TO_FIX))
                   (writes (header w))) in Hrun.
  assert (Hs : special_world (before_special w1) = before_special w1).
  { unfold special_world.
    rewrite (patch_world_missing manager_ts patchA)
      by (rewrite List.Forall_forall in H; apply H, manager_listed).
    rewrite (patch_world_missing pipeline_ts patchB)
      by (rewrite List.Forall_forall in H; apply H, pipeline_listed).
    apply patch_world_missing. rewrite List.Forall_forall in H. apply H, manager_listed. }
  exists (footer 0 (before_special w1)).
  split; [now rewrite main_unfold, Hrun, fix_special_cases_run, Hs |].
  split; [reflexivity |]. split; [reflexivity |].
  cbn [footer before_special w1 header stdout files writes].
  rewrite <- !app_assoc. reflexivity.
Qed.

Lemma main_no_listed_file_witness :
  let w := World {[ "README.md" := "# BotCriptoFy2" ]} [] [] in
  Forall (fun p => files w !! p = None) FILES_TO_FIX /\
  exists w',
    main w = Some (tt, w') /\
    files w' = files w /\
    writes w' = [] /\
    List.length (stdout w') = 33.
Proof.
  intros w.
  assert (H : Forall (fun p => files w !! p = None) FILES_TO_FIX)
    by (repeat constructor).
  split; [exact H |].
  destruct (main_no_listed_file w H) as [w' [H1 [H2 [H3 H4]]]].
  exists w'. split; [exact H1 |]. split; [exact H2 |]. split; [exact H3 |].
  rewrite H4. reflexivity.
Defined.

(** X18. What [main] leaves in the files, whatever they held.  The
    manager holds its text after the four rules, then fix 1, then fix 3;
    the pipeline its text after the four rules, then fix 2; every other
    file of the list its text after the four rules; a file that was
    missing is still missing.  Byte for byte, every file of the list
    holds what [fix_file] and then the fixes left in it, which is the
    file as it was when none of them wrote it.  Beside every file of the
    list whose text the rules changed stands a backup with the text read
    from the file; an older backup of a file that was not changed is as
    it was. *)
Theorem main_final_files (w : world) :
  exists w',
    main w = Some (tt, w') /\
    text_read (files w') manager_ts =
      (fun s => patched patchC (patched patchA (fix_content s))) <$>
      text_read (files w) manager_ts /\
    text_read (files w') pipeline_ts =
      (fun s => patched patchB (fix_content s)) <$> text_read (files w) pipeline_ts /\
    Forall (fun p => p = manager_ts \/ p = pipeline_ts \/
                     text_read (files w') p = fix_content <$> text_read (files w) p)
           FILES_TO_FIX /\
    files w' !! manager_ts =
      (fun data => rewritten patchC (rewritten patchA (fixed data))) <$>
      files w !! manager_ts /\
    files w' !! pipeline_ts =
      (fun data => rewritten patchB (fixed data)) <$> files w !! pipeline_ts /\
    Forall (fun p => p = manager_ts \/ p = pipeline_ts \/
                     files w' !! p = fixed <$> files w !! p) FILES_TO_FIX /\
    Forall (fun p => files w' !! (p ++ ".bak") =
                       if changed_at (files w) p then text_read (files w) p
                       else files w !! (p ++ ".bak")) FILES_TO_FIX.
Proof.
  destruct (fix_all_independent FILES_TO_FIX files_to_fix_independent 0 (header w))
    as [w1 [Hrun [_ [_ Hfiles]]]].
  exists (footer (0 + count_true (loop_returns FILES_TO_FIX (header w)))
                 (special_world (before_special w1))).
  split; [now rewrite main_unfold, Hrun, fix_special_cases_run |].
  rewrite main_files.
  assert (Hm : special_files (files w1) !! manager_ts =
               (fun data => manager_file (fixed data)) <$> files w !! manager_ts).
  { rewrite special_files_manager, (Hfiles _ manager_listed). cbn [header files].
    destruct (files w !! manager_ts); reflexivity. }
  assert (Hp : special_files (files w1) !! pipeline_ts =
               (fun data => pipeline_file (fixed data)) <$> files w !! pipeline_ts).
  { rewrite special_files_pipeline, (Hfiles _ pipeline_listed). cbn [header files].
    destruct (files w !! pipeline_ts); reflexivity. }
  assert (Ho : forall p, In p FILES_TO_FIX -> p <> manager_ts -> p <> pipeline_ts ->
               special_files (files w1) !! p = fixed <$> files w !! p).
  { intros p Hin H1 H2. rewrite special_files_other by assumption.
    now rewrite (Hfiles p Hin). }
  split.
  { unfold text_read. rewrite Hm. destruct (files w !! manager_ts) as [d|]; [| reflexivity].
    cbn [fmap option_fmap option_map]. f_equal.
    rewrite manager_file_read, fixed_read. reflexivity. }
  split.
  { unfold text_read. rewrite Hp. destruct (files w !! pipeline_ts) as [d|]; [| reflexivity].
    cbn [fmap option_fmap option_map]. f_equal.
    rewrite pipeline_file_read, fixed_read. reflexivity. }
  split.
  { apply List.Forall_forall. intros p Hin.
    destruct (decide (p = manager_ts)) as [->|H1]; [now left |].
    destruct (decide (p = pipeline_ts)) as [->|H2]; [right; now left |].
    right. right. unfold text_read. rewrite (Ho p Hin H1 H2).
    destruct (files w !! p) as [d|]; [| reflexivity].
    cbn [fmap option_fmap option_map]. f_equal. apply fixed_read. }
  split; [exact Hm |]. split; [exact Hp |].
  split; apply List.Forall_forall; intros p Hin.
  - destruct (decide (p = manager_ts)) as [->|H1]; [now left |].
    destruct (decide (p = pipeline_ts)) as [->|H2]; [right; now left |].
    right. right. now apply Ho.
  - destruct (listed_backup_not_special p Hin) as [H1 H2].
    rewrite special_files_other by assumption.
    now rewrite (fix_all_backups _ files_to_fix_independent _ _ _ _ Hrun p Hin).
Qed.

(** X19. [main] can rewrite the manager without backing it up.  The
    backup belongs to the loop, the special cases make none: when no
    pattern matches in the text of the manager, so that the loop leaves
    it alone, but the text holds the three lines of the delegating
    method, [main] leaves the manager with another text, the one fix 1
    and fix 3 make of it, and the path of its backup is as it was, with
    no backup if there was none. *)
Theorem main_patches_without_backup (w : world) (s : string) :
  text_read (files w) manager_ts = Some s ->
  matches_any s = false ->
  contains call_old s = true ->
  exists w' t,
    main w = Some (tt, w') /\
    files w' !! manager_ts = Some t /\
    t = patched patchC (patched patchA s) /\
    t <> s /\
    files w' !! (manager_ts ++ ".bak") = files w !! (manager_ts ++ ".bak").
Proof.
  intros Hf Hm Hcall. apply text_read_spec in Hf as [data [Hf Hs]].
  destruct (fix_all_independent FILES_TO_FIX files_to_fix_independent 0 (header w))
    as [w1 [Hrun [_ [_ Hfiles]]]].
  assert (Hsame : String.eqb (fix_content (universal_newlines data))
                             (universal_newlines data) = true)
    by (rewrite Hs, (fix_content_unchanged _ Hm); apply String.eqb_refl).
  pose proof (Hfiles _ manager_listed) as H1. cbn [header files] in H1.
  rewrite Hf in H1. cbn [fmap option_fmap option_map] in H1.
  unfold fixed in H1. rewrite Hsame in H1.
  assert (Hfile : manager_file data = manager_after s).
  { destruct (manager_file_cases data) as [[_ [HC _]]|H]; [| now rewrite H, Hs].
    rewrite Hs in HC. unfold patchC in HC.
    now rewrite (contains_trans call_marker call_old s eq_refl Hcall) in HC. }
  exists (footer (0 + count_true (loop_returns FILES_TO_FIX (header w)))
                 (special_world (before_special w1))),
         (manager_after s).
  split; [now rewrite main_unfold, Hrun, fix_special_cases_run |].
  rewrite main_files.
  split; [rewrite special_files_manager, H1; cbn [fmap option_fmap option_map];
          now rewrite Hfile |].
  split; [reflexivity |]. split.
  - intros E. destruct (manager_after_call s Hcall) as [Ea _].
    pose proof (call_replace_clean (patched patchA s)) as Hclean.
    rewrite <- Ea, E in Hclean. congruence.
  - destruct (listed_backup_not_special _ manager_listed) as [H2 H3].
    rewrite special_files_other by assumption.
    rewrite (fix_all_backups _ files_to_fix_independent _ _ _ _ Hrun _ manager_listed).
    cbn [header files]. unfold changed_at. now rewrite Hf, Hsame.
Qed.

Lemma main_patches_without_backup_witness :
  let s := "class Manager {" ++ LF ++ call_old ++ LF ++ "  }" ++ LF ++ "}" ++ LF in
  let w := World {[ manager_ts := s ]} [] [] in
  (text_read (files w) manager_ts = Some s /\ matches_any s = false /\
   contains call_old s = true) /\
  exists w' t,
    main w = Some (tt, w') /\
    files w' !! manager_ts = Some t /\
    t <> s /\
    files w' !! (manager_ts ++ ".bak") = None.
Proof.
  intros s w.
  assert (H1 : text_read (files w) manager_ts = Some s) by (vm_compute; reflexivity).
  assert (H2 : matches_any s = false) by (vm_compute; reflexivity).
  assert (H3 : contains call_old s = true) by (vm_compute; reflexivity).
  split; [exact (conj H1 (conj H2 H3)) |].
  destruct (main_patches_without_backup w s H1 H2 H3) as [w' [t [Hm [Hf [_ [Hn Hb]]]]]].
  exists w', t. split; [exact Hm |]. split; [exact Hf |]. split; [exact Hn |].
  rewrite Hb. vm_compute. reflexivity.
Defined.

(** ** The two phases on the pipeline *)

Section Pipeline.

Lemma fix_content_no_stub_head s :
  contains stub_head s = false -> contains stub_head (fix_content s) = false.
Proof.
  intros H. destruct (contains stub_head (fix_content s)) eqn:E; [| reflexivity].
  apply (fix_content_no_new "f" "unction getDefaultWebSocketConfig") in E;
    [change (contains stub_head s = true) in E; congruence | | | | | |];
    vm_compute; reflexivity.
Qed.

Lemma named1_changed pre X post :
  X <> "" -> mem_char "}" X = false ->
  matches_any (pre ++ ("import { " ++ X ++ from_exchanges) ++ post) = true.
Proof.
  intros Hne HX. unfold matches_any.
  rewrite (proj2 (search1_hits _)); [reflexivity |].
  apply named_hits_shape. now exists pre, X, post.
Qed.

End Pipeline.

(** X20. The two phases of [main] on the pipeline.  When the text of the
    pipeline holds the import of [getDefaultWebSocketConfig] from the
    missing module, not inside the braces of an import before it, and has
    no [function getDefaultWebSocketConfig], the loop comments the import
    out and backs the text up, and fix 2, which looks for the commented
    import, finds what the loop wrote: [main] leaves the file with the
    stub in it and prints the line of fix 2. *)
Theorem main_stubs_the_pipeline (w : world) (pre post : string) :
  text_read (files w) pipeline_ts =
    Some (pre ++ "import { getDefaultWebSocketConfig } from '@/modules/exchanges';"
              ++ post) ->
  opened "import { " pre = false ->
  contains "function getDefaultWebSocketConfig"
    (pre ++ "import { getDefaultWebSocketConfig } from '@/modules/exchanges';"
         ++ post) = false ->
  exists w' t,
    main w = Some (tt, w') /\
    files w' !! pipeline_ts = Some t /\
    t = str_replace stub_marker stub_text
          (fix_content
             (pre ++ "import { getDefaultWebSocketConfig } from '@/modules/exchanges';"
                  ++ post)) /\
    contains stub_text t = true /\
    files w' !! (pipeline_ts ++ ".bak") =
      Some (pre ++ "import { getDefaultWebSocketConfig } from '@/modules/exchanges';"
                ++ post) /\
    In "  ✅ Added stub function to pipeline.ts" (stdout w').
Proof.
  set (content := pre ++ "import { getDefaultWebSocketConfig } from '@/modules/exchanges';"
                      ++ post).
  intros Hf Hop Hhead. pose proof Hf as Hread.
  apply text_read_spec in Hf as [data [Hf Hs]].
  assert (Hc : content = pre ++ ("import { " ++ "getDefaultWebSocketConfig" ++
                                 from_exchanges) ++ post) by reflexivity.
  destruct (fix_content_named1 pre "getDefaultWebSocketConfig" post Hop)
    as [a [b Hfix]]; [discriminate | reflexivity | reflexivity |].
  rewrite <- Hc in Hfix.
  assert (Hmarker : contains stub_marker (fix_content content) = true).
  { apply contains_spec. exists (a ++ not_implemented ++ LF), b.
    rewrite Hfix. unfold commented. now rewrite !app_assoc_s. }
  assert (HB : patchB (fix_content content) =
               Some (str_replace stub_marker stub_text (fix_content content))).
  { unfold patchB. rewrite Hmarker, (fix_content_no_stub_head _ Hhead). reflexivity. }
  assert (Hback : universal_newlines (fix_content content) = fix_content content)
    by (rewrite <- Hs; apply fix_content_read_back).
  assert (Hne : String.eqb (fix_content (universal_newlines data))
                           (universal_newlines data) = false).
  { rewrite Hs. apply String.eqb_neq, fix_content_changed. rewrite Hc.
    apply named1_changed; [discriminate | reflexivity]. }
  assert (Hchanged : changed_at (files w) pipeline_ts = true)
    by (unfold changed_at; now rewrite Hf, Hne).
  destruct (fix_all_independent FILES_TO_FIX files_to_fix_independent 0 (header w))
    as [w1 [Hrun [_ [_ Hfiles]]]].
  pose proof (Hfiles _ pipeline_listed) as Hp1.
  cbn [header files] in Hp1. rewrite Hf in Hp1.
  cbn [fmap option_fmap option_map] in Hp1.
  unfold fixed in Hp1. rewrite Hne, Hs in Hp1.
  set (wA := patch_world manager_ts patchA msg_patchA (before_special w1)).
  assert (HpA : files wA !! pipeline_ts = Some (fix_content content)).
  { unfold wA. rewrite patch_world_files, lookup_alter.
    rewrite decide_False by (intros E; symmetry in E; now apply manager_not_pipeline).
    exact Hp1. }
  assert (HB' : patchB (universal_newlines (fix_content content)) =
                Some (str_replace stub_marker stub_text (fix_content content)))
    by now rewrite Hback.
  pose proof (patch_world_applies _ _ msg_patchB _ _ _ HpA HB') as HwB.
  destruct (patch_world_log manager_ts patchC msg_patchC
              (patch_world pipeline_ts patchB msg_patchB wA))
    as [l3 [o3 [_ [Ho3 _]]]].
  exists (footer (0 + count_true (loop_returns FILES_TO_FIX (header w)))
                 (special_world (before_special w1))),
         (str_replace stub_marker stub_text (fix_content content)).
  split; [now rewrite main_unfold, Hrun, fix_special_cases_run |].
  split; [rewrite main_files, special_files_pipeline, Hp1;
          cbn [fmap option_fmap option_map];
          unfold pipeline_file, rewritten; now rewrite HB' |].
  split; [reflexivity |].
  split; [apply (replace_writes "/"
            "/ import { getDefaultWebSocketConfig } from '@/modules/exchanges';");
          exact Hmarker |].
  split.
  - destruct (listed_backup_not_special _ pipeline_listed) as [H1 H2].
    rewrite main_files, special_files_other by assumption.
    rewrite (fix_all_backups _ files_to_fix_independent _ _ _ _ Hrun _ pipeline_listed).
    cbn [header files]. now rewrite Hchanged.
  - cbn [footer stdout]. unfold special_world. fold wA.
    rewrite Ho3, HwB. cbn [stdout].
    apply in_or_app. left. apply in_or_app. left. apply in_or_app. right.
    left. reflexivity.
Qed.

Lemma main_stubs_the_pipeline_witness :
  let pre := "import { x } from './y';" ++ LF in
  let post := LF ++ "const c = getDefaultWebSocketConfig('binance');" ++ LF in
  let content :=
    pre ++ "import { getDefaultWebSocketConfig } from '@/modules/exchanges';" ++ post in
  let w := World {[ pipeline_ts := content ]} [] [] in
  (text_read (files w) pipeline_ts = Some content /\
   opened "import { " pre = false /\
   contains "function getDefaultWebSocketConfig" content = false) /\
  exists w' t,
    main w = Some (tt, w') /\
    files w' !! pipeline_ts = Some t /\
    contains stub_text t = true /\
    files w' !! (pipeline_ts ++ ".bak") = Some content /\
    In "  ✅ Added stub function to pipeline.ts" (stdout w').
Proof.
  intros pre post content w.
  assert (H1 : text_read (files w) pipeline_ts = Some content)
    by (vm_compute; reflexivity).
  assert (H2 : opened "import { " pre = false) by (vm_compute; reflexivity).
  assert (H3 : contains "function getDefaultWebSocketConfig" content = false)
    by (vm_compute; reflexivity).
  split; [exact (conj H1 (conj H2 H3)) |].
  destruct (main_stubs_the_pipeline w pre post H1 H2 H3)
    as [w' [t [Hm [Hf [_ [Hs [Hb Ho]]]]]]].
  exists w', t. exact (conj Hm (conj Hf (conj Hs (conj Hb Ho)))).
Defined.

(** ** A second run of [main] on the pipeline *)

Section SecondRun.

(** Rules 3 and 4 keep a text that opens with a line feed and inside
    which their opening literal does not start. *)
Lemma sub3_keeps_line z pre post :
  no_start "import { ExchangeService } from '.." (LF ++ z) = true ->
  exists a, sub3 (pre ++ (LF ++ z) ++ post) = a ++ (LF ++ z) ++ sub3 post.
Proof.
  intros H.
  apply (relative_keeps "import { ExchangeService } from '.."
           "exchanges/services/exchange.service'" service_import "" z pre post);
    try reflexivity; [discriminate | exact H].
Qed.

Lemma sub4_keeps_line z pre post :
  no_start "import { exchangeConnections } from '.." (LF ++ z) = true ->
  exists a, sub4 (pre ++ (LF ++ z) ++ post) = a ++ (LF ++ z) ++ sub4 post.
Proof.
  intros H.
  apply (relative_keeps "import { exchangeConnections } from '.."
           "exchanges/schema/exchanges.schema'" schema_import "" z pre post);
    try reflexivity; [discriminate | exact H].
Qed.

(** The rules leave alone a [function getDefaultWebSocketConfig] that
    opens a line. *)
Lemma fix_content_keeps_stub_line s :
  contains (LF ++ stub_head) s = true ->
  contains (LF ++ stub_head) (fix_content s) = true.
Proof.
  rewrite !contains_spec. intros [pre [post ->]]. unfold fix_content.
  destruct (named_keeps "import { " LFc stub_head pre post) as [a1 [b1 E1]];
    [discriminate | reflexivity |].
  rewrite sub1_scan. fold m1 in E1.
  change (LF ++ stub_head) with (String LFc stub_head). rewrite E1. clear E1.
  destruct (named_keeps "import type { " LFc stub_head a1 b1) as [a2 [b2 E2]];
    [discriminate | reflexivity |].
  rewrite sub2_scan. fold m2 in E2. rewrite E2. clear E2.
  change (String LFc stub_head) with (LF ++ stub_head).
  destruct (sub3_keeps_line stub_head a2 b2) as [a3 E3]; [reflexivity |].
  rewrite E3. clear E3.
  destruct (sub4_keeps_line stub_head a3 (sub3 b2)) as [a4 E4]; [reflexivity |].
  rewrite E4. now exists a4, (sub4 (sub3 b2)).
Qed.

Lemma main_pipeline w data :
  files w !! pipeline_ts = Some data ->
  exists w',
    main w = Some (tt, w') /\
    files w' !! pipeline_ts = Some (pipeline_file (fixed data)).
Proof.
  intros Hf.
  destruct (fix_all_independent FILES_TO_FIX files_to_fix_independent 0 (header w))
    as [w1 [Hrun [_ [_ Hfiles]]]].
  pose proof (Hfiles _ pipeline_listed) as H1. cbn [header files] in H1.
  rewrite Hf in H1. cbn [fmap option_fmap option_map] in H1.
  eexists. split; [now rewrite main_unfold, Hrun, fix_special_cases_run |].
  now rewrite main_files, special_files_pipeline, H1.
Qed.

Lemma stub_line_blocks_patchB s :
  contains (LF ++ stub_head) s = true -> patchB (fix_content s) = None.
Proof.
  intros H. apply patchB_guard.
  apply (contains_trans _ (LF ++ stub_head)); [reflexivity |].
  now apply fix_content_keeps_stub_line.
Qed.

End SecondRun.

(** X21. A pipeline whose text has [function getDefaultWebSocketConfig]
    at the beginning of a line gets no stub from [main], whatever else it
    holds, the commented import included: the four rules leave the
    function where it is, so the guard of fix 2 is false when fix 2
    comes, and [main] leaves the file as [fix_file] left it, with the
    text the four rules make of its text. *)
Theorem main_no_stub_beside_the_function (w : world) (c : string) :
  text_read (files w) pipeline_ts = Some c ->
  contains (LF ++ "function getDefaultWebSocketConfig") c = true ->
  exists w',
    main w = Some (tt, w') /\
    patchB (fix_content c) = None /\
    text_read (files w') pipeline_ts = Some (fix_content c) /\
    files w' !! pipeline_ts = fixed <$> files w !! pipeline_ts.
Proof.
  intros Hf Hc. apply text_read_spec in Hf as [data [Hf Hs]].
  destruct (main_pipeline w data Hf) as [w' [Hm Hp]].
  pose proof (stub_line_blocks_patchB c Hc) as Hb.
  assert (Hfile : pipeline_file (fixed data) = fixed data).
  { unfold pipeline_file, rewritten. now rewrite fixed_read, Hs, Hb. }
  rewrite Hfile in Hp.
  exists w'. split; [exact Hm |]. split; [exact Hb |]. split.
  - unfold text_read. rewrite Hp. cbn [fmap option_fmap option_map].
    now rewrite fixed_read, Hs.
  - now rewrite Hp, Hf.
Qed.

Lemma main_no_stub_beside_the_function_witness :
  let c := stub_marker ++ LF ++
           "function getDefaultWebSocketConfig(id: ExchangeId) { return {}; }" ++ LF in
  let w := World {[ pipeline_ts := c ]} [] [] in
  (text_read (files w) pipeline_ts = Some c /\
   contains (LF ++ "function getDefaultWebSocketConfig") c = true) /\
  exists w',
    main w = Some (tt, w') /\
    patchB (fix_content c) = None /\
    text_read (files w') pipeline_ts = Some (fix_content c).
Proof.
  intros c w.
  assert (H1 : text_read (files w) pipeline_ts = Some c) by (vm_compute; reflexivity).
  assert (H2 : contains (LF ++ "function getDefaultWebSocketConfig") c = true)
    by (vm_compute; reflexivity).
  split; [exact (conj H1 H2) |].
  destruct (main_no_stub_beside_the_function w c H1 H2) as [w' [Ha [Hb [Hc _]]]].
  exists w'. exact (conj Ha (conj Hb Hc)).
Defined.

(** X22. [main] run twice puts the stub in the pipeline once.  When fix 2
    applies in the first run, the stub it writes has the function at the
    beginning of a line; the second run comments the import once more
    (the loop is not idempotent) but fix 2 does not apply again: the
    pipeline is left with the text the four rules make of what the first
    run left. *)
Theorem main_twice_one_stub (w : world) (c : string) :
  text_read (files w) pipeline_ts = Some c ->
  contains stub_marker (fix_content c) = true ->
  contains "function getDefaultWebSocketConfig" (fix_content c) = false ->
  exists w1 w2 t1,
    main w = Some (tt, w1) /\
    files w1 !! pipeline_ts = Some t1 /\
    t1 = str_replace stub_marker stub_text (fix_content c) /\
    contains stub_text t1 = true /\
    main w1 = Some (tt, w2) /\
    patchB (fix_content t1) = None /\
    files w2 !! pipeline_ts = Some (fix_content t1).
Proof.
  intros Hf Hmk Hhd. apply text_read_spec in Hf as [data [Hf Hs]].
  assert (HB : patchB (fix_content c) =
               Some (str_replace stub_marker stub_text (fix_content c))).
  { unfold patchB, stub_head. now rewrite Hmk, Hhd. }
  destruct (main_pipeline w data Hf) as [w1 [Hm1 Hp1]].
  set (t1 := str_replace stub_marker stub_text (fix_content c)) in *.
  assert (Hfile1 : pipeline_file (fixed data) = t1).
  { unfold pipeline_file, rewritten. now rewrite fixed_read, Hs, HB. }
  rewrite Hfile1 in Hp1.
  assert (Hcr : mem_char CRc t1 = false).
  { apply (patchB_writes_text _ _ HB). rewrite <- Hs.
    apply fix_content_no_CR, universal_newlines_no_CR. }
  assert (Hst : contains stub_text t1 = true).
  { apply (replace_writes "/"
      "/ import { getDefaultWebSocketConfig } from '@/modules/exchanges';").
    exact Hmk. }
  assert (Hline : contains (LF ++ stub_head) t1 = true)
    by (apply (contains_trans _ stub_text); [reflexivity | exact Hst]).
  pose proof (stub_line_blocks_patchB _ Hline) as Hb2.
  destruct (main_pipeline w1 t1 Hp1) as [w2 [Hm2 Hp2]].
  assert (Hfile2 : pipeline_file (fixed t1) = fix_content t1).
  { rewrite (fixed_text _ Hcr). unfold pipeline_file.
    rewrite rewritten_text by now apply fix_content_no_CR.
    unfold patched. now rewrite Hb2. }
  rewrite Hfile2 in Hp2.
  exists w1, w2, t1. split; [exact Hm1 |]. split; [exact Hp1 |].
  split; [reflexivity |]. split; [exact Hst |]. split; [exact Hm2 |].
  split; [exact Hb2 | exact Hp2].
Qed.

Lemma main_twice_one_stub_witness :
  let c := "import { getDefaultWebSocketConfig } from '@/modules/exchanges';" ++ LF in
  let w := World {[ pipeline_ts := c ]} [] [] in
  (text_read (files w) pipeline_ts = Some c /\
   contains stub_marker (fix_content c) = true /\
   contains "function getDefaultWebSocketConfig" (fix_content c) = false) /\
  exists w1 w2 t1,
    main w = Some (tt, w1) /\
    files w1 !! pipeline_ts = Some t1 /\
    contains stub_text t1 = true /\
    main w1 = Some (tt, w2) /\
    files w2 !! pipeline_ts = Some (fix_content t1).
Proof.
  intros c w.
  assert (H1 : text_read (files w) pipeline_ts = Some c) by (vm_compute; reflexivity).
  assert (H2 : contains stub_marker (fix_content c) = true)
    by (vm_compute; reflexivity).
  assert (H3 : contains "function getDefaultWebSocketConfig" (fix_content c) = false)
    by (vm_compute; reflexivity).
  split; [exact (conj H1 (conj H2 H3)) |].
  destruct (main_twice_one_stub w c H1 H2 H3)
    as [w1 [w2 [t1 [Ha [Hb [_ [Hc [Hd [_ He]]]]]]]]].
  exists w1, w2, t1. exact (conj Ha (conj Hb (conj Hc (conj Hd He)))).
Defined.
